(** * Query-reformulation framework: a shallow embedding and its properties

    The development follows the Python sources:
    - [src/methods/base.py]      text-composition primitives and records,
    - [src/methods/qa_expand.py] the sub-question pipeline and its parsers,
    - [src/methods/csqe.py]      the dual-source sentence extractor,
    - the other strategies of the registry,
    - [src/evaluation.py] and [scripts/run_pipeline.py].

    Python strings are sequences of Unicode code points; exceptions are
    values of an error type threaded through a small monad. *)

From Stdlib Require Import ZArith NArith String Ascii DecimalString Lia.
From stdpp Require Import base list sorting gmap.

Local Open Scope Z_scope.

(** ** Python strings *)

(** A character is a Unicode code point. *)
Abbreviation char := N (only parsing).
Abbreviation str := (list N) (only parsing).

(** ASCII literals. *)
Definition lit (s : string) : str :=
  map N_of_ascii (list_ascii_of_string s).

(** A literal that holds double quotes, written with single quotes in
    their place. *)
Definition dq (s : string) : str :=
  map (fun c => if (c =? 39)%N then 34%N else c) (lit s).

(** [len(s)], of a string (it counts code points) or of a list. *)
Definition len {A} (s : list A) : Z := Z.of_nat (length s).

Definition ch_space : N := 32%N.
Definition ch_tab : N := 9%N.
Definition ch_lf : N := 10%N.
Definition ch_cr : N := 13%N.
Definition ch_dquote : N := 34%N.
Definition ch_squote : N := 39%N.

(** [str.isspace] on one character: the code points CPython's
    [_PyUnicode_IsWhitespace] accepts. [str.strip()], [str.split()] and the
    regular-expression class [\s] all use this table. *)
Definition isspace (c : N) : bool :=
  ((9 <=? c) && (c <=? 13) || (28 <=? c) && (c <=? 32)
   || (c =? 133) || (c =? 160) || (c =? 5760)
   || (8192 <=? c) && (c <=? 8202)
   || (c =? 8232) || (c =? 8233) || (c =? 8239) || (c =? 8287)
   || (c =? 12288))%N.

(** [str.isdecimal] on one character, which is also the class [\d] of
    the regular expressions: the decimal digits of Unicode 14 (CPython
    3.11), sixty-six runs of ten, each given by its zero. *)
Definition decimal_zeros : list N :=
  [48; 1632; 1776; 1984; 2406; 2534; 2662; 2790; 2918; 3046; 3174; 3302;
   3430; 3558; 3664; 3792; 3872; 4160; 4240; 6112; 6160; 6470; 6608; 6784;
   6800; 6992; 7088; 7232; 7248; 42528; 43216; 43264; 43472; 43504; 43600;
   44016; 65296; 66720; 68912; 69734; 69872; 69942; 70096; 70384; 70736;
   70864; 71248; 71360; 71472; 71904; 72016; 72784; 73040; 73120; 92768;
   92864; 93008; 120782; 120792; 120802; 120812; 120822; 123200; 123632;
   125264; 130032]%N.

Definition isdecimal (c : N) : bool :=
  existsb (fun z => (z <=? c) && (c <? z + 10))%N decimal_zeros.

(** Line boundaries of [str.splitlines]. *)
Definition islinebreak (c : N) : bool :=
  ((10 <=? c) && (c <=? 13) || (28 <=? c) && (c <=? 30)
   || (c =? 133) || (c =? 8232) || (c =? 8233))%N.

Definition char_in (cs : str) (c : N) : bool :=
  existsb (N.eqb c) cs.

(** [s.lstrip] / [s.rstrip] / [s.strip] for a predicate on characters. *)
Fixpoint lstrip_by (p : N -> bool) (s : str) : str :=
  match s with
  | [] => []
  | c :: t => if p c then lstrip_by p t else s
  end.

Fixpoint rstrip_by (p : N -> bool) (s : str) : str :=
  match s with
  | [] => []
  | c :: t =>
      match rstrip_by p t with
      | [] => if p c then [] else [c]
      | r => c :: r
      end
  end.

Definition strip_by (p : N -> bool) (s : str) : str :=
  rstrip_by p (lstrip_by p s).

(** [s.strip()] *)
Definition strip (s : str) : str := strip_by isspace s.

(** [s.strip(chars)] *)
Definition strip_chars (chars : str) (s : str) : str :=
  strip_by (char_in chars) s.

(** [s.startswith(p)] *)
Fixpoint startswith (p s : str) : bool :=
  match p, s with
  | [], _ => true
  | _ :: _, [] => false
  | a :: p', b :: s' => (a =? b)%N && startswith p' s'
  end.

(** [sub in s] *)
Fixpoint contains (sub s : str) : bool :=
  startswith sub s ||
  match s with
  | [] => false
  | _ :: t => contains sub t
  end.

(** [s.replace(old, new)] for a non-empty [old]: non-overlapping
    occurrences, leftmost first. The fuel is the number of characters left
    to scan, so [length s] always suffices. *)
Fixpoint replace_fuel (fuel : nat) (old new s : str) : str :=
  match fuel with
  | O => s
  | S f =>
      match s with
      | [] => []
      | c :: t =>
          if startswith old s
          then new ++ replace_fuel f old new (drop (length old) s)
          else c :: replace_fuel f old new t
      end
  end.

Definition replace (old new s : str) : str :=
  replace_fuel (length s) old new s.

(** [sep.join(parts)] *)
Fixpoint join (sep : str) (parts : list str) : str :=
  match parts with
  | [] => []
  | [p] => p
  | p :: ps => p ++ sep ++ join sep ps
  end.

(** [s * n] and [[x] * n]: a non-positive count gives the empty sequence. *)
Definition seq_mul {A} (l : list A) (n : Z) : list A :=
  concat (replicate (Z.to_nat n) l).

(** [s.split()]: the maximal runs of non-whitespace characters. *)
Fixpoint split_ws (s : str) : list str :=
  match s with
  | [] => []
  | c :: t =>
      if isspace c then split_ws t
      else match t with
           | [] => [[c]]
           | d :: _ =>
               if isspace d then [c] :: split_ws t
               else match split_ws t with
                    | w :: ws => (c :: w) :: ws
                    | [] => [[c]]
                    end
           end
  end.

(** ** Exceptions *)

Inductive exn :=
  | ZeroDivisionError
  | AttributeError
  | TypeError
  | KeyError
  | ValueError
  | IndexError
  | JSONDecodeError
  | RecursionError
  | RuntimeError
  | TimeoutExpired
  | OSError.

Inductive res (A : Type) :=
  | Ok (a : A)
  | Raise (e : exn).
Arguments Ok {A} a.
Arguments Raise {A} e.

#[global] Instance res_ret : MRet res := fun _ a => Ok a.
#[global] Instance res_bind : MBind res := fun _ _ k m =>
  match m with
  | Ok a => k a
  | Raise e => Raise e
  end.

(** [a // b] on integers: floor division, [ZeroDivisionError] on a zero
    divisor. *)
Definition floordiv (a b : Z) : res Z :=
  if b =? 0 then Raise ZeroDivisionError else Ok (a / b).

(** ** [src/methods/base.py] *)

Module Base.

(** [text.replace("\n", " ").replace("\r", " ").replace("\t", " ")] *)
Definition blank_controls (text : str) : str :=
  replace [ch_tab] [ch_space]
    (replace [ch_cr] [ch_space]
       (replace [ch_lf] [ch_space] text)).

Definition two_spaces : str := [ch_space; ch_space].

(** [while "  " in text: text = text.replace("  ", " ")]. Every round
    that runs shortens the text, so [length text] rounds are enough
    ([squeeze_no_double_space] below shows the loop has then exited). *)
Fixpoint squeeze_loop (fuel : nat) (text : str) : str :=
  match fuel with
  | O => text
  | S f =>
      if contains two_spaces text
      then squeeze_loop f (replace two_spaces [ch_space] text)
      else text
  end.

Definition squeeze (text : str) : str := squeeze_loop (length text) text.

Definition _clean (text : str) : str :=
  let text := blank_controls text in
  let text := squeeze text in
  strip_chars [ch_squote] (strip_chars [ch_dquote] (strip text)).

(** [concat_repeat(query, generated, repeats=5)] *)
Definition concat_repeat (query generated : str) (repeats : Z) : str :=
  let parts := seq_mul [query] repeats ++ [generated] in
  _clean (join [ch_space] parts).

(** [concat_adaptive(query, generated, ratio=5)] *)
Definition concat_adaptive (query generated : str) (ratio : Z) : res str :=
  d ← floordiv (len generated) (Z.max 1 (len query));
  q ← floordiv d ratio;
  let reps := Z.max 1 q in
  Ok (_clean (seq_mul (query ++ [ch_space]) reps ++ generated)).

(** [concat_interleave(query, passages)] *)
Definition concat_interleave (query : str) (passages : list str) : str :=
  let parts := flat_map (fun p => [query; p]) passages in
  _clean (join [ch_space] parts).

End Base.

(** [try: body except Exception: handler]. Every error of [exn] is a
    subclass of [Exception]. *)
Definition try_except {A} (body : res A) (handler : exn -> res A) : res A :=
  match body with
  | Ok a => Ok a
  | Raise e => handler e
  end.

(** [range(n)] *)
Definition py_range (n : Z) : list Z :=
  map Z.of_nat (seq 0 (Z.to_nat n)).

(** [l[:n]], with Python's reading of a negative bound. *)
Definition slice_to {A} (l : list A) (n : Z) : list A :=
  if n <? 0 then take (Z.to_nat (Z.of_nat (length l) + n)) l
  else take (Z.to_nat n) l.

(** [l[k:]] for a constant [k >= 0]. *)
Definition slice_from {A} (l : list A) (k : nat) : list A := drop k l.

(** [str(i)] for an integer. *)
Definition str_of_Z (z : Z) : str :=
  lit (NilZero.string_of_int (Z.to_int z)).

(** A list comprehension with a filter whose test may raise. *)
Fixpoint filterM {A} (p : A -> res bool) (l : list A) : res (list A) :=
  match l with
  | [] => Ok []
  | x :: t =>
      b ← p x;
      r ← filterM p t;
      Ok (if b : bool then x :: r else r)
  end.

(** [s.split(sep)] for a non-empty separator. *)
Fixpoint split_fuel (fuel : nat) (sep cur_rev s : str) : list str :=
  match fuel with
  | O => [rev cur_rev ++ s]
  | S f =>
      match s with
      | [] => [rev cur_rev]
      | c :: t =>
          if startswith sep s
          then rev cur_rev :: split_fuel f sep [] (drop (length sep) s)
          else split_fuel f sep (c :: cur_rev) t
      end
  end.

Definition split (sep s : str) : list str :=
  split_fuel (length s) sep [] s.

(** [s.splitlines()]: a ["\r\n"] pair is one boundary, and a final line
    break opens no further line. *)
Fixpoint splitlines_aux (cur_rev s : str) : list str :=
  match s with
  | [] => match cur_rev with [] => [] | _ => [rev cur_rev] end
  | c :: t =>
      if islinebreak c then
        rev cur_rev ::
          match t with
          | d :: t' =>
              if (c =? ch_cr)%N && (d =? ch_lf)%N
              then splitlines_aux [] t'
              else splitlines_aux [] t
          | [] => splitlines_aux [] t
          end
      else splitlines_aux (c :: cur_rev) t
  end.

Definition splitlines (s : str) : list str := splitlines_aux [] s.

(** ** JSON values and [json.loads]

    [json.loads] belongs to Python's standard library. It is modelled here
    after CPython's decoder (strict mode, the default): the values it
    builds, and [JSONDecodeError] on anything else. *)

#[warnings="-register-all"]
Inductive json :=
  | JNull
  | JBool (b : bool)
  | JInt (z : Z)
  | JFloat (lexeme : str)
  | JStr (s : str)
  | JList (l : list json)
  | JDict (d : list (str * json)).

(** A [dict] with string keys, in insertion order. *)
Fixpoint dict_set {V} (d : list (str * V)) (k : str) (v : V) : list (str * V) :=
  match d with
  | [] => [(k, v)]
  | (k', v') :: t =>
      if decide (k' = k) then (k, v) :: t else (k', v') :: dict_set t k v
  end.

Fixpoint dict_lookup {V} (d : list (str * V)) (k : str) : option V :=
  match d with
  | [] => None
  | (k', v) :: t => if decide (k' = k) then Some v else dict_lookup t k
  end.

(** [d.get(k, default)] *)
Definition dict_get {V} (d : list (str * V)) (k : str) (default : V) : V :=
  match dict_lookup d k with
  | Some v => v
  | None => default
  end.

Module Json.

Definition is_ws (c : N) : bool :=
  ((c =? 32) || (c =? 9) || (c =? 10) || (c =? 13))%N.

Definition skip_ws (s : str) : str := lstrip_by is_ws s.

Definition is_digit (c : N) : bool := ((48 <=? c) && (c <=? 57))%N.

Fixpoint span_by (p : N -> bool) (s : str) : str * str :=
  match s with
  | [] => ([], [])
  | c :: t =>
      if p c then let '(a, b) := span_by p t in (c :: a, b)
      else ([], s)
  end.

Definition hexval (c : N) : option N :=
  if is_digit c then Some (c - 48)%N
  else if ((97 <=? c) && (c <=? 102))%N then Some (c - 87)%N
  else if ((65 <=? c) && (c <=? 70))%N then Some (c - 55)%N
  else None.

Definition hex4 (a b c d : N) : option N :=
  match hexval a, hexval b, hexval c, hexval d with
  | Some x, Some y, Some z, Some w => Some (((x * 16 + y) * 16 + z) * 16 + w)%N
  | _, _, _, _ => None
  end.

(** The one-character escapes: quote, backslash, slash, b, f, n, r, t. *)
Definition simple_escape (c : N) : option N :=
  if (c =? 34)%N then Some 34%N
  else if (c =? 92)%N then Some 92%N
  else if (c =? 47)%N then Some 47%N
  else if (c =? 98)%N then Some 8%N
  else if (c =? 102)%N then Some 12%N
  else if (c =? 110)%N then Some 10%N
  else if (c =? 114)%N then Some 13%N
  else if (c =? 116)%N then Some 9%N
  else None.

(** The low half of a surrogate pair, when the text goes on with one. *)
Definition low_surrogate (s : str) : option (N * str) :=
  match s with
  | b :: u :: h1 :: h2 :: h3 :: h4 :: t =>
      if (b =? 92)%N && (u =? 117)%N then
        match hex4 h1 h2 h3 h4 with
        | Some v => if ((56320 <=? v) && (v <=? 57343))%N then Some (v, t) else None
        | None => None
        end
      else None
  | _ => None
  end.

(** The body of a string after its opening quote: the decoded text and
    what follows the closing quote. *)
Fixpoint scanstring (fuel : nat) (acc_rev s : str) : option (str * str) :=
  match fuel with
  | O => None
  | S f =>
      match s with
      | [] => None
      | c :: t =>
          if (c =? 34)%N then Some (rev acc_rev, t)
          else if (c =? 92)%N then
            match t with
            | [] => None
            | e :: t' =>
                if (e =? 117)%N then
                  match t' with
                  | h1 :: h2 :: h3 :: h4 :: t2 =>
                      match hex4 h1 h2 h3 h4 with
                      | None => None
                      | Some v =>
                          if ((55296 <=? v) && (v <=? 56319))%N then
                            match low_surrogate t2 with
                            | Some (v2, t3) =>
                                scanstring f
                                  ((65536 + (N.lor (N.shiftl (v - 55296) 10)
                                                   (v2 - 56320)))%N :: acc_rev) t3
                            | None => scanstring f (v :: acc_rev) t2
                            end
                          else scanstring f (v :: acc_rev) t2
                      end
                  | _ => None
                  end
                else
                  match simple_escape e with
                  | Some x => scanstring f (x :: acc_rev) t'
                  | None => None
                  end
            end
          else if (c <? 32)%N then None
          else scanstring f (c :: acc_rev) t
      end
  end.

Definition digits_value (ds : str) : Z :=
  fold_left (fun acc d => acc * 10 + Z.of_N (d - 48)) ds 0.

(** A number, by the decoder's pattern: an optional minus sign, then a
    zero or a digit run that does not start with zero; then optionally a
    dot with one or more digits; then optionally an exponent ([e] or [E],
    an optional sign, one or more digits). An integer when it has neither
    fraction nor exponent, a float otherwise. *)
Definition scan_number (s : str) : option (json * str) :=
  let '(neg, s1) :=
    match s with
    | c :: t => if (c =? 45)%N then (true, t) else (false, s)
    | [] => (false, s)
    end in
  match s1 with
  | [] => None
  | d :: t =>
      if negb (is_digit d) then None
      else
        let '(ipart, r1) :=
          if (d =? 48)%N then ([d], t) else span_by is_digit s1 in
        let '(frac, r2) :=
          match r1 with
          | p :: t1 =>
              if (p =? 46)%N then
                match span_by is_digit t1 with
                | ([], _) => ([], r1)
                | (fd, r) => (p :: fd, r)
                end
              else ([], r1)
          | [] => ([], r1)
          end in
        let '(expo, r3) :=
          match r2 with
          | e :: t2 =>
              if ((e =? 101) || (e =? 69))%N then
                let '(sign, t3) :=
                  match t2 with
                  | sg :: t3 =>
                      if ((sg =? 43) || (sg =? 45))%N then ([sg], t3) else ([], t2)
                  | [] => ([], t2)
                  end in
                match span_by is_digit t3 with
                | ([], _) => ([], r2)
                | (ed, r) => (e :: sign ++ ed, r)
                end
              else ([], r2)
          | [] => ([], r2)
          end in
        match frac, expo with
        | [], [] =>
            Some (JInt (if neg : bool then - digits_value ipart
                        else digits_value ipart), r3)
        | _, _ =>
            Some (JFloat ((if neg : bool then [45%N] else []) ++ ipart ++ frac ++ expo), r3)
        end
  end.

Definition strip_prefix (p s : str) : option str :=
  if startswith p s then Some (drop (length p) s) else None.

(** One value at the head of [s], and the text after it. *)
Fixpoint scan_once (fuel : nat) (s : str) : res (json * str) :=
  match fuel with
  | O => Raise RecursionError
  | S f =>
      match s with
      | [] => Raise JSONDecodeError
      | c :: t =>
          if (c =? 34)%N then
            match scanstring (length t) [] t with
            | Some (v, r) => Ok (JStr v, r)
            | None => Raise JSONDecodeError
            end
          else if (c =? 123)%N then
            match skip_ws t with
            | c1 :: t1 =>
                if (c1 =? 125)%N then Ok (JDict [], t1)
                else scan_members f [] (c1 :: t1)
            | [] => Raise JSONDecodeError
            end
          else if (c =? 91)%N then
            match skip_ws t with
            | c1 :: t1 =>
                if (c1 =? 93)%N then Ok (JList [], t1)
                else scan_elements f [] (c1 :: t1)
            | [] => Raise JSONDecodeError
            end
          else
            match strip_prefix (lit "null") s, strip_prefix (lit "true") s,
                  strip_prefix (lit "false") s with
            | Some r, _, _ => Ok (JNull, r)
            | _, Some r, _ => Ok (JBool true, r)
            | _, _, Some r => Ok (JBool false, r)
            | None, None, None =>
                match scan_number s with
                | Some vr => Ok vr
                | None =>
                    match strip_prefix (lit "NaN") s,
                          strip_prefix (lit "Infinity") s,
                          strip_prefix (lit "-Infinity") s with
                    | Some r, _, _ => Ok (JFloat (lit "NaN"), r)
                    | _, Some r, _ => Ok (JFloat (lit "Infinity"), r)
                    | _, _, Some r => Ok (JFloat (lit "-Infinity"), r)
                    | None, None, None => Raise JSONDecodeError
                    end
                end
            end
      end
  end
(** The members of an object, from the opening quote of a key on. *)
with scan_members (fuel : nat) (acc : list (str * json)) (s : str)
    : res (json * str) :=
  match fuel with
  | O => Raise RecursionError
  | S f =>
      match s with
      | q :: t =>
          if negb (q =? 34)%N then Raise JSONDecodeError
          else
            match scanstring (length t) [] t with
            | None => Raise JSONDecodeError
            | Some (key, r) =>
                match skip_ws r with
                | colon :: r1 =>
                    if negb (colon =? 58)%N then Raise JSONDecodeError
                    else
                      '(v, r2) ← scan_once f (skip_ws r1);
                      let acc := dict_set acc key v in
                      match skip_ws r2 with
                      | c :: r3 =>
                          if (c =? 125)%N then Ok (JDict acc, r3)
                          else if (c =? 44)%N then scan_members f acc (skip_ws r3)
                          else Raise JSONDecodeError
                      | [] => Raise JSONDecodeError
                      end
                | [] => Raise JSONDecodeError
                end
            end
      | [] => Raise JSONDecodeError
      end
  end
(** The elements of an array, from the first character of a value on. *)
with scan_elements (fuel : nat) (acc_rev : list json) (s : str)
    : res (json * str) :=
  match fuel with
  | O => Raise RecursionError
  | S f =>
      '(v, r) ← scan_once f s;
      match skip_ws r with
      | c :: r1 =>
          if (c =? 93)%N then Ok (JList (rev (v :: acc_rev)), r1)
          else if (c =? 44)%N then scan_elements f (v :: acc_rev) (skip_ws r1)
          else Raise JSONDecodeError
      | [] => Raise JSONDecodeError
      end
  end.

(** [json.loads(text)]: no byte-order mark, one value, nothing but
    white space around it. The recursion is bounded by a fuel larger than
    any run consumes; past it the model reports [RecursionError], the
    error CPython raises when nesting exceeds its recursion limit. *)
Definition loads (text : str) : res json :=
  if startswith [65279%N] text then Raise JSONDecodeError
  else
    '(v, r) ← scan_once (2 * length text + 2) (skip_ws text);
    match skip_ws r with
    | [] => Ok v
    | _ :: _ => Raise JSONDecodeError
    end.

End Json.

(** ** [src/methods/qa_expand.py]: the parsers *)

Module QAExpand.

Definition fence : str := lit "```".

(** [_robust_json(text)] *)
Definition _robust_json (text : str) : res json :=
  let text := strip text in
  let text :=
    if contains fence text then
      let parts := split fence text in
      let text :=
        match parts with
        | _ :: p1 :: _ => p1
        | _ => text
        end in
      if startswith (lit "json") text then slice_from text 4 else text
    else text in
  let text := strip text in
  Json.loads text.

(** [data.get(key, default)] on whatever [json.loads] returned: only a [dict]
    has the method. *)
Definition json_get (data : json) (key : str) (default : json) : res json :=
  match data with
  | JDict d => Ok (dict_get d key default)
  | _ => Raise AttributeError
  end.

(** [v.strip()] on a value of a parsed object: only a [str] has the
    method. *)
Definition json_strip (v : json) : res str :=
  match v with
  | JStr s => Ok (strip s)
  | _ => Raise AttributeError
  end.

(** [f"{prefix}{i+1}"] *)
Definition numbered_key (prefix : str) (i : Z) : str :=
  prefix ++ str_of_Z (i + 1).

(** The characters of [l.strip("-•* \t")]. *)
Definition bullet_chars : str := [45; 8226; 42; 32; 9]%N.

(** [_parse_list(raw, n, prefix)]. The entries are the values found in the
    parsed object, whatever their type, or lines of the raw text. *)
Definition _parse_list (raw : str) (n : Z) (prefix : str) : res (list json) :=
  try_except
    (data ← _robust_json raw;
     mapM (fun i => json_get data (numbered_key prefix i) (JStr [])) (py_range n))
    (fun _ =>
       let lines :=
         map (strip_chars bullet_chars)
             (filter (fun l => strip l ≠ []) (splitlines raw)) in
       Ok (map JStr (slice_to (lines ++ seq_mul [[]] n) n))).

(** [_extract_kept_answers(raw, n)] *)
Definition _extract_kept_answers (raw : str) (n : Z) : res (list Z) :=
  try_except
    (data ← _robust_json raw;
     filterM (fun i =>
                v ← json_get data (numbered_key (lit "answer") i) (JStr []);
                s ← json_strip v;
                Ok (bool_decide (s ≠ [])))
             (py_range n))
    (fun _ => Ok (py_range n)).

End QAExpand.

(** ** Regular expressions

    The part of Python's [re] that [csqe.py] uses: a backtracking matcher
    over patterns whose quantifiers apply to one character class. *)

Module Regex.

Inductive cls :=
  | CChar (c : N)            (* a literal character *)
  | CCharI (c : N)           (* a literal under IGNORECASE *)
  | CSet (cs : str)          (* [...] *)
  | CNotSet (cs : str)       (* [^...] *)
  | CDigit                   (* \d *)
  | CSpace                   (* \s *)
  | CAny.                    (* . under DOTALL *)

Inductive re :=
  | Eps
  | Lit (c : cls)
  | Bol                      (* ^ under MULTILINE *)
  | Eos                      (* $ without MULTILINE *)
  | Seq (r1 r2 : re)
  | Alt (r1 r2 : re)
  | Rep (greedy : bool) (lo : nat) (hi : option nat) (c : cls)
  | Group (r : re)           (* the capturing group *)
  | Ahead (r : re).          (* (?=...) *)

(** The characters a cased ASCII letter matches under IGNORECASE: both
    cases, and the few non-ASCII characters that fold to it. *)
Definition ci_variants (c : N) : str :=
  let lower := if ((65 <=? c) && (c <=? 90))%N then (c + 32)%N else c in
  if ((97 <=? lower) && (lower <=? 122))%N then
    [lower; (lower - 32)%N] ++
    (if (lower =? 115)%N then [383%N]
     else if (lower =? 107)%N then [8490%N]
     else if (lower =? 105)%N then [304%N; 305%N]
     else [])
  else [c].

Record mstate := MState {
  m_prev : option N;         (* the character before the position *)
  m_pos : nat;               (* the position, from the start of the search *)
  m_rest : str;              (* the text from the position on *)
  m_cap : option (nat * nat) (* span of the group, once closed *)
}.

Definition cls_match (c : cls) (x : N) : bool :=
  match c with
  | CChar y => (x =? y)%N
  | CCharI y => char_in (ci_variants y) x
  | CSet cs => char_in cs x
  | CNotSet cs => negb (char_in cs x)
  | CDigit => isdecimal x
  | CSpace => isspace x
  | CAny => true
  end.

Definition may_take (hi : option nat) : bool :=
  match hi with
  | Some O => false
  | _ => true
  end.

(** A greedy quantifier: as many characters as allowed first, then fewer. *)
Fixpoint rep_greedy (c : cls) (lo : nat) (hi : option nat)
    (k : mstate -> option mstate)
    (prev : option N) (pos : nat) (cap : option (nat * nat)) (rest : str)
    : option mstate :=
  let stop :=
    match lo with
    | O => k (MState prev pos rest cap)
    | S _ => None
    end in
  match rest with
  | x :: t =>
      if cls_match c x && may_take hi then
        match rep_greedy c (pred lo) (pred <$> hi) k (Some x) (S pos) cap t with
        | Some r => Some r
        | None => stop
        end
      else stop
  | [] => stop
  end.

(** A lazy quantifier: as few characters as allowed first, then more. *)
Fixpoint rep_lazy (c : cls) (lo : nat) (hi : option nat)
    (k : mstate -> option mstate)
    (prev : option N) (pos : nat) (cap : option (nat * nat)) (rest : str)
    : option mstate :=
  let more :=
    match rest with
    | x :: t =>
        if cls_match c x && may_take hi
        then rep_lazy c (pred lo) (pred <$> hi) k (Some x) (S pos) cap t
        else None
    | [] => None
    end in
  match lo with
  | O =>
      match k (MState prev pos rest cap) with
      | Some r => Some r
      | None => more
      end
  | S _ => more
  end.

(** [m r k st]: match [r] at [st], then go on with [k]; the first success
    in the matcher's order of preference. *)
Fixpoint m (r : re) (k : mstate -> option mstate) (st : mstate)
    : option mstate :=
  match r with
  | Eps => k st
  | Lit c =>
      match m_rest st with
      | x :: t =>
          if cls_match c x
          then k (MState (Some x) (S (m_pos st)) t (m_cap st))
          else None
      | [] => None
      end
  | Bol =>
      match m_prev st with
      | None => k st
      | Some p => if (p =? ch_lf)%N then k st else None
      end
  | Eos =>
      match m_rest st with
      | [] => k st
      | [x] => if (x =? ch_lf)%N then k st else None
      | _ => None
      end
  | Seq r1 r2 => m r1 (m r2 k) st
  | Alt r1 r2 =>
      match m r1 k st with
      | Some res => Some res
      | None => m r2 k st
      end
  | Rep true lo hi c =>
      rep_greedy c lo hi k (m_prev st) (m_pos st) (m_cap st) (m_rest st)
  | Rep false lo hi c =>
      rep_lazy c lo hi k (m_prev st) (m_pos st) (m_cap st) (m_rest st)
  | Group r1 =>
      m r1 (fun st' =>
              k (MState (m_prev st') (m_pos st') (m_rest st')
                        (Some (m_pos st, m_pos st')))) st
  | Ahead r1 =>
      match m r1 Some st with
      | Some _ => k st
      | None => None
      end
  end.

(** The leftmost match in [s]: where it starts, where it ends, and the span
    of the group. *)
Fixpoint search (r : re) (prev : option N) (pos : nat) (s : str)
    : option (nat * nat * option (nat * nat)) :=
  match m r Some (MState prev pos s None) with
  | Some st => Some (pos, m_pos st, m_cap st)
  | None =>
      match s with
      | x :: t => search r (Some x) (S pos) t
      | [] => None
      end
  end.

Definition substr (s : str) (a b : nat) : str := take (b - a) (drop a s).

(** The character before position [e > 0] of [s]. *)
Definition char_before (s : str) (e : nat) (prev : option N) : option N :=
  match e with
  | O => prev
  | S e' => s !! e'
  end.

(** [re.findall(r, s)]: the group of every match (the whole match for a
    pattern without group), scanning left to right. After an empty match
    the scan moves on by one character. *)
Fixpoint findall_fuel (fuel : nat) (r : re) (prev : option N) (s : str)
    : list str :=
  match fuel with
  | O => []
  | S f =>
      match search r prev 0 s with
      | None => []
      | Some (i, e, cap) =>
          let item :=
            match cap with
            | Some (a, b) => substr s a b
            | None => substr s i e
            end in
          if (e =? i)%nat then
            if (i <? length s)%nat
            then item :: findall_fuel f r (char_before s (S i) prev) (drop (S i) s)
            else [item]
          else item :: findall_fuel f r (char_before s e prev) (drop e s)
      end
  end.

Definition findall (r : re) (s : str) : list str :=
  findall_fuel (S (length s)) r None s.

(** [re.sub(r, repl, s)] for a replacement without group references. *)
Fixpoint sub_fuel (fuel : nat) (r : re) (repl : str) (prev : option N)
    (s : str) : str :=
  match fuel with
  | O => s
  | S f =>
      match search r prev 0 s with
      | None => s
      | Some (i, e, _) =>
          if (e =? i)%nat then
            take i s ++ repl ++
              match drop i s with
              | x :: t => x :: sub_fuel f r repl (Some x) t
              | [] => []
              end
          else take i s ++ repl ++ sub_fuel f r repl (char_before s e prev) (drop e s)
      end
  end.

Definition sub (r : re) (repl s : str) : str :=
  sub_fuel (S (length s)) r repl None s.

(** A literal string, case-sensitive or not. *)
Definition lit_re (ci : bool) (s : str) : re :=
  foldr (fun c r => Seq (Lit (if ci then CCharI c else CChar c)) r) Eps s.

Definition star (c : cls) : re := Rep true 0 None c.
Definition plus (c : cls) : re := Rep true 1 None c.
Definition lazy_plus (c : cls) : re := Rep false 1 None c.
Definition opt (c : cls) : re := Rep true 0 (Some 1%nat) c.

End Regex.

(** ** [src/methods/csqe.py]: the sentence extractor *)

Module CSQE.
Import Regex.

(** The pattern of [re.findall] for quoted sentences: a double quote, one
    or more characters other than a double quote (the group), a double
    quote. *)
Definition quoted_re : re :=
  Seq (Lit (CChar ch_dquote))
      (Seq (Group (plus (CNotSet [ch_dquote])))
           (Lit (CChar ch_dquote))).

(** [^Relevant Documents?:?\s*\n?] under IGNORECASE and MULTILINE. *)
Definition header_re : re :=
  Seq Bol
      (Seq (lit_re true (lit "Relevant Document"))
           (Seq (opt (CCharI 115))
                (Seq (opt (CCharI 58))
                     (Seq (star CSpace) (opt (CCharI ch_lf)))))).

(** [\d+[.:]] *)
Definition marker_re : re :=
  Seq (plus CDigit) (Lit (CSet (lit ".:"))).

(** [\d+[.:]\s*(.+?)(?=\d+[.:]|$)] under DOTALL. *)
Definition chunk_re : re :=
  Seq marker_re
      (Seq (star CSpace)
           (Seq (Group (lazy_plus CAny))
                (Ahead (Alt marker_re Eos)))).

(** [_extract_sentences(text)] *)
Definition _extract_sentences (text : str) : str :=
  let quoted := findall quoted_re text in
  match quoted with
  | _ :: _ => join [ch_space] quoted
  | [] =>
      let cleaned := sub header_re [] text in
      let chunks := findall chunk_re cleaned in
      match chunks with
      | _ :: _ =>
          join [ch_space]
            (map (fun c => join [ch_space] (split_ws c))
                 (filter (fun c => strip c ≠ []) chunks))
      | [] => []
      end
  end.

End CSQE.

(** ** The strategies

    [src/llm_client.py], [src/prompts.py] and the [reformulate_query]
    method of every class of [src/methods/]. *)

Module Query.
Record t := mk { qid : str; text : str }.
End Query.

Module ReformulatedQuery.
Record t := mk {
  qid : str;
  original : str;
  reformulated : str;
  metadata : list (str * json)
}.
End ReformulatedQuery.

(** The classes of [METHOD_REGISTRY]. *)
Inductive method :=
  | GenQR
  | GenQREnsemble
  | Query2Keyword
  | Query2DocZS
  | Query2DocFS
  | Query2DocCoT
  | QAExpandM
  | MUGI
  | CSQEM
  | LameR.

Definition METHOD_REGISTRY : gmap (list N) method :=
  list_to_map
    [ (lit "genqr", GenQR);
      (lit "genqr_ensemble", GenQREnsemble);
      (lit "q2k", Query2Keyword);
      (lit "q2d_zs", Query2DocZS);
      (lit "q2d_fs", Query2DocFS);
      (lit "q2d_cot", Query2DocCoT);
      (lit "qa_expand", QAExpandM);
      (lit "mugi", MUGI);
      (lit "csqe", CSQEM);
      (lit "lamer", LameR) ].

(** [get_method(name)] *)
Definition get_method (name : str) : res method :=
  match METHOD_REGISTRY !! name with
  | Some c => Ok c
  | None => Raise ValueError
  end.

(** [REQUIRES_CONTEXTS] *)
Definition REQUIRES_CONTEXTS (c : method) : bool :=
  match c with
  | CSQEM | LameR => true
  | _ => false
  end.

(** [LLMClient]: what [generate] reads of it. *)
Record LLMClient := {
  model_id : str;
  max_retries : Z
}.

(** A strategy instance: [self.llm], [self.prompts._bank], [self.params].
    A prompt is its list of messages, each a role and a content template. *)
Record instance := {
  llm : LLMClient;
  prompts : gmap (list N) (list (str * str));
  params : gmap (list N) json
}.

Module Methods.
Import Base.

Section World.

(** The state of everything outside the program, and the calls that reach
    it or that Python's library answers. *)
Context {W : Type}.

(** [client.chat.completions.create(model, messages, n)]: the contents of
    the choices, or an error. *)
Variable chat_create : str -> list (str * str) -> Z -> W -> res (list str) * W.
(** [template.format] with keyword arguments [variables] *)
Variable str_format : str -> list (str * json) -> res str.
(** [json.dumps(value)] *)
Variable json_dumps : json -> str.
(** [s.lower()] *)
Variable str_lower : str -> str.
(** [int(v)] and [str(v)] for a configuration value that is not already
    an integer, respectively a string. *)
Variable int_other : json -> res Z.
Variable str_other : json -> str.

(** Computations that read and change the world and may raise. *)
Definition M (A : Type) : Type := W -> res A * W.

#[local] Instance M_ret : MRet M := fun _ a w => (Ok a, w).
#[local] Instance M_bind : MBind M := fun _ _ k c w =>
  match c w with
  | (Ok a, w') => k a w'
  | (Raise e, w') => (Raise e, w')
  end.

Definition lift {A} (r : res A) : M A := fun w => (r, w).

(** [for _ in range(n): out.append(body())] *)
Fixpoint repeatM {A} (n : nat) (body : M A) : M (list A) :=
  match n with
  | O => mret []
  | S n' => x ← body; r ← repeatM n' body; mret (x :: r)
  end.

(** [for x in l: out.append(body(x))] *)
Fixpoint forM {A B} (l : list A) (body : A -> M B) : M (list B) :=
  match l with
  | [] => mret []
  | x :: t => y ← body x; r ← forM t body; mret (y :: r)
  end.

Definition py_int (v : json) : res Z :=
  match v with
  | JInt z => Ok z
  | JBool b => Ok (if b then 1 else 0)
  | _ => int_other v
  end.

Definition py_str (v : json) : str :=
  match v with
  | JStr s => s
  | _ => str_other v
  end.

(** [int(self.params.get(key, default))] *)
Definition param_int (self : instance) (key : string) (dflt : Z) : M Z :=
  lift (py_int (default (JInt dflt) (params self !! lit key))).

(** [LLMClient.generate(messages, n=n)]: [None] when the loop over the
    attempts ends without a return. *)
Fixpoint generate_attempts (client : LLMClient) (messages : list (str * str))
    (n : Z) (attempts : list Z) : M (option (list str)) :=
  match attempts with
  | [] => mret None
  | attempt :: later => fun w =>
      match chat_create (model_id client) messages n w with
      | (Ok contents, w') => (Ok (Some (map strip contents)), w')
      | (Raise e, w') =>
          if attempt =? max_retries client then (Raise e, w')
          else generate_attempts client messages n later w'
      end
  end.

Definition generate (client : LLMClient) (messages : list (str * str)) (n : Z)
    : M (option (list str)) :=
  generate_attempts client messages n
    (map (Z.add 1) (py_range (max_retries client))).

(** Iterating or concatenating the value [generate] returned. *)
Definition as_list {A} (o : option (list A)) : res (list A) :=
  match o with
  | Some l => Ok l
  | None => Raise TypeError
  end.

(** [LLMClient.generate_one(messages)] *)
Definition generate_one (client : LLMClient) (messages : list (str * str))
    : M str :=
  r ← generate client messages 1;
  lift (l ← as_list r;
        match l with
        | x :: _ => Ok x
        | [] => Raise IndexError
        end).

(** [PromptBank.render(prompt_id, **variables)] *)
Definition render (bank : gmap (list N) (list (str * str))) (prompt_id : str)
    (variables : list (str * json)) : res (list (str * str)) :=
  match bank !! prompt_id with
  | None => Raise KeyError
  | Some messages =>
      mapM (fun '(role, content) =>
              c ← str_format content variables; Ok (role, c))
           messages
  end.

Definition qvar (q : Query.t) : str * json := (lit "query", JStr (Query.text q)).

(** [" ".join(...)] *)
Definition spaced (parts : list str) : str := join [ch_space] parts.

(** [GenQR.reformulate_query] *)
Definition genqr (self : instance) (query : Query.t)
    (contexts : option (list str)) : M ReformulatedQuery.t :=
  num_calls ← param_int self "num_calls" 5;
  all_keywords ← repeatM (Z.to_nat num_calls)
    (msgs ← lift (render (prompts self) (lit "genqr") [qvar query]);
     generate_one (llm self) msgs);
  let keyword_text := spaced all_keywords in
  let reformulated := _clean (Query.text query ++ [ch_space] ++ keyword_text) in
  mret (ReformulatedQuery.mk (Query.qid query) (Query.text query) reformulated
          [(lit "keywords", JList (JStr <$> all_keywords))]).

Definition NUM_INSTRUCTIONS : Z := 10.

(** [GenQREnsemble.reformulate_query] *)
Definition genqr_ensemble (self : instance) (query : Query.t)
    (contexts : option (list str)) : M ReformulatedQuery.t :=
  query_repeats ← param_int self "query_repeats" 5;
  all_keywords ← forM (map (Z.add 1) (py_range NUM_INSTRUCTIONS))
    (fun i =>
       let prompt_id := lit "genqr_ens_" ++ str_of_Z i in
       msgs ← lift (render (prompts self) prompt_id [qvar query]);
       generate_one (llm self) msgs);
  let keyword_text := spaced all_keywords in
  let reformulated := concat_repeat (Query.text query) keyword_text query_repeats in
  mret (ReformulatedQuery.mk (Query.qid query) (Query.text query) reformulated
          [(lit "keyword_sets", JList (JStr <$> all_keywords))]).

(** [Query2Keyword.reformulate_query] *)
Definition q2k (self : instance) (query : Query.t)
    (contexts : option (list str)) : M ReformulatedQuery.t :=
  query_repeats ← param_int self "query_repeats" 5;
  msgs ← lift (render (prompts self) (lit "q2k") [qvar query]);
  keywords ← generate_one (llm self) msgs;
  let reformulated := concat_repeat (Query.text query) keywords query_repeats in
  mret (ReformulatedQuery.mk (Query.qid query) (Query.text query) reformulated
          [(lit "keywords", JStr keywords)]).

(** [_Q2DBase.reformulate_query], for the [_build_messages] of a variant. *)
Definition q2d (build_messages : instance -> Query.t -> res (list (str * str)))
    (self : instance) (query : Query.t) (contexts : option (list str))
    : M ReformulatedQuery.t :=
  query_repeats ← param_int self "query_repeats" 5;
  msgs ← lift (build_messages self query);
  passage ← generate_one (llm self) msgs;
  let reformulated := concat_repeat (Query.text query) passage query_repeats in
  mret (ReformulatedQuery.mk (Query.qid query) (Query.text query) reformulated
          [(lit "pseudo_document", JStr passage)]).

(** [_Q2DBase._build_messages] *)
Definition build_messages (PROMPT_ID : string) (self : instance)
    (query : Query.t) : res (list (str * str)) :=
  render (prompts self) (lit PROMPT_ID) [qvar query].

(** [Query2DocFS._build_messages] *)
Definition build_messages_fs (self : instance) (query : Query.t)
    : res (list (str * str)) :=
  let examples := default (JStr []) (params self !! lit "examples") in
  render (prompts self) (lit "q2d_fs") [qvar query; (lit "examples", examples)].

(** [MUGI.reformulate_query] *)
Definition mugi (self : instance) (query : Query.t)
    (contexts : option (list str)) : M ReformulatedQuery.t :=
  num_docs ← param_int self "num_docs" 5;
  adaptive_ratio ← param_int self "adaptive_ratio" 5;
  pseudo_docs ← repeatM (Z.to_nat num_docs)
    (msgs ← lift (render (prompts self) (lit "mugi") [qvar query]);
     generate_one (llm self) msgs);
  let generated := spaced pseudo_docs in
  reformulated ← lift (concat_adaptive (Query.text query) generated adaptive_ratio);
  mret (ReformulatedQuery.mk (Query.qid query) (Query.text query) reformulated
          [(lit "pseudo_docs", JList (JStr <$> pseudo_docs))]).

(** [l[i]] *)
Definition py_index {A} (l : list A) (i : Z) : res A :=
  let j := if i <? 0 then Z.of_nat (length l) + i else i in
  if j <? 0 then Raise IndexError
  else match l !! Z.to_nat j with
       | Some x => Ok x
       | None => Raise IndexError
       end.

(** [{f"{prefix}{i+1}": x for i, x in enumerate(l)}] *)
Definition numbered_dict (prefix : string) (l : list json) : list (str * json) :=
  foldl (fun d '(i, x) => dict_set d (QAExpand.numbered_key (lit prefix) (Z.of_nat i)) x)
        [] (imap pair l).

(** [[_clean(a) for a in selected if a.strip()]] *)
Fixpoint clean_selected (selected : list json) : res (list str) :=
  match selected with
  | [] => Ok []
  | a :: t =>
      s ← QAExpand.json_strip a;
      r ← clean_selected t;
      Ok (if bool_decide (s ≠ [])
          then match a with JStr x => _clean x :: r | _ => r end
          else r)
  end.

(** [QAExpand.reformulate_query] *)
Definition qa_expand (self : instance) (query : Query.t)
    (contexts : option (list str)) : M ReformulatedQuery.t :=
  num_subq ← param_int self "num_subquestions" 3;
  query_repeats ← param_int self "query_repeats" 3;
  (* Step 1: generate sub-questions *)
  msgs_sq ← lift (render (prompts self) (lit "qa_expand_subq") [qvar query]);
  raw_sq ← generate_one (llm self) msgs_sq;
  subquestions ← lift (QAExpand._parse_list raw_sq num_subq (lit "question"));
  (* Step 2: generate answers *)
  let questions_json := json_dumps (JDict (numbered_dict "question" subquestions)) in
  msgs_ans ← lift (render (prompts self) (lit "qa_expand_answer")
                     [(lit "questions", JStr questions_json)]);
  raw_ans ← generate_one (llm self) msgs_ans;
  answers ← lift (QAExpand._parse_list raw_ans num_subq (lit "answer"));
  (* Step 3: filter / refine answers *)
  let answers_json := json_dumps (JDict (numbered_dict "answer" answers)) in
  msgs_ref ← lift (render (prompts self) (lit "qa_expand_refine")
                     [qvar query; (lit "answers", JStr answers_json)]);
  raw_ref ← generate_one (llm self) msgs_ref;
  kept ← lift (QAExpand._extract_kept_answers raw_ref num_subq);
  (* Construct expanded query *)
  selected ← lift (mapM (py_index answers)
                     (filter (fun i => i < Z.of_nat (length answers)) kept));
  cleaned ← lift (clean_selected selected);
  let reformulated :=
    concat_repeat (Query.text query) (spaced cleaned) query_repeats in
  mret (ReformulatedQuery.mk (Query.qid query) (Query.text query) reformulated
          [(lit "subquestions", JList subquestions);
           (lit "answers", JList answers);
           (lit "kept_indices", JList (JInt <$> kept))]).

(** [(contexts or [])[:ctx_k]] *)
Definition top_contexts (contexts : option (list str)) (ctx_k : Z) : list str :=
  slice_to (default [] contexts) ctx_k.

(** ["\n".join(f"{i+1}. {p}" for i, p in enumerate(ctxs))] *)
Definition numbered_block (ctxs : list str) : str :=
  join [ch_lf]
    (imap (fun i p => str_of_Z (Z.of_nat i + 1) ++ lit ". " ++ p) ctxs).

(** [CSQE.reformulate_query] *)
Definition csqe (self : instance) (query : Query.t)
    (contexts : option (list str)) : M ReformulatedQuery.t :=
  n_gen ← param_int self "n_expansions" 2;
  ctx_k ← param_int self "context_k" 10;
  (* 1. Knowledge-based passages (KEQE) *)
  msgs_keqe ← lift (render (prompts self) (lit "keqe") [qvar query]);
  keqe_passages ← generate (llm self) msgs_keqe n_gen;
  (* 2. Context-based sentence extraction (CSQE) *)
  let ctxs := top_contexts contexts ctx_k in
  let ctx_blob := numbered_block ctxs in
  msgs_csqe ← lift (render (prompts self) (lit "csqe")
                      [qvar query; (lit "contexts", JStr ctx_blob)]);
  csqe_raw ← generate (llm self) msgs_csqe n_gen;
  csqe_raw ← lift (as_list csqe_raw);
  let csqe_sentences := map CSQE._extract_sentences csqe_raw in
  (* 3. Concatenate *)
  keqe_passages ← lift (as_list keqe_passages);
  let parts := seq_mul [Query.text query] n_gen ++ keqe_passages ++ csqe_sentences in
  let reformulated := str_lower (_clean (spaced parts)) in
  mret (ReformulatedQuery.mk (Query.qid query) (Query.text query) reformulated
          [(lit "keqe_passages", JList (JStr <$> keqe_passages));
           (lit "csqe_sentences", JList (JStr <$> csqe_sentences));
           (lit "n_contexts_used", JInt (len ctxs))]).

(** [LameR.reformulate_query] *)
Definition lamer (self : instance) (query : Query.t)
    (contexts : option (list str)) : M ReformulatedQuery.t :=
  num_gen ← param_int self "num_passages" 5;
  ctx_k ← param_int self "context_k" 10;
  let dataset_tag := default (JStr (lit "msmarco")) (params self !! lit "dataset") in
  let ctxs := top_contexts contexts ctx_k in
  let ctx_blob := numbered_block ctxs in
  (* Choose the dataset-specific prompt (falls back to generic) *)
  let prompt_id := lit "lamer_" ++ py_str dataset_tag in
  prompt_id ← lift
    match render (prompts self) prompt_id
            [(lit "query", JStr (lit "test")); (lit "contexts", JStr (lit "test"))] with
    | Ok _ => Ok prompt_id
    | Raise KeyError => Ok (lit "lamer_msmarco")
    | Raise e => Raise e
    end;
  passages ← repeatM (Z.to_nat num_gen)
    (msgs ← lift (render (prompts self) prompt_id
                    [qvar query; (lit "contexts", JStr ctx_blob)]);
     passage ← generate_one (llm self) msgs;
     mret (strip_chars [ch_squote] (strip_chars [ch_dquote] (strip passage))));
  let reformulated := concat_interleave (Query.text query) passages in
  mret (ReformulatedQuery.mk (Query.qid query) (Query.text query) reformulated
          [(lit "generated_passages", JList (JStr <$> passages));
           (lit "n_contexts_used", JInt (len ctxs))]).

(** [reformulate_query] of an instance of class [c]. *)
Definition reformulate_query (c : method) (self : instance) (query : Query.t)
    (contexts : option (list str)) : M ReformulatedQuery.t :=
  match c with
  | GenQR => genqr self query contexts
  | GenQREnsemble => genqr_ensemble self query contexts
  | Query2Keyword => q2k self query contexts
  | Query2DocZS => q2d (build_messages "q2d_zs") self query contexts
  | Query2DocFS => q2d build_messages_fs self query contexts
  | Query2DocCoT => q2d (build_messages "q2d_cot") self query contexts
  | QAExpandM => qa_expand self query contexts
  | MUGI => mugi self query contexts
  | CSQEM => csqe self query contexts
  | LameR => lamer self query contexts
  end.

(** [BaseMethod.reformulate_batch(queries, ctx_map)] *)
Definition reformulate_batch (c : method) (self : instance)
    (queries : list Query.t) (ctx_map : option (gmap (list N) (list str)))
    : M (list ReformulatedQuery.t) :=
  forM queries (fun q =>
    let ctxs := default ∅ ctx_map !! Query.qid q in
    reformulate_query c self q ctxs).

End World.
End Methods.

(** ** [src/data.py]: the dataset table *)

Record dataset_cfg := {
  topics : str;
  qrels : option str;
  index_bm25 : str;
  index_splade : str;
  index_bge : str;
  eval_metrics : list str;
  trec_args : list str;
  group : str
}.

Definition msmarco_cfg (topics : string) (qrels : option string) : dataset_cfg :=
  {| topics := lit topics;
     qrels := lit <$> qrels;
     index_bm25 := lit "msmarco-v1-passage";
     index_splade := lit "msmarco-v1-passage-splade-pp-ed";
     index_bge := lit "msmarco-v1-passage.bge-base-en-v1.5";
     eval_metrics := [lit "ndcg_cut_10"; lit "recall_1000"];
     trec_args := [lit "-c"; lit "-l"; lit "2"];
     group := lit "trec" |}.

Definition beir_cfg (name : string) : dataset_cfg :=
  {| topics := lit "beir-v1.0.0-" ++ lit name ++ lit "-test";
     qrels := Some (lit "beir-v1.0.0-" ++ lit name ++ lit "-test");
     index_bm25 := lit "beir-v1.0.0-" ++ lit name ++ lit ".flat";
     index_splade := lit "beir-v1.0.0-" ++ lit name ++ lit "-splade-pp-ed";
     index_bge := lit "beir-v1.0.0-" ++ lit name ++ lit ".bge-base-en-v1.5";
     eval_metrics := [lit "ndcg_cut_10"; lit "recall_100"];
     trec_args := [lit "-c"];
     group := lit "beir" |}.

Definition DATASETS : gmap (list N) dataset_cfg :=
  list_to_map
    [ (lit "dl19", msmarco_cfg "dl19-passage" (Some "dl19-passage"%string));
      (lit "dl20", msmarco_cfg "dl20-passage" (Some "dl20-passage"%string));
      (lit "dlhard", msmarco_cfg "dl19-passage" None);
      (lit "scifact", beir_cfg "scifact");
      (lit "arguana", beir_cfg "arguana");
      (lit "covid", beir_cfg "trec-covid");
      (lit "fiqa", beir_cfg "fiqa");
      (lit "dbpedia", beir_cfg "dbpedia-entity");
      (lit "news", beir_cfg "trec-news") ].

(** ** [src/retrieval.py]: retriever configuration *)

Record retriever_cfg := {
  searcher : str;
  index_key : dataset_cfg -> str;
  extra_args : list str
}.

Definition RETRIEVER_CONFIGS : gmap (list N) retriever_cfg :=
  list_to_map
    [ (lit "bm25",
       {| searcher := lit "lucene"; index_key := index_bm25; extra_args := [] |});
      (lit "splade",
       {| searcher := lit "lucene"; index_key := index_splade;
          extra_args := [lit "--impact"; lit "--pretokenized"] |});
      (lit "bge",
       {| searcher := lit "faiss"; index_key := index_bge;
          extra_args := [lit "--encoder-class"; lit "auto";
                         lit "--encoder"; lit "BAAI/bge-base-en-v1.5";
                         lit "--l2-norm"] |}) ].

(** ** [src/evaluation.py], [src/retrieval.py], [scripts/run_pipeline.py] *)

(** A finished child process. *)
Record completed := {
  returncode : Z;
  stdout : str;
  stderr : str
}.

(** What the pipeline prints, by kind of line. *)
Inductive event :=
  | EvCached (path : str)
  | EvRetrievalStart (retriever : str)
  | EvRetrievalDone (retriever : str)
  | EvRetrievalError (retriever : str) (e : exn)
  | EvEvalWarn (metric : str)
  | EvEvaluated (retriever : str)
  | EvEvalError (retriever : str) (e : exn).

(** [s.replace(old, new, 1)] *)
Fixpoint replace_first (old new s : str) : str :=
  if startswith old s then new ++ drop (length old) s
  else match s with
       | [] => []
       | c :: t => c :: replace_first old new t
       end.

(** [dir / name] on paths. *)
Definition path_join (dir name : str) : str := dir ++ lit "/" ++ name.

(** [path.parent], for a path with a directory part. *)
Definition path_parent (path : str) : str :=
  rev (drop 1 (lstrip_by (fun c => negb (c =? 47)%N) (rev path))).

Module Pipeline.

Section World.

(** The file system and the child processes, and the floating-point
    numbers of Python. *)
Context {W F : Type}.

(** [subprocess.run(cmd, capture_output=True, text=True, timeout=...)]:
    the finished process, or an error such as [TimeoutExpired]. *)
Variable subprocess_run : list str -> W -> res completed * W.
(** [path.mkdir(parents=True, exist_ok=True)] *)
Variable mkdir : str -> W -> res unit * W.
(** [path.exists()] *)
Variable path_exists : str -> W -> bool.
(** [float("nan")] and [float(s)], whose failure is a [ValueError]. *)
Variable nan : F.
Variable py_float : str -> option F.

(** The state of a run: the world and the lines printed so far. *)
Definition M (A : Type) : Type := W * list event -> res A * (W * list event).

#[local] Instance M_ret : MRet M := fun _ a s => (Ok a, s).
#[local] Instance M_bind : MBind M := fun _ _ k c s =>
  match c s with
  | (Ok a, s') => k a s'
  | (Raise e, s') => (Raise e, s')
  end.

Definition lift {A} (r : res A) : M A := fun s => (r, s).

Definition print (e : event) : M unit := fun s => (Ok (), (s.1, s.2 ++ [e])).

Definition run (cmd : list str) : M completed := fun s =>
  let '(r, w) := subprocess_run cmd s.1 in (r, (w, s.2)).

Definition make_dirs (path : str) : M unit := fun s =>
  let '(r, w) := mkdir path s.1 in (r, (w, s.2)).

Definition exists_ (path : str) : M bool := fun s => (Ok (path_exists path s.1), s).

(** [try: body except Exception as e: handler(e)] *)
Definition try_catch {A} (body : M A) (handler : exn -> M A) : M A := fun s =>
  match body s with
  | (Ok a, s') => (Ok a, s')
  | (Raise e, s') => handler e s'
  end.

(** An argument list handed to [subprocess.run] must hold strings: a
    [None] among them is a [TypeError]. *)
Definition argv (args : list (option str)) : res (list str) :=
  mapM (fun a => match a with Some x => Ok x | None => Raise TypeError end) args.

(** The scan of the evaluator's output for one metric: every line whose
    second field is [all] and that has a third field sets the value, when
    that field reads as a float. *)
Definition scan_output (metric : str) (out : str) (results : gmap (list N) F)
    : gmap (list N) F :=
  foldl (fun results line =>
           match split_ws line with
           | _ :: p1 :: p2 :: _ =>
               if bool_decide (p1 = lit "all") then
                 match py_float p2 with
                 | Some v => <[metric := v]> results
                 | None => results
                 end
               else results
           | _ => results
           end)
        results (splitlines (strip out)).

(** The body of the loop of [evaluate] for one metric. *)
Definition evaluate_metric (ds_trec_args : list str) (qrels : option str)
    (run_file : str) (results : gmap (list N) F) (metric : str)
    : M (gmap (list N) F) :=
  let trec_metric :=
    if contains (lit "_") metric then replace_first (lit "_") (lit ".") metric
    else metric in
  cmd ← lift (argv ((Some <$> [lit "python"; lit "-m"; lit "pyserini.eval.trec_eval"]
                       ++ ds_trec_args ++ [lit "-m"; trec_metric])
                    ++ [qrels; Some run_file]));
  proc ← run cmd;
  if negb (returncode proc =? 0) then
    _ ← print (EvEvalWarn trec_metric);
    mret (<[metric := nan]> results)
  else
    mret (scan_output metric (stdout proc) results).

Fixpoint foldM {A B} (f : B -> A -> M B) (b : B) (l : list A) : M B :=
  match l with
  | [] => mret b
  | x :: t => b' ← f b x; foldM f b' t
  end.

(** [evaluate(run_file, dataset, qrels_path, metrics)] *)
Definition evaluate (run_file dataset : str) (qrels_path : option str)
    (metrics : option (list str)) : M (gmap (list N) F) :=
  ds_cfg ← lift (match DATASETS !! dataset with
                 | Some c => Ok c
                 | None => Raise KeyError
                 end);
  let qrels :=
    match qrels_path with
    | None => qrels ds_cfg
    | Some p => Some p
    end in
  let metrics := default (eval_metrics ds_cfg) metrics in
  let trec_args := trec_args ds_cfg in
  foldM (evaluate_metric trec_args qrels run_file) ∅ metrics.

(** [run_retrieval(...)] *)
Definition run_retrieval (queries_tsv dataset retriever output_run : str)
    (hits threads batch_size : Z) (remove_query : bool) (query_prefix : str)
    : M str :=
  ds_cfg ← lift (match DATASETS !! dataset with
                 | Some c => Ok c
                 | None => Raise KeyError
                 end);
  ret_cfg ← lift (match RETRIEVER_CONFIGS !! retriever with
                  | Some c => Ok c
                  | None => Raise KeyError
                  end);
  let index_name := index_key ret_cfg ds_cfg in
  _ ← make_dirs (path_parent output_run);
  let module :=
    if bool_decide (searcher ret_cfg = lit "faiss")
    then lit "pyserini.search.faiss"
    else lit "pyserini.search.lucene" in
  let cmd :=
    [lit "python"; lit "-m"; module;
     lit "--threads"; str_of_Z threads;
     lit "--batch-size"; str_of_Z batch_size;
     lit "--index"; index_name;
     lit "--topics"; queries_tsv;
     lit "--output"; output_run;
     lit "--hits"; str_of_Z hits] ++ extra_args ret_cfg in
  let cmd := if bool_decide (query_prefix ≠ [])
             then cmd ++ [lit "--query-prefix"; query_prefix] else cmd in
  let cmd := if remove_query then cmd ++ [lit "--remove-query"] else cmd in
  _ ← print (EvRetrievalStart retriever);
  result ← run cmd;
  if negb (returncode result =? 0) then lift (Raise RuntimeError)
  else
    _ ← print (EvRetrievalDone retriever);
    mret output_run.

(** The [retrieval] section of the configuration file. *)
Record retrieval_cfg := {
  hits : Z;
  threads : Z;
  batch_size : Z
}.

(** One cell of the grid, as [main] names it. *)
Record cell := {
  llm_name : str;
  method_name : str;
  ds : str;
  reform_file : str;
  run_dir : str
}.

(** [run_dir / f"{ds}.{ret}.run"] *)
Definition run_file_of (c : cell) (ret : str) : str :=
  path_join (run_dir c) (ds c ++ lit "." ++ ret ++ lit ".run").

(** [f"{llm_name}/{method_name}/{ds}/{ret}"] *)
Definition result_key (c : cell) (ret : str) : str :=
  llm_name c ++ lit "/" ++ method_name c ++ lit "/" ++ ds c ++ lit "/" ++ ret.

(** The retrieval call of step 2: a query prefix for the dense retriever,
    and no echo of the query on the BEIR datasets. *)
Definition retrieval_call (ret_cfg : retrieval_cfg) (c : cell) (ret : str) : M str :=
  let is_bge := bool_decide (ret = lit "bge") in
  let query_prefix :=
    if is_bge
    then lit "Represent this sentence for searching relevant passages:"
    else [] in
  let remove_query :=
    is_bge && bool_decide (group <$> DATASETS !! ds c = Some (lit "beir")) in
  run_retrieval (reform_file c) (ds c) ret (run_file_of c ret)
    (hits ret_cfg) (threads ret_cfg) (batch_size ret_cfg)
    remove_query query_prefix.

(** Step 2 of [main], for one retriever. *)
Definition retrieve_one (ret_cfg : retrieval_cfg) (c : cell) (ret : str) : M unit :=
  let run_file := run_file_of c ret in
  cached ← exists_ run_file;
  if cached : bool then print (EvCached run_file)
  else
    try_catch
      (_ ← retrieval_call ret_cfg c ret; mret ())
      (fun e => print (EvRetrievalError ret e)).

(** The judgment file of step 3: the one given on the command line for
    [dlhard], the default of the dataset otherwise. *)
Definition qrels_override (dlhard_qrels : option str) (c : cell) : option str :=
  if bool_decide (ds c = lit "dlhard")
  then match dlhard_qrels with
       | Some p => if bool_decide (p ≠ []) then Some p else None
       | None => None
       end
  else None.

(** The evaluation call of step 3. *)
Definition evaluation_call (dlhard_qrels : option str) (c : cell) (ret : str)
    : M (gmap (list N) F) :=
  evaluate (run_file_of c ret) (ds c) (qrels_override dlhard_qrels c) None.

(** Step 3 of [main], for one retriever. *)
Definition evaluate_one (dlhard_qrels : option str) (c : cell)
    (all_results : gmap (list N) (gmap (list N) F)) (ret : str)
    : M (gmap (list N) (gmap (list N) F)) :=
  let run_file := run_file_of c ret in
  present ← exists_ run_file;
  if negb present then mret all_results
  else
    try_catch
      (metrics ← evaluation_call dlhard_qrels c ret;
       let key := result_key c ret in
       let all_results := <[key := metrics]> all_results in
       _ ← print (EvEvaluated ret);
       mret all_results)
      (fun e => _ ← print (EvEvalError ret e); mret all_results).

Fixpoint forM_ {A} (l : list A) (body : A -> M unit) : M unit :=
  match l with
  | [] => mret ()
  | x :: t => _ ← body x; forM_ t body
  end.

(** Steps 2 and 3 of [main] for one (LLM, method, dataset): every
    retriever is run, then every retriever is evaluated. *)
Definition retrieve_and_evaluate (ret_cfg : retrieval_cfg)
    (dlhard_qrels : option str) (c : cell) (retrievers : list str)
    (all_results : gmap (list N) (gmap (list N) F))
    : M (gmap (list N) (gmap (list N) F)) :=
  _ ← forM_ retrievers (retrieve_one ret_cfg c);
  foldM (evaluate_one dlhard_qrels c) all_results retrievers.

End World.
End Pipeline.

(** ** Collaborators for the examples

    A completion service that answers every request at once, a formatter
    that appends the values of the variables to the template, and a prompt
    bank with the prompt of every strategy. *)

Module Example.

(** The completion of the scenario of the specification: one keyword list
    for a request about climate change, another for any other request. *)
Definition completion_for (messages : list (str * str)) : str :=
  if existsb (fun m => contains (lit "climate change") m.2) messages
  then lit "warming, emissions"
  else lit "photovoltaic, energy".

(** The world counts the requests served. *)
Definition chat_create (model : str) (messages : list (str * str)) (n : Z)
    (w : nat) : res (list str) * nat :=
  (Ok (replicate (Z.to_nat n) (completion_for messages)), S w).

(** A service that is down. *)
Definition chat_down (model : str) (messages : list (str * str)) (n : Z)
    (w : nat) : res (list str) * nat :=
  (Raise RuntimeError, S w).

Definition str_format (template : str) (variables : list (str * json))
    : res str :=
  Ok (foldl (fun acc kv =>
               acc ++ [ch_space] ++
               match kv.2 with JStr s => s | _ => [] end)
            template variables).

Definition json_dumps (v : json) : str := lit "{}".
Definition str_lower (s : str) : str := s.
Definition int_other (v : json) : res Z := Raise TypeError.
Definition str_other (v : json) : str := [].

Definition bank : gmap (list N) (list (str * str)) :=
  list_to_map
    (map (fun id => (id, [(lit "user", id ++ lit ":")]))
         ([lit "genqr"; lit "q2k"; lit "q2d_zs"; lit "q2d_fs"; lit "q2d_cot";
           lit "mugi"; lit "keqe"; lit "csqe"; lit "lamer_msmarco";
           lit "qa_expand_subq"; lit "qa_expand_answer"; lit "qa_expand_refine"]
          ++ map (fun i => lit "genqr_ens_" ++ str_of_Z i)
                 (map (Z.add 1) (py_range 10)))).

Definition client : LLMClient := {| model_id := lit "gpt-4.1"; max_retries := 3 |}.

(** An instance built with an empty parameter dictionary. *)
Definition self : instance := {| llm := client; prompts := bank; params := ∅ |}.

Definition q1 : Query.t := Query.mk (lit "q1") (lit "climate change").
Definition q2 : Query.t := Query.mk (lit "q2") (lit "solar panels").

Definition reformulate (c : method) (q : Query.t) (w : nat)
    : res ReformulatedQuery.t * nat :=
  Methods.reformulate_query chat_create str_format json_dumps str_lower
    int_other str_other c self q None w.

End Example.

(** A file system that is the list of the paths it holds, a retrieval
    process that succeeds for the sparse learned retriever only, and an
    evaluation process with a scripted result. *)

Module ExampleRun.

(** Floats, as far as the examples need them: not-a-number, or a number
    kept as the text it was read from. *)
Inductive fl :=
  | Nan
  | Num (text : str).

Definition py_float (s : str) : option fl :=
  if bool_decide (s = lit "nan") then Some Nan
  else match s with
       | [] => None
       | _ => if forallb (fun c => Json.is_digit c || (c =? 46)%N) s
              then Some (Num s) else None
       end.

Fixpoint arg_after (flag : str) (cmd : list str) : option str :=
  match cmd with
  | a :: ((b :: _) as t) => if bool_decide (a = flag) then Some b else arg_after flag t
  | _ => None
  end.

(** [partial]: whether a failing retrieval leaves the run file it had
    begun to write. [report]: what the evaluation process prints and how
    it exits. *)
Definition subprocess_run (partial : bool) (report : completed)
    (cmd : list str) (w : list str) : res completed * list str :=
  if bool_decide (lit "pyserini.eval.trec_eval" ∈ cmd) then (Ok report, w)
  else
    match arg_after (lit "--output") cmd with
    | Some out =>
        if bool_decide (lit "--impact" ∈ cmd)
        then (Ok {| returncode := 0; stdout := []; stderr := [] |}, out :: w)
        else (Ok {| returncode := 1; stdout := []; stderr := lit "index not found" |},
              if partial then out :: w else w)
    | None => (Raise OSError, w)
    end.

Definition mkdir (path : str) (w : list str) : res unit * list str := (Ok (), w).

Definition path_exists (path : str) (w : list str) : bool :=
  bool_decide (path ∈ w).

Definition good_report : completed :=
  {| returncode := 0;
     stdout := lit "ndcg_cut_10" ++ [ch_tab] ++ lit "all" ++ [ch_tab] ++ lit "0.5" ++ [ch_lf];
     stderr := [] |}.

(** An evaluator that exits with status 0 and prints no aggregate row. *)
Definition silent_report : completed :=
  {| returncode := 0; stdout := lit "trec_eval: no queries evaluated"; stderr := [] |}.

Definition failed_report : completed :=
  {| returncode := 1; stdout := []; stderr := lit "cannot read qrels" |}.

Definition ret_cfg : Pipeline.retrieval_cfg :=
  {| Pipeline.hits := 1000; Pipeline.threads := 16; Pipeline.batch_size := 512 |}.

Definition cell : Pipeline.cell :=
  {| Pipeline.llm_name := lit "gpt-4.1";
     Pipeline.method_name := lit "q2k";
     Pipeline.ds := lit "dl19";
     Pipeline.reform_file := lit "outputs/gpt-4.1/q2k/dl19.tsv";
     Pipeline.run_dir := lit "outputs/gpt-4.1/q2k/runs" |}.

(** The retrievers [A] and [B] of the fault-isolation scenario. *)
Definition A : str := lit "bm25".
Definition B : str := lit "splade".

Definition run_grid (partial : bool) (report : completed)
    : res (gmap (list N) (gmap (list N) fl)) * (list str * list event) :=
  Pipeline.retrieve_and_evaluate (subprocess_run partial report) mkdir
    path_exists Nan py_float ret_cfg None cell [A; B] ∅ ([], []).

Definition evaluate_with (report : completed) (metrics : list str)
    : res (gmap (list N) fl) * (list str * list event) :=
  Pipeline.evaluate (subprocess_run false report) Nan py_float
    (lit "outputs/gpt-4.1/q2k/runs/dl19.splade.run") (lit "dl19") None
    (Some metrics) ([], []).

End ExampleRun.

(** ** Text files and [csv.writer]

    A text file is its decoded content. The functions below are the parts
    of Python's library that [src/data.py] and [src/retrieval.py] use to
    read and write query files. *)

Definition ch_comma : N := 44%N.

(** The lines a text file yields when it is iterated, opened as the code
    opens it (the default [newline=None]): each of LF, CR and CR LF ends a
    line and is read as LF, which stays at the end of the line. *)
Fixpoint file_lines_aux (cur_rev s : str) : list str :=
  match s with
  | [] => match cur_rev with [] => [] | _ => [rev cur_rev] end
  | c :: t =>
      if (c =? ch_lf)%N then rev (ch_lf :: cur_rev) :: file_lines_aux [] t
      else if (c =? ch_cr)%N then
        rev (ch_lf :: cur_rev) ::
          match t with
          | d :: t' =>
              if (d =? ch_lf)%N then file_lines_aux [] t'
              else file_lines_aux [] t
          | [] => file_lines_aux [] t
          end
      else file_lines_aux (c :: cur_rev) t
  end.

Definition file_lines (content : str) : list str := file_lines_aux [] content.

(** [s.partition(sep)] for a one-character separator that occurs. *)
Fixpoint cut (sep : N) (s : str) : option (str * str) :=
  match s with
  | [] => None
  | c :: t =>
      if (c =? sep)%N then Some ([], t)
      else
        match cut sep t with
        | Some (a, b) => Some (c :: a, b)
        | None => None
        end
  end.

(** [s.split(sep, 1)] for a one-character separator: one cut, at the first
    separator. *)
Definition split_once (sep : N) (s : str) : list str :=
  match cut sep s with
  | Some (a, b) => [a; b]
  | None => [s]
  end.

Module Csv.

(** The writer of the [excel] dialect with a chosen delimiter: minimal
    quoting, the quote character doubled inside a quoted field, CR LF after
    every row. *)
Definition special (delimiter c : N) : bool :=
  ((c =? delimiter) || (c =? ch_dquote) || (c =? ch_cr) || (c =? ch_lf))%N.

Definition quoted (field : str) : str :=
  [ch_dquote]
    ++ flat_map (fun c => if (c =? ch_dquote)%N then [ch_dquote; ch_dquote] else [c])
         field
    ++ [ch_dquote].

Definition format_field (delimiter : N) (field : str) : str :=
  if existsb (special delimiter) field then quoted field else field.

(** [writer.writerow(row)], as the text it appends. A row that is one
    empty field is written as a pair of quotes. *)
Definition writerow (delimiter : N) (row : list str) : str :=
  match row with
  | [[]] => [ch_dquote; ch_dquote; ch_cr; ch_lf]
  | _ => join [delimiter] (map (format_field delimiter) row) ++ [ch_cr; ch_lf]
  end.

End Csv.

(** ** [src/data.py]: query files *)

Module Data.

(** The body of the loop of [load_queries_tsv], for one line. *)
Definition load_line (queries : list Query.t) (line : str) : list Query.t :=
  let line := strip line in
  if bool_decide (line = []) then queries
  else
    match split_once ch_tab line with
    | [p0; p1] =>
        if bool_decide (strip p1 ≠ [])
        then queries ++ [Query.mk (strip p0) (strip p1)]
        else queries
    | _ => queries
    end.

(** [load_queries_tsv(path)], from the content of the file. *)
Definition load_queries_tsv (content : str) : list Query.t :=
  foldl load_line [] (file_lines content).

(** What [save_queries_tsv] is given: reformulated queries, or plain
    tuples, here of strings. *)
Inductive row :=
  | RowQuery (q : ReformulatedQuery.t)
  | RowTuple (fields : list str).

(** [save_queries_tsv(queries, path)], as the content of the file it
    writes (opened with an empty [newline], so that the row ends are
    written as they are). *)
Definition save_queries_tsv (queries : list row) : str :=
  foldl (fun f q =>
           match q with
           | RowQuery q =>
               f ++ Csv.writerow ch_tab
                      [ReformulatedQuery.qid q; ReformulatedQuery.reformulated q]
           | RowTuple fields => f ++ Csv.writerow ch_tab fields
           end)
        [] queries.

(** The keys of [DATASETS], in the order of the table. *)
Definition DATASETS_keys : list str :=
  [lit "dl19"; lit "dl20"; lit "dlhard"; lit "scifact"; lit "arguana";
   lit "covid"; lit "fiqa"; lit "dbpedia"; lit "news"].

End Data.

(** ** [src/retrieval.py]: contexts for the corpus-grounded methods *)

Module Retrieval.

(** The body of the loop of [_read_tsv], for one line. *)
Definition read_line (pairs : list (str * str)) (line : str) : list (str * str) :=
  match split_once ch_tab (strip line) with
  | [p0; p1] => pairs ++ [(p0, p1)]
  | _ => pairs
  end.

(** [_read_tsv(path)], from the content of the file. *)
Definition _read_tsv (content : str) : list (str * str) :=
  foldl read_line [] (file_lines content).

(** [key in parsed], on whatever [json.loads] returned: a key of an
    object, an element of an array, a substring of a string; anything else
    is not iterable. *)
Definition json_in (key : str) (parsed : json) : res bool :=
  match parsed with
  | JDict d => Ok (bool_decide (is_Some (dict_lookup d key)))
  | JList l =>
      Ok (existsb (fun v => match v with
                            | JStr s => bool_decide (s = key)
                            | _ => false
                            end) l)
  | JStr s => Ok (contains key s)
  | JNull | JBool _ | JInt _ | JFloat _ => Raise TypeError
  end.

(** [parsed[key]] for a string key: only an object can be indexed by
    one. *)
Definition json_item (parsed : json) (key : str) : res json :=
  match parsed with
  | JDict d =>
      match dict_lookup d key with
      | Some v => Ok v
      | None => Raise KeyError
      end
  | _ => Raise TypeError
  end.

(** The loop over the other keys, and the fall back after it. *)
Fixpoint scan_keys (keys : list str) (parsed : json) (raw : str) : res str :=
  match keys with
  | [] => Ok (strip raw)
  | key :: keys =>
      present ← json_in key parsed;
      if present : bool then
        v ← json_item parsed key;
        QAExpand.json_strip v
      else scan_keys keys parsed raw
  end.

(** [_extract_passage_text(hit)], where [doc] is the stored document of
    the hit: [doc name] is the field [name], if the document has it. *)
Definition _extract_passage_text (doc : str -> option str) : res str :=
  let raw := doc (lit "raw") in
  match raw with
  | Some ((_ :: _) as raw) =>
      try_except
        (parsed ← Json.loads raw;
         present ← json_in (lit "contents") parsed;
         if present : bool then
           v ← json_item parsed (lit "contents");
           QAExpand.json_strip v
         else scan_keys [lit "body"; lit "text"; lit "passage"] parsed raw)
        (fun e =>
           match e with
           | JSONDecodeError | TypeError => Ok (strip raw)
           | _ => Raise e
           end)
  | _ =>
      let contents := doc (lit "contents") in
      match contents with
      | Some ((_ :: _) as contents) => Ok (strip contents)
      | _ => Ok []
      end
  end.

End Retrieval.

(** ** [src/evaluation.py]: [evaluate_all] *)

Module Evaluation.

Section World.

Context {W F : Type}.

Variable subprocess_run : list str -> W -> res completed * W.
Variable path_exists : str -> W -> bool.
Variable nan : F.
Variable py_float : str -> option F.

#[local] Existing Instance Pipeline.M_ret.
#[local] Existing Instance Pipeline.M_bind.

(** [results[dataset][retriever][metric]], the outer dictionaries in
    insertion order. *)
Definition table : Type := list (str * list (str * gmap (list N) F)).

(** The body of the inner loop: one run file. *)
Definition evaluate_all_cell (run_dir : str) (qrels_overrides : list (str * str))
    (ds : str) (all_results : table) (ret : str) : Pipeline.M (W:=W) table :=
  let run_file := path_join run_dir (ds ++ lit "." ++ ret ++ lit ".run") in
  present ← Pipeline.exists_ path_exists run_file;
  if negb present then mret all_results
  else
    let qrels := dict_lookup qrels_overrides ds in
    metrics ← Pipeline.evaluate subprocess_run nan py_float run_file ds qrels None;
    mret (dict_set all_results ds (dict_set (dict_get all_results ds []) ret metrics)).

(** [x or default] on an optional list. *)
Definition or_list {A} (x : option (list A)) (dflt : list A) : list A :=
  match x with
  | Some ((_ :: _) as l) => l
  | _ => dflt
  end.

(** [evaluate_all(run_dir, datasets, retrievers, qrels_overrides)] *)
Definition evaluate_all (run_dir : str) (datasets retrievers : option (list str))
    (qrels_overrides : option (list (str * str))) : Pipeline.M (W:=W) table :=
  let datasets := or_list datasets Data.DATASETS_keys in
  let retrievers := or_list retrievers [lit "bm25"; lit "splade"; lit "bge"] in
  let qrels_overrides := or_list qrels_overrides [] in
  Pipeline.foldM
    (fun all_results ds =>
       let all_results := dict_set all_results ds [] in
       Pipeline.foldM (evaluate_all_cell run_dir qrels_overrides ds)
         all_results retrievers)
    [] datasets.

End World.

End Evaluation.

(** * Properties *)

(** ** The adaptive composition primitive *)

Lemma floordiv_ok (a b : Z) : b ≠ 0 -> floordiv a b = Ok (a / b).
Proof.
  intros Hb. unfold floordiv.
  destruct (Z.eqb_spec b 0) as [->|_]; [contradiction | reflexivity].
Qed.

Lemma floordiv_zero (a : Z) : floordiv a 0 = Raise ZeroDivisionError.
Proof. reflexivity. Qed.

Lemma len_nonneg {A} (s : list A) : 0 <= len s.
Proof. unfold len. lia. Qed.



(** A zero ratio is the one way to a [ZeroDivisionError]. *)
Lemma concat_adaptive_zero_ratio (query generated : str) :
  Base.concat_adaptive query generated 0 = Raise ZeroDivisionError.
Proof.
  unfold Base.concat_adaptive. rewrite floordiv_ok by lia. reflexivity.
Qed.

(** ** The parsers of the sub-question pipeline *)

Section QAExpandFacts.
Import QAExpand.

Lemma mapM_res_ok {A B} (f : A -> B) (g : A -> res B) (l : list A) :
  (forall x, x ∈ l -> g x = Ok (f x)) -> mapM g l = Ok (map f l).
Proof.
  induction l as [|x l IH]; intros Hg; [reflexivity|].
  cbn. rewrite (Hg x) by left. cbn.
  rewrite IH by (intros y Hy; apply Hg; by right). reflexivity.
Qed.

Lemma mapM_res_raise {A B} (g : A -> res B) (e : exn) (x : A) (l : list A) :
  g x = Raise e -> mapM g (x :: l) = Raise e.
Proof. intros Hg. cbn. rewrite Hg. reflexivity. Qed.

Lemma py_range_nonpos (n : Z) : n <= 0 -> py_range n = [].
Proof.
  intros Hn. unfold py_range.
  replace (Z.to_nat n) with 0%nat by lia. reflexivity.
Qed.

Lemma py_range_length (n : Z) : 0 <= n -> len (py_range n) = n.
Proof.
  intros Hn. unfold len, py_range. rewrite length_map, length_seq. lia.
Qed.

Lemma py_range_elem (n i : Z) : i ∈ py_range n <-> 0 <= i < n.
Proof.
  unfold py_range. rewrite list_elem_of_fmap. split.
  - intros (k & -> & Hk). apply elem_of_seq in Hk. lia.
  - intros Hi. exists (Z.to_nat i). split; [lia|].
    apply elem_of_seq. lia.
Qed.

Lemma seq_sorted (a k : nat) : StronglySorted Z.lt (map Z.of_nat (seq a k)).
Proof.
  revert a. induction k as [|k IH]; intros a; cbn; constructor.
  - apply IH.
  - apply Forall_forall. intros x Hx.
    apply list_elem_of_fmap in Hx as (j & -> & Hj).
    apply elem_of_seq in Hj. lia.
Qed.

Lemma py_range_sorted (n : Z) : StronglySorted Z.lt (py_range n).
Proof. apply seq_sorted. Qed.

Lemma sublist_sorted {A} (R : A -> A -> Prop) (l1 l2 : list A) :
  l1 `sublist_of` l2 -> StronglySorted R l2 -> StronglySorted R l1.
Proof.
  induction 1 as [|x l1 l2 Hs IH|x l1 l2 Hs IH]; intros Hsort.
  - constructor.
  - apply StronglySorted_inv in Hsort as [Hs2 Hall]. constructor; [by apply IH|].
    eapply Forall_forall. intros y Hy.
    eapply Forall_forall in Hall; [exact Hall|]. by eapply elem_of_sublist.
  - apply StronglySorted_inv in Hsort as [Hs2 _]. by apply IH.
Qed.

Lemma sorted_lt_NoDup (l : list Z) : StronglySorted Z.lt l -> NoDup l.
Proof.
  induction 1 as [|x l Hs IH Hall]; constructor; [|done].
  intros Hx. eapply Forall_forall in Hall; [|exact Hx]. lia.
Qed.

Lemma filterM_sublist {A} (p : A -> res bool) (l r : list A) :
  filterM p l = Ok r -> r `sublist_of` l.
Proof.
  revert r. induction l as [|x l IH]; intros r; cbn.
  - intros [= <-]. constructor.
  - destruct (p x) as [b|e]; cbn; [|discriminate].
    destruct (filterM p l) as [r'|e]; cbn; [|discriminate].
    intros [= <-]. destruct b.
    + constructor. by apply IH.
    + constructor. by apply IH.
Qed.

(** The lines of the fallback of [_parse_list]: the non-blank lines of the
    raw text, each stripped of its bullet markers. *)
Definition bullet_lines (raw : str) : list str :=
  map (strip_chars bullet_chars)
      (filter (fun l => strip l ≠ []) (splitlines raw)).

Definition line_fallback (raw : str) (n : Z) : list json :=
  map JStr (slice_to (bullet_lines raw ++ seq_mul [[]] n) n).

Lemma seq_mul_singleton {A} (x : A) (n : Z) :
  seq_mul [x] n = replicate (Z.to_nat n) x.
Proof.
  unfold seq_mul. induction (Z.to_nat n) as [|k IH]; [reflexivity|].
  cbn. by rewrite IH.
Qed.

(** Padding or truncating to [n] entries. *)
Lemma line_fallback_pad (raw : str) (n : Z) :
  0 <= n ->
  line_fallback raw n =
    map JStr (take (Z.to_nat n) (bullet_lines raw)
              ++ replicate (Z.to_nat n - length (bullet_lines raw)) []).
Proof.
  intros Hn. unfold line_fallback, slice_to.
  destruct (Z.ltb_spec n 0) as [?|_]; [lia|].
  rewrite seq_mul_singleton, take_app. f_equal. f_equal.
  rewrite take_replicate. f_equal. lia.
Qed.

Lemma line_fallback_length (raw : str) (n : Z) :
  0 <= n -> len (line_fallback raw n) = n.
Proof.
  intros Hn. rewrite line_fallback_pad by done. unfold len.
  rewrite length_map, length_app, length_take, length_replicate. lia.
Qed.

(** The entries read from a parsed object. *)
Definition object_entries (d : list (str * json)) (prefix : str) (n : Z)
    : list json :=
  map (fun i => dict_get d (numbered_key prefix i) (JStr [])) (py_range n).

Lemma parse_list_object (raw : str) (n : Z) (prefix : str) d :
  _robust_json raw = Ok (JDict d) ->
  _parse_list raw n prefix = Ok (object_entries d prefix n).
Proof.
  intros Hj. unfold _parse_list. rewrite Hj. cbn [mbind res_bind].
  erewrite mapM_res_ok; [reflexivity|]. intros i _. reflexivity.
Qed.

Lemma parse_list_raise (raw : str) (n : Z) (prefix : str) e :
  _robust_json raw = Raise e ->
  _parse_list raw n prefix = Ok (line_fallback raw n).
Proof. intros Hj. unfold _parse_list. rewrite Hj. reflexivity. Qed.

Definition is_dict (v : json) : bool :=
  match v with
  | JDict _ => true
  | _ => false
  end.

Lemma parse_list_not_object (raw : str) (n : Z) (prefix : str) v :
  _robust_json raw = Ok v -> is_dict v = false -> 0 <= n ->
  _parse_list raw n prefix = Ok (line_fallback raw n).
Proof.
  intros Hj Hv Hn. unfold _parse_list. rewrite Hj. cbn [mbind res_bind].
  destruct (decide (n = 0)) as [->|Hn0].
  - reflexivity.
  - unfold py_range. destruct (Z.to_nat n) as [|k] eqn:Hk; [lia|].
    cbn [seq map]. erewrite mapM_res_raise; [reflexivity|].
    destruct v; try reflexivity. discriminate.
Qed.

(** What [_parse_list] returns, by the outcome of the best-effort JSON
    extraction. *)
Definition parse_list_result (raw : str) (n : Z) (prefix : str) : list json :=
  match _robust_json raw with
  | Ok (JDict d) => object_entries d prefix n
  | _ => line_fallback raw n
  end.

Lemma parse_list_never_raises (raw : str) (n : Z) (prefix : str) :
  exists l, _parse_list raw n prefix = Ok l.
Proof.
  unfold _parse_list.
  destruct (_ ← _robust_json raw; _) as [l|e]; cbn; eauto.
Qed.

Lemma parse_list_eq (raw : str) (n : Z) (prefix : str) :
  0 <= n -> _parse_list raw n prefix = Ok (parse_list_result raw n prefix).
Proof.
  intros Hn. unfold parse_list_result.
  destruct (_robust_json raw) as [v|e] eqn:Hj.
  - destruct (is_dict v) eqn:Hd.
    + destruct v; try discriminate. by apply parse_list_object.
    + rewrite (parse_list_not_object raw n prefix v) by done.
      destruct v; try reflexivity. discriminate.
  - by eapply parse_list_raise.
Qed.

Lemma parse_list_result_length (raw : str) (n : Z) (prefix : str) :
  0 <= n -> len (parse_list_result raw n prefix) = n.
Proof.
  intros Hn. unfold parse_list_result.
  destruct (_robust_json raw) as [[]|]; try by apply line_fallback_length.
  unfold object_entries, len. rewrite length_map. by apply py_range_length.
Qed.

(** The test of the comprehension in [_extract_kept_answers] on an object:
    whether it raises (a value that is no string), and what it answers. *)
Definition answer_key (i : Z) : str := numbered_key (lit "answer") i.

Definition strippable (d : list (str * json)) (i : Z) : bool :=
  match dict_lookup d (answer_key i) with
  | Some (JStr _) | None => true
  | Some _ => false
  end.

Definition kept_by (d : list (str * json)) (i : Z) : bool :=
  match dict_lookup d (answer_key i) with
  | Some (JStr s) => bool_decide (strip s ≠ [])
  | _ => false
  end.

Definition kept_test (data : json) (i : Z) : res bool :=
  v ← json_get data (answer_key i) (JStr []);
  s ← json_strip v;
  Ok (bool_decide (s ≠ [])).

Lemma kept_test_object d i :
  kept_test (JDict d) i =
    if strippable d i then Ok (kept_by d i) else Raise AttributeError.
Proof.
  unfold kept_test, strippable, kept_by, json_get, dict_get.
  destruct (dict_lookup d (answer_key i)) as [[]|]; reflexivity.
Qed.

Lemma filterM_kept_ok d (l : list Z) :
  forallb (strippable d) l = true ->
  filterM (kept_test (JDict d)) l = Ok (List.filter (kept_by d) l).
Proof.
  induction l as [|i l IH]; cbn [forallb filterM List.filter]; [done|].
  intros [Hi Hl]%andb_prop. rewrite kept_test_object, Hi. cbn.
  rewrite (IH Hl). cbn. by destruct (kept_by d i).
Qed.

Lemma filterM_kept_raise d (l : list Z) :
  forallb (strippable d) l = false ->
  exists e, filterM (kept_test (JDict d)) l = Raise e.
Proof.
  induction l as [|i l IH]; cbn [forallb filterM]; [done|].
  rewrite kept_test_object. destruct (strippable d i); cbn.
  - intros Hl. destruct (IH Hl) as [e ->]. cbn. eauto.
  - eauto.
Qed.

Lemma filterM_not_object v (i : Z) (l : list Z) :
  is_dict v = false -> filterM (kept_test v) (i :: l) = Raise AttributeError.
Proof. intros Hv. destruct v; try reflexivity. discriminate. Qed.

(** What [_extract_kept_answers] returns, by the outcome of the
    best-effort JSON extraction. *)
Definition kept_result (raw : str) (n : Z) : list Z :=
  match _robust_json raw with
  | Ok (JDict d) =>
      if forallb (strippable d) (py_range n)
      then List.filter (kept_by d) (py_range n)
      else py_range n
  | _ => py_range n
  end.

Lemma extract_kept_eq (raw : str) (n : Z) :
  _extract_kept_answers raw n = Ok (kept_result raw n).
Proof.
  change (_extract_kept_answers raw n) with
    (try_except (data ← _robust_json raw; filterM (kept_test data) (py_range n))
                (fun _ => Ok (py_range n))).
  unfold kept_result.
  destruct (_robust_json raw) as [v|e] eqn:Hj; cbn [mbind res_bind try_except];
    [|reflexivity].
  destruct (is_dict v) eqn:Hd.
  - destruct v; try discriminate.
    destruct (forallb (strippable d) (py_range n)) eqn:Hall.
    + rewrite filterM_kept_ok by done. reflexivity.
    + destruct (filterM_kept_raise d _ Hall) as [e ->]. reflexivity.
  - assert (filterM (kept_test v) (py_range n) = Ok [] /\ py_range n = []
            \/ filterM (kept_test v) (py_range n) = Raise AttributeError) as Hcase.
    { destruct (py_range n) as [|i l]; [left; done|right].
      by apply filterM_not_object. }
    destruct Hcase as [[-> Hr]| ->]; cbn; destruct v; try discriminate;
      by rewrite ?Hr.
Qed.

Lemma filter_sublist {A} (p : A -> bool) (l : list A) :
  List.filter p l `sublist_of` l.
Proof.
  induction l as [|x l IH]; cbn; [constructor|].
  destruct (p x); by constructor.
Qed.

Lemma kept_result_sublist (raw : str) (n : Z) :
  kept_result raw n `sublist_of` py_range n.
Proof.
  unfold kept_result.
  destruct (_robust_json raw) as [[]|]; try reflexivity.
  destruct (forallb _ _); [apply filter_sublist | reflexivity].
Qed.

End QAExpandFacts.

(** C6, as stated, fails: a valid JSON object whose text holds a code
    fence is cut at the fence by [_robust_json], so its values are not
    extracted; the raw line comes back instead. *)
Lemma parse_list_fenced_object_counterexample :
  let raw := dq "{'answer1': 'a ``` b'}" in
  let d := [(lit "answer1", JStr (lit "a ``` b"))] in
  Json.loads raw = Ok (JDict d)
  /\ QAExpand._parse_list raw 1 (lit "answer") = Ok [JStr raw]
  /\ QAExpand._parse_list raw 1 (lit "answer")
       ≠ Ok (object_entries d (lit "answer") 1).
Proof.
  vm_compute. split; [reflexivity|]. split; [reflexivity|]. discriminate.
Qed.

(** C6, amended. [_parse_list] never raises, for any raw text and any
    [n]. For [n >= 0] it returns exactly [n] entries: when the best-effort
    extraction [_robust_json] (trim, keep what follows the first code
    fence up to the next one, drop a leading [json], trim, decode) yields
    a JSON object, the values of the keys [prefix1..prefixN] in order, an
    empty string for a missing key; in every other case (the decoding
    fails, or yields something that is no object) the non-blank lines of
    the raw text with their bullet markers stripped, padded with empty
    strings or truncated to [n]. *)
Theorem parse_list_policy (raw : str) (n : Z) (prefix : str) :
  (exists l, QAExpand._parse_list raw n prefix = Ok l)
  /\ (0 <= n ->
      exists l, QAExpand._parse_list raw n prefix = Ok l
        /\ len l = n
        /\ (forall d, QAExpand._robust_json raw = Ok (JDict d) ->
              l = object_entries d prefix n)
        /\ ((forall d, QAExpand._robust_json raw ≠ Ok (JDict d)) ->
              l = map JStr (take (Z.to_nat n) (bullet_lines raw)
                            ++ replicate (Z.to_nat n - length (bullet_lines raw)) []))).
Proof.
  split; [apply parse_list_never_raises|].
  intros Hn. exists (parse_list_result raw n prefix).
  split; [by apply parse_list_eq|].
  split; [by apply parse_list_result_length|].
  unfold parse_list_result. split.
  - intros d ->. reflexivity.
  - intros Hno. rewrite <- line_fallback_pad by done.
    destruct (QAExpand._robust_json raw) as [[]|]; try reflexivity.
    by destruct (Hno d).
Qed.

Lemma parse_list_policy_witness :
  0 <= 2 /\
  exists l, QAExpand._parse_list (lit "- x" ++ [ch_lf] ++ lit "- y") 2 (lit "answer") = Ok l
    /\ len l = 2.
Proof.
  split; [lia|].
  destruct (proj2 (parse_list_policy (lit "- x" ++ [ch_lf] ++ lit "- y") 2
                     (lit "answer")) ltac:(lia)) as (l & Hl & Hlen & _).
  exists l. split; [exact Hl | exact Hlen].
Defined.

(** The examples of the specification. *)
Example parse_list_object_example :
  QAExpand._parse_list (dq "{'answer1': 'x', 'answer2': 'y'}") 2 (lit "answer")
    = Ok [JStr (lit "x"); JStr (lit "y")].
Proof. vm_compute. reflexivity. Qed.

Example parse_list_bullets_example :
  QAExpand._parse_list (lit "- x" ++ [ch_lf] ++ lit "- y") 2 (lit "answer")
    = Ok [JStr (lit "x"); JStr (lit "y")].
Proof. vm_compute. reflexivity. Qed.

Example parse_list_garbage_example :
  QAExpand._parse_list [] 3 (lit "answer") = Ok [JStr []; JStr []; JStr []].
Proof. vm_compute. reflexivity. Qed.

Example parse_list_fenced_example :
  QAExpand._parse_list
    (lit "```json" ++ [ch_lf] ++ dq "{'question1': 'x'}" ++ [ch_lf] ++ lit "```")
    2 (lit "question")
  = Ok [JStr (lit "x"); JStr []].
Proof. vm_compute. reflexivity. Qed.

(** The reading of C9 for a parsed object: an index is kept when its key
    is present with a value other than the empty string. *)
Definition present_nonempty (d : list (str * json)) (i : Z) : bool :=
  match dict_lookup d (answer_key i) with
  | Some (JStr []) | None => false
  | Some _ => true
  end.

(** C9, as stated, fails twice when parsing succeeds. A value that is no
    string makes [.strip()] raise inside the [try], and every index is
    kept, also one whose key is absent. A string of white space only is
    present and non-empty, and is not kept. *)
Lemma extract_kept_counterexample :
  (let raw := dq "{'answer2': 7}" in
   let d := [(lit "answer2", JInt 7)] in
   QAExpand._robust_json raw = Ok (JDict d)
   /\ QAExpand._extract_kept_answers raw 2 = Ok [0; 1]
   /\ List.filter (present_nonempty d) (py_range 2) = [1])
  /\
  (let raw := dq "{'answer1': ' ', 'answer2': 'x'}" in
   let d := [(lit "answer1", JStr (lit " ")); (lit "answer2", JStr (lit "x"))] in
   QAExpand._robust_json raw = Ok (JDict d)
   /\ QAExpand._extract_kept_answers raw 2 = Ok [1]
   /\ List.filter (present_nonempty d) (py_range 2) = [0; 1]).
Proof. vm_compute. repeat split. Qed.

(** C9, amended. When the best-effort extraction raises, all indices
    [0..n-1] are kept, and so they are when it yields a value that is no
    object, or an object in which one of the keys [answer1..answerN]
    holds a value that is no string (the [try] block fails open on any
    exception). When it yields an object whose values under these keys
    are all strings, exactly the indices whose key is present with a value
    that is non-empty after stripping white space are kept. *)
Theorem extract_kept_answers_policy (raw : str) (n : Z) :
  (forall e, QAExpand._robust_json raw = Raise e ->
     QAExpand._extract_kept_answers raw n = Ok (py_range n))
  /\ (forall v, QAExpand._robust_json raw = Ok v -> is_dict v = false ->
        QAExpand._extract_kept_answers raw n = Ok (py_range n))
  /\ (forall d, QAExpand._robust_json raw = Ok (JDict d) ->
        forallb (strippable d) (py_range n) = false ->
        QAExpand._extract_kept_answers raw n = Ok (py_range n))
  /\ (forall d, QAExpand._robust_json raw = Ok (JDict d) ->
        forallb (strippable d) (py_range n) = true ->
        QAExpand._extract_kept_answers raw n
          = Ok (List.filter (kept_by d) (py_range n))).
Proof.
  rewrite extract_kept_eq. unfold kept_result. repeat split.
  - intros e ->. reflexivity.
  - intros v -> Hv. destruct v; try reflexivity. discriminate.
  - intros d -> ->. reflexivity.
  - intros d -> ->. reflexivity.
Qed.

Lemma extract_kept_answers_policy_witness :
  QAExpand._extract_kept_answers (lit "no json here") 3 = Ok [0; 1; 2]
  /\ QAExpand._extract_kept_answers
       (dq "{'answer1': 'yes', 'answer3': ''}") 3 = Ok [0].
Proof.
  split.
  - exact (proj1 (extract_kept_answers_policy (lit "no json here") 3)
             JSONDecodeError eq_refl).
  - exact (proj2 (proj2 (proj2 (extract_kept_answers_policy
             (dq "{'answer1': 'yes', 'answer3': ''}") 3)))
             [(lit "answer1", JStr (lit "yes")); (lit "answer3", JStr [])]
             eq_refl eq_refl).
Defined.

Lemma filter_Forall_id {A} (P : A -> Prop) `{forall x, Decision (P x)} (l : list A) :
  Forall P l -> filter P l = l.
Proof.
  induction 1 as [|x l Hx Hl IH]; [reflexivity|].
  rewrite filter_cons_True by done. by rewrite IH.
Qed.

Lemma py_index_in_range {A} (l : list A) (i : Z) :
  0 <= i < len l -> exists a, Methods.py_index l i = Ok a.
Proof.
  unfold len. intros Hi. unfold Methods.py_index.
  destruct (Z.ltb_spec i 0) as [?|_]; [lia|].
  destruct (Z.ltb_spec i 0) as [?|_]; [lia|].
  destruct (lookup_lt_is_Some_2 l (Z.to_nat i)) as [a Ha]; [lia|].
  rewrite Ha. eauto.
Qed.

(** C10. For every raw text and every [n >= 0], the indices kept by
    [_extract_kept_answers] are strictly increasing, without duplicates
    and within [0..n-1], and [_parse_list] returns exactly [n] answers; so
    the guard [i < len(answers)] of the selection removes no index and
    every [answers[i]] is in range. *)
Theorem kept_indices_within_answers (raw_ans raw_ref : str) (n : Z) (prefix : str) :
  0 <= n ->
  exists answers kept,
    QAExpand._parse_list raw_ans n prefix = Ok answers
    /\ len answers = n
    /\ QAExpand._extract_kept_answers raw_ref n = Ok kept
    /\ StronglySorted Z.lt kept
    /\ NoDup kept
    /\ Forall (fun i => 0 <= i < n) kept
    /\ filter (fun i => i < len answers) kept = kept
    /\ Forall (fun i => exists a, Methods.py_index answers i = Ok a) kept.
Proof.
  intros Hn.
  exists (parse_list_result raw_ans n prefix), (kept_result raw_ref n).
  pose proof (parse_list_result_length raw_ans n prefix Hn) as Hlen.
  pose proof (kept_result_sublist raw_ref n) as Hsub.
  assert (StronglySorted Z.lt (kept_result raw_ref n)) as Hsort
    by (eapply sublist_sorted; [exact Hsub | apply py_range_sorted]).
  assert (Forall (fun i => 0 <= i < n) (kept_result raw_ref n)) as Hin.
  { apply Forall_forall. intros i Hi. apply py_range_elem.
    by eapply elem_of_sublist. }
  split; [by apply parse_list_eq|]. split; [exact Hlen|].
  split; [apply extract_kept_eq|]. split; [exact Hsort|].
  split; [by apply sorted_lt_NoDup|]. split; [exact Hin|]. split.
  - apply filter_Forall_id. eapply Forall_impl; [exact Hin|].
    intros i Hi. cbv beta in Hi. rewrite Hlen. lia.
  - eapply Forall_impl; [exact Hin|].
    intros i Hi. cbv beta in Hi. apply py_index_in_range. rewrite Hlen. lia.
Qed.

Lemma kept_indices_within_answers_witness :
  0 <= 2 /\
  exists answers kept,
    QAExpand._parse_list (dq "{'answer1': 'x', 'answer2': 'y'}") 2 (lit "answer")
      = Ok answers
    /\ QAExpand._extract_kept_answers (dq "{'answer2': 'keep'}") 2 = Ok kept
    /\ filter (fun i => i < len answers) kept = kept.
Proof.
  split; [lia|].
  destruct (kept_indices_within_answers
              (dq "{'answer1': 'x', 'answer2': 'y'}")
              (dq "{'answer2': 'keep'}") 2 (lit "answer") ltac:(lia))
    as (answers & kept & Ha & _ & Hk & _ & _ & _ & Hf & _).
  exists answers, kept. split; [exact Ha|]. split; [exact Hk | exact Hf].
Defined.

(** ** The strategies *)

Section MethodFacts.
Context {W : Type}.
#[local] Existing Instance Methods.M_ret.
#[local] Existing Instance Methods.M_bind.
Variable chat_create : str -> list (str * str) -> Z -> W -> res (list str) * W.
Variable str_format : str -> list (str * json) -> res str.
Variable json_dumps : json -> str.
Variable str_lower : str -> str.
Variable int_other : json -> res Z.
Variable str_other : json -> str.

Lemma M_bind_ok_inv {A B} (c : Methods.M (W:=W) A) (k : A -> Methods.M B) w b w' :
  mbind (M:=Methods.M) k c w = (Ok b, w') ->
  exists a w1, c w = (Ok a, w1) /\ k a w1 = (Ok b, w').
Proof.
  unfold mbind, Methods.M_bind. destruct (c w) as [[a|e] w1]; [eauto|].
  intros [=].
Qed.

Lemma M_ret_ok_inv {A} (a b : A) (w w' : W) :
  mret (M:=Methods.M) a w = (Ok b, w') -> a = b /\ w = w'.
Proof. unfold mret, Methods.M_ret. by intros [= -> ->]. Qed.

Lemma M_lift_ok_inv {A} (r : res A) (b : A) (w w' : W) :
  Methods.lift r w = (Ok b, w') -> r = Ok b /\ w = w'.
Proof. unfold Methods.lift. by intros [= -> ->]. Qed.

(** Peel the binds of a run that returned. *)
Ltac inv_run H :=
  repeat match type of H with
         | mbind _ _ _ = (Ok _, _) =>
             let a := fresh "a" in
             let w := fresh "w" in
             let Hc := fresh "Hc" in
             apply M_bind_ok_inv in H as (a & w & Hc & H)
         | (let x := _ in _) _ = (Ok _, _) => cbv zeta in H
         end;
  try (apply M_ret_ok_inv in H as [<- <-]).

(** Every class of the registry has a name, and the registry holds
    nothing else. *)
Lemma registry_complete (c : method) :
  exists name, METHOD_REGISTRY !! name = Some c.
Proof.
  destruct c;
    [ exists (lit "genqr") | exists (lit "genqr_ensemble") | exists (lit "q2k")
    | exists (lit "q2d_zs") | exists (lit "q2d_fs") | exists (lit "q2d_cot")
    | exists (lit "qa_expand") | exists (lit "mugi") | exists (lit "csqe")
    | exists (lit "lamer") ]; vm_compute; reflexivity.
Qed.

(** C4. For every strategy of the registry and every input query, the
    record [reformulate_query] returns has the [qid] of the input query
    and, as [original], its [text], unmodified. *)
Theorem reformulate_query_keeps_identity (name : str) (c : method)
    (self : instance) (query : Query.t) (contexts : option (list str))
    (w w' : W) (rq : ReformulatedQuery.t) :
  get_method name = Ok c ->
  Methods.reformulate_query chat_create str_format json_dumps str_lower
    int_other str_other c self query contexts w = (Ok rq, w') ->
  ReformulatedQuery.qid rq = Query.qid query
  /\ ReformulatedQuery.original rq = Query.text query.
Proof.
  intros _ Hrun.
  destruct c; cbn [Methods.reformulate_query] in Hrun;
    unfold Methods.genqr, Methods.genqr_ensemble, Methods.q2k, Methods.q2d,
      Methods.qa_expand, Methods.mugi, Methods.csqe, Methods.lamer in Hrun;
    inv_run Hrun; split; reflexivity.
Qed.

(** C5, amended. The single-call keyword strategy composes its output
    with [concat_repeat]: the query repeated [query_repeats] times (5 when
    the parameter is not set), followed by the one completion, the whole
    normalised by [_clean]. The completion is also the [keywords] entry of
    the metadata. *)
Theorem q2k_repeats_query (self : instance) (query : Query.t)
    (contexts : option (list str)) (w w' : W) (rq : ReformulatedQuery.t) :
  Methods.q2k chat_create str_format int_other self query contexts w = (Ok rq, w') ->
  exists (query_repeats : Z) (msgs : list (str * str)) (keywords : str),
    Methods.py_int int_other
      (default (JInt 5) (params self !! lit "query_repeats")) = Ok query_repeats
    /\ (params self !! lit "query_repeats" = None -> query_repeats = 5)
    /\ Methods.render str_format (prompts self) (lit "q2k")
         [(lit "query", JStr (Query.text query))] = Ok msgs
    /\ Methods.generate_one chat_create (llm self) msgs w = (Ok keywords, w')
    /\ ReformulatedQuery.reformulated rq
         = Base.concat_repeat (Query.text query) keywords query_repeats
    /\ ReformulatedQuery.metadata rq = [(lit "keywords", JStr keywords)].
Proof.
  intros Hrun. unfold Methods.q2k in Hrun. inv_run Hrun.
  unfold Methods.param_int in Hc. apply M_lift_ok_inv in Hc as [Hint <-].
  apply M_lift_ok_inv in Hc0 as [Hrender <-].
  exists a, a0, a1. split; [exact Hint|]. split.
  { intros Hnone. rewrite Hnone in Hint. cbn in Hint. congruence. }
  split; [exact Hrender|]. split; [exact Hc1|]. split; reflexivity.
Qed.

End MethodFacts.

Lemma reformulate_query_keeps_identity_witness :
  exists rq w',
    Example.reformulate QAExpandM Example.q1 0%nat = (Ok rq, w')
    /\ ReformulatedQuery.qid rq = lit "q1"
    /\ ReformulatedQuery.original rq = lit "climate change".
Proof.
  destruct (Example.reformulate QAExpandM Example.q1 0%nat) as [[rq|e] w'] eqn:Hrun;
    [|vm_compute in Hrun; discriminate].
  exists rq, w'. split; [reflexivity|].
  exact (reformulate_query_keeps_identity
           Example.chat_create Example.str_format Example.json_dumps
           Example.str_lower Example.int_other Example.str_other
           (lit "qa_expand") QAExpandM Example.self
           Example.q1 None 0%nat w' rq eq_refl Hrun).
Defined.

(** C5, as stated, fails: with the default parameters the query comes
    five times before the completion, not once (the end-to-end scenario of
    the specification). *)
Lemma q2k_append_once_counterexample :
  exists rq w',
    Example.reformulate Query2Keyword Example.q1 0%nat = (Ok rq, w')
    /\ ReformulatedQuery.reformulated rq
       = lit "climate change climate change climate change climate change climate change warming, emissions"
    /\ ReformulatedQuery.reformulated rq
       ≠ Base.concat_repeat (lit "climate change") (lit "warming, emissions") 1
    /\ ReformulatedQuery.reformulated rq
       ≠ lit "climate change warming, emissions".
Proof.
  eexists _, _. split; [vm_compute; reflexivity|].
  vm_compute. split; [reflexivity|]. split; discriminate.
Qed.

Lemma q2k_repeats_query_witness :
  exists rq w',
    Example.reformulate Query2Keyword Example.q2 0%nat = (Ok rq, w')
    /\ ReformulatedQuery.reformulated rq
       = Base.concat_repeat (lit "solar panels") (lit "photovoltaic, energy") 5.
Proof.
  destruct (Example.reformulate Query2Keyword Example.q2 0%nat) as [[rq|e] w'] eqn:Hrun;
    [|vm_compute in Hrun; discriminate].
  exists rq, w'. split; [reflexivity|].
  destruct (q2k_repeats_query Example.chat_create Example.str_format
              Example.int_other Example.self Example.q2 None 0%nat w' rq Hrun)
    as (r & msgs & kw & Hint & Hdef & Hrender & Hgen & Href & _).
  rewrite Href, (Hdef eq_refl).
  vm_compute in Hrender. injection Hrender as <-.
  vm_compute in Hgen. injection Hgen as <- _. reflexivity.
Defined.

(** ** Evaluation and the pipeline *)

Section PipelineFacts.
Context {W F : Type}.
Variable subprocess_run : list str -> W -> res completed * W.
Variable mkdir : str -> W -> res unit * W.
Variable path_exists : str -> W -> bool.
Variable nan : F.
Variable py_float : str -> option F.

#[local] Existing Instance Pipeline.M_ret.
#[local] Existing Instance Pipeline.M_bind.

Local Abbreviation retrieval_call :=
  (Pipeline.retrieval_call subprocess_run mkdir).
Local Abbreviation retrieve_one :=
  (Pipeline.retrieve_one subprocess_run mkdir path_exists).
Local Abbreviation evaluation_call :=
  (Pipeline.evaluation_call subprocess_run nan py_float).
Local Abbreviation evaluate_one :=
  (Pipeline.evaluate_one subprocess_run path_exists nan py_float).
Local Abbreviation evaluate_metric :=
  (Pipeline.evaluate_metric subprocess_run nan py_float).
Local Abbreviation retrieve_and_evaluate :=
  (Pipeline.retrieve_and_evaluate subprocess_run mkdir path_exists nan py_float).

Lemma retrieve_one_cached ret_cfg c ret (s : W * list event) :
  path_exists (Pipeline.run_file_of c ret) s.1 = true ->
  retrieve_one ret_cfg c ret s
    = (Ok (), (s.1, s.2 ++ [EvCached (Pipeline.run_file_of c ret)])).
Proof.
  intros Hex. unfold Pipeline.retrieve_one, mbind, Pipeline.M_bind, Pipeline.exists_.
  rewrite Hex. reflexivity.
Qed.

Lemma retrieve_one_raise ret_cfg c ret (s s' : W * list event) e :
  path_exists (Pipeline.run_file_of c ret) s.1 = false ->
  retrieval_call ret_cfg c ret s = (Raise e, s') ->
  retrieve_one ret_cfg c ret s = (Ok (), (s'.1, s'.2 ++ [EvRetrievalError ret e])).
Proof.
  intros Hex Hcall.
  unfold Pipeline.retrieve_one, mbind, Pipeline.M_bind, Pipeline.exists_,
    Pipeline.try_catch.
  rewrite Hex, Hcall. reflexivity.
Qed.

Lemma retrieve_one_return ret_cfg c ret (s s' : W * list event) out :
  path_exists (Pipeline.run_file_of c ret) s.1 = false ->
  retrieval_call ret_cfg c ret s = (Ok out, s') ->
  retrieve_one ret_cfg c ret s = (Ok (), s').
Proof.
  intros Hex Hcall.
  unfold Pipeline.retrieve_one, mbind, Pipeline.M_bind, Pipeline.exists_,
    Pipeline.try_catch.
  rewrite Hex, Hcall. reflexivity.
Qed.

(** Step 2 raises nothing, whatever the retrieval does. *)
Lemma retrieve_one_total ret_cfg c ret (s : W * list event) :
  exists s', retrieve_one ret_cfg c ret s = (Ok (), s').
Proof.
  destruct (path_exists (Pipeline.run_file_of c ret) s.1) eqn:Hex.
  - rewrite retrieve_one_cached by done. eauto.
  - destruct (retrieval_call ret_cfg c ret s) as [[out|e] s'] eqn:Hcall.
    + erewrite retrieve_one_return by done. eauto.
    + erewrite retrieve_one_raise by done. eauto.
Qed.

Lemma evaluate_one_absent qr c all ret (s : W * list event) :
  path_exists (Pipeline.run_file_of c ret) s.1 = false ->
  evaluate_one qr c all ret s = (Ok all, s).
Proof.
  intros Hex. unfold Pipeline.evaluate_one, mbind, Pipeline.M_bind, Pipeline.exists_.
  rewrite Hex. reflexivity.
Qed.

Lemma evaluate_one_return qr c all ret (s s' : W * list event) metrics :
  path_exists (Pipeline.run_file_of c ret) s.1 = true ->
  evaluation_call qr c ret s = (Ok metrics, s') ->
  evaluate_one qr c all ret s
    = (Ok (<[Pipeline.result_key c ret := metrics]> all),
       (s'.1, s'.2 ++ [EvEvaluated ret])).
Proof.
  intros Hex Hcall.
  unfold Pipeline.evaluate_one, mbind, Pipeline.M_bind, Pipeline.exists_,
    Pipeline.try_catch.
  rewrite Hex. cbn [negb]. unfold mbind, Pipeline.M_bind. rewrite Hcall.
  reflexivity.
Qed.

Lemma evaluate_one_raise qr c all ret (s s' : W * list event) e :
  path_exists (Pipeline.run_file_of c ret) s.1 = true ->
  evaluation_call qr c ret s = (Raise e, s') ->
  evaluate_one qr c all ret s = (Ok all, (s'.1, s'.2 ++ [EvEvalError ret e])).
Proof.
  intros Hex Hcall.
  unfold Pipeline.evaluate_one, mbind, Pipeline.M_bind, Pipeline.exists_,
    Pipeline.try_catch.
  rewrite Hex. cbn [negb]. unfold mbind, Pipeline.M_bind. rewrite Hcall.
  reflexivity.
Qed.

(** Step 3 raises nothing, whatever the evaluation does. *)
Lemma evaluate_one_total qr c all ret (s : W * list event) :
  exists all' s', evaluate_one qr c all ret s = (Ok all', s').
Proof.
  destruct (path_exists (Pipeline.run_file_of c ret) s.1) eqn:Hex.
  - destruct (evaluation_call qr c ret s) as [[m|e] s'] eqn:Hcall.
    + erewrite evaluate_one_return by done. eauto.
    + erewrite evaluate_one_raise by done. eauto.
  - rewrite evaluate_one_absent by done. eauto.
Qed.

Lemma forM__total ret_cfg c (rets : list str) (s : W * list event) :
  exists s', Pipeline.forM_ rets (retrieve_one ret_cfg c) s = (Ok (), s').
Proof.
  revert s. induction rets as [|r rets IH]; intros s; cbn.
  - eauto.
  - unfold mbind, Pipeline.M_bind.
    destruct (retrieve_one_total ret_cfg c r s) as [s1 ->]. apply IH.
Qed.

Lemma foldM_total qr c (rets : list str) all (s : W * list event) :
  exists all' s', Pipeline.foldM (evaluate_one qr c) all rets s = (Ok all', s').
Proof.
  revert all s. induction rets as [|r rets IH]; intros all s; cbn.
  - eauto.
  - unfold mbind, Pipeline.M_bind.
    destruct (evaluate_one_total qr c all r s) as (all1 & s1 & ->). apply IH.
Qed.

(** Steps 2 and 3 complete without raising for every list of retrievers,
    whatever the collaborators do. *)
Lemma retrieve_and_evaluate_total ret_cfg qr c rets all (s : W * list event) :
  exists all' s', retrieve_and_evaluate ret_cfg qr c rets all s = (Ok all', s').
Proof.
  unfold Pipeline.retrieve_and_evaluate, mbind, Pipeline.M_bind.
  destruct (forM__total ret_cfg c rets s) as [s1 ->].
  apply foldM_total.
Qed.

Lemma result_key_inj c (r1 r2 : str) :
  Pipeline.result_key c r1 = Pipeline.result_key c r2 -> r1 = r2.
Proof.
  unfold Pipeline.result_key. intros H.
  repeat apply app_inv_head in H. exact H.
Qed.

(** The pipeline only ever adds lines to what it has printed. *)
Definition log_grows {A} (c : Pipeline.M (W:=W) A) : Prop :=
  forall s r s', c s = (r, s') -> s.2 `prefix_of` s'.2.

Lemma grows_ret {A} (a : A) : log_grows (mret a).
Proof. intros s r s' [= _ <-]. reflexivity. Qed.

Lemma grows_lift {A} (r : res A) : log_grows (Pipeline.lift r).
Proof. intros s r' s' [= _ <-]. reflexivity. Qed.

Lemma grows_print (ev : event) : log_grows (Pipeline.print ev).
Proof. intros s r s' [= _ <-]. cbn. by apply prefix_app_r. Qed.

Lemma grows_run cmd : log_grows (Pipeline.run subprocess_run cmd).
Proof.
  intros s r s'. unfold Pipeline.run.
  destruct (subprocess_run cmd s.1) as [r0 w]. intros [= _ <-]. reflexivity.
Qed.

Lemma grows_make_dirs path : log_grows (Pipeline.make_dirs mkdir path).
Proof.
  intros s r s'. unfold Pipeline.make_dirs.
  destruct (mkdir path s.1) as [r0 w]. intros [= _ <-]. reflexivity.
Qed.

Lemma grows_exists path : log_grows (Pipeline.exists_ path_exists path).
Proof. intros s r s' [= _ <-]. reflexivity. Qed.

Lemma grows_bind {A B} (c : Pipeline.M A) (k : A -> Pipeline.M B) :
  log_grows c -> (forall a, log_grows (k a)) -> log_grows (mbind k c).
Proof.
  intros Hc Hk s r s'. unfold mbind, Pipeline.M_bind.
  destruct (c s) as [[a|e] s1] eqn:Hcs.
  - intros Hks. etrans; [by eapply Hc | by eapply Hk].
  - intros [= _ <-]. by eapply Hc.
Qed.

Lemma grows_try_catch {A} (c : Pipeline.M A) (h : exn -> Pipeline.M A) :
  log_grows c -> (forall e, log_grows (h e)) -> log_grows (Pipeline.try_catch c h).
Proof.
  intros Hc Hh s r s'. unfold Pipeline.try_catch.
  destruct (c s) as [[a|e] s1] eqn:Hcs.
  - intros [= _ <-]. by eapply Hc.
  - intros Hhs. etrans; [by eapply Hc | by eapply Hh].
Qed.

Lemma grows_foldM {A B} (f : B -> A -> Pipeline.M B) (l : list A) (b : B) :
  (forall b a, log_grows (f b a)) -> log_grows (Pipeline.foldM f b l).
Proof.
  intros Hf. revert b. induction l as [|x l IH]; intros b; cbn.
  - apply grows_ret.
  - apply grows_bind; [apply Hf | intros b'; apply IH].
Qed.

Ltac grows :=
  repeat first
    [ apply grows_ret | apply grows_lift | apply grows_print | apply grows_run
    | apply grows_make_dirs | apply grows_exists
    | apply grows_bind; [|intros ?] | apply grows_try_catch; [|intros ?]
    | apply grows_foldM; intros ? ?
    | match goal with |- log_grows (if ?b then _ else _) => destruct b end ].

Lemma grows_evaluate_metric targs qrels run_file results metric :
  log_grows (evaluate_metric targs qrels run_file results metric).
Proof. unfold Pipeline.evaluate_metric. grows. Qed.

Lemma grows_evaluate run_file dataset qrels_path metrics :
  log_grows (Pipeline.evaluate subprocess_run nan py_float run_file dataset
               qrels_path metrics).
Proof.
  unfold Pipeline.evaluate. grows.
Qed.

Lemma grows_run_retrieval q d r o h t b rq qp :
  log_grows (Pipeline.run_retrieval subprocess_run mkdir q d r o h t b rq qp).
Proof. unfold Pipeline.run_retrieval. grows. Qed.

Lemma grows_retrieve_one ret_cfg c ret : log_grows (retrieve_one ret_cfg c ret).
Proof.
  unfold Pipeline.retrieve_one, Pipeline.retrieval_call. grows.
Qed.


(** The exit status decides the first half of C8: a failing evaluator
    leaves not-a-number under the metric. *)
Lemma evaluate_metric_failed targs qrels run_file results metric cmd proc
    (s s' : W * list event) :
  Pipeline.argv
    ((Some <$> [lit "python"; lit "-m"; lit "pyserini.eval.trec_eval"]
        ++ targs
        ++ [lit "-m";
            if contains (lit "_") metric
            then replace_first (lit "_") (lit ".") metric else metric])
     ++ [qrels; Some run_file]) = Ok cmd ->
  Pipeline.run subprocess_run cmd s = (Ok proc, s') ->
  returncode proc ≠ 0 ->
  exists log',
    evaluate_metric targs qrels run_file results metric s
      = (Ok (<[metric := nan]> results), (s'.1, log'))
    /\ (<[metric := nan]> results) !! metric = Some nan.
Proof.
  intros Hcmd Hrun Hrc. eexists. split; [|apply lookup_insert_eq].
  unfold Pipeline.evaluate_metric, mbind, Pipeline.M_bind, Pipeline.lift.
  rewrite Hcmd, Hrun.
  destruct (Z.eqb_spec (returncode proc) 0) as [?|_]; [done|]. reflexivity.
Qed.

(** The second half fails: with exit status 0, the map only changes where
    the output has an aggregate row that reads as a float. *)
Lemma evaluate_metric_succeeded targs qrels run_file results metric cmd proc
    (s s' : W * list event) :
  Pipeline.argv
    ((Some <$> [lit "python"; lit "-m"; lit "pyserini.eval.trec_eval"]
        ++ targs
        ++ [lit "-m";
            if contains (lit "_") metric
            then replace_first (lit "_") (lit ".") metric else metric])
     ++ [qrels; Some run_file]) = Ok cmd ->
  Pipeline.run subprocess_run cmd s = (Ok proc, s') ->
  returncode proc = 0 ->
  evaluate_metric targs qrels run_file results metric s
    = (Ok (Pipeline.scan_output py_float metric (stdout proc) results), s').
Proof.
  intros Hcmd Hrun Hrc.
  unfold Pipeline.evaluate_metric, mbind, Pipeline.M_bind, Pipeline.lift.
  rewrite Hcmd, Hrun, Hrc. reflexivity.
Qed.

Lemma scan_output_empty metric results :
  Pipeline.scan_output py_float metric [] results = results.
Proof. reflexivity. Qed.

End PipelineFacts.



(** C8 on its failing input: the evaluator exits with status 0 and prints
    no aggregate row; [evaluate] returns without raising, and the metric
    is absent from the returned mapping instead of being not-a-number.
    After a non-zero exit the metric is present as not-a-number. *)
Theorem evaluate_unparseable_output_omits_metric :
  (exists results s',
     ExampleRun.evaluate_with ExampleRun.silent_report [lit "ndcg_cut_10"]
       = (Ok results, s')
     /\ results !! lit "ndcg_cut_10" = None)
  /\ (exists results s',
        ExampleRun.evaluate_with ExampleRun.failed_report [lit "ndcg_cut_10"]
          = (Ok results, s')
        /\ results !! lit "ndcg_cut_10" = Some ExampleRun.Nan).
Proof.
  split.
  - destruct (ExampleRun.evaluate_with ExampleRun.silent_report [lit "ndcg_cut_10"])
      as [[results|e] s'] eqn:Hrun; [|vm_compute in Hrun; discriminate].
    exists results, s'. split; [reflexivity|].
    assert (match ExampleRun.evaluate_with ExampleRun.silent_report [lit "ndcg_cut_10"] with
            | (Ok m, _) => m !! lit "ndcg_cut_10" = None
            | _ => False
            end) as Hm by (vm_compute; reflexivity).
    rewrite Hrun in Hm. exact Hm.
  - destruct (ExampleRun.evaluate_with ExampleRun.failed_report [lit "ndcg_cut_10"])
      as [[results|e] s'] eqn:Hrun; [|vm_compute in Hrun; discriminate].
    exists results, s'. split; [reflexivity|].
    assert (match ExampleRun.evaluate_with ExampleRun.failed_report [lit "ndcg_cut_10"] with
            | (Ok m, _) => m !! lit "ndcg_cut_10" = Some ExampleRun.Nan
            | _ => False
            end) as Hm by (vm_compute; reflexivity).
    rewrite Hrun in Hm. exact Hm.
Qed.

(** ** The sentence extractor *)

Section ExtractFacts.
Import Regex CSQE.

(** No match starts at a character that the first class of the pattern
    refuses. *)
Lemma quoted_no_match_here prev pos (s : str) k :
  (forall x t, s = x :: t -> x ≠ ch_dquote) ->
  m quoted_re k (MState prev pos s None) = None.
Proof.
  intros Hs. cbn. destruct s as [|x t]; [reflexivity|].
  destruct (N.eqb_spec x ch_dquote) as [->|_]; [|reflexivity].
  by destruct (Hs _ _ eq_refl).
Qed.

Lemma search_quoted_none prev pos (s : str) :
  Forall (fun x => x ≠ ch_dquote) s -> search quoted_re prev pos s = None.
Proof.
  revert prev pos. induction s as [|x t IH]; intros prev pos Hs.
  - cbn [search]. rewrite quoted_no_match_here; [reflexivity|]. intros ? ? [=].
  - apply Forall_cons in Hs as [Hx Ht]. cbn [search].
    rewrite quoted_no_match_here; [by apply IH|].
    by intros ? ? [= <- <-].
Qed.

Lemma findall_quoted_none (s : str) :
  Forall (fun x => x ≠ ch_dquote) s -> findall quoted_re s = [].
Proof.
  intros Hs. unfold findall. cbn [findall_fuel].
  by rewrite search_quoted_none.
Qed.

Lemma rep_greedy_plus_fail c k prev pos cap (s : str) :
  (forall x t, s = x :: t -> cls_match c x = false) ->
  rep_greedy c 1 None k prev pos cap s = None.
Proof.
  intros Hs. destruct s as [|x t]; [reflexivity|].
  cbn [rep_greedy]. rewrite (Hs _ _ eq_refl). reflexivity.
Qed.

Lemma chunk_no_match_here prev pos (s : str) k :
  (forall x t, s = x :: t -> isdecimal x = false) ->
  m chunk_re k (MState prev pos s None) = None.
Proof.
  intros Hs. unfold chunk_re, marker_re, plus.
  cbn [m m_prev m_pos m_cap m_rest]. by apply rep_greedy_plus_fail.
Qed.

Lemma search_chunk_none prev pos (s : str) :
  Forall (fun x => isdecimal x = false) s -> search chunk_re prev pos s = None.
Proof.
  revert prev pos. induction s as [|x t IH]; intros prev pos Hs.
  - cbn [search]. rewrite chunk_no_match_here; [reflexivity|]. intros ? ? [=].
  - apply Forall_cons in Hs as [Hx Ht]. cbn [search].
    rewrite chunk_no_match_here; [by apply IH|].
    by intros ? ? [= <- <-].
Qed.

Lemma findall_chunk_none (s : str) :
  Forall (fun x => isdecimal x = false) s -> findall chunk_re s = [].
Proof.
  intros Hs. unfold findall. cbn [findall_fuel].
  by rewrite search_chunk_none.
Qed.

(** A substitution by the empty string only removes characters. *)
Lemma sub_fuel_Forall (P : N -> Prop) fuel r prev (s : str) :
  Forall P s -> Forall P (sub_fuel fuel r [] prev s).
Proof.
  revert prev s. induction fuel as [|f IH]; intros prev s Hs; [done|].
  cbn [sub_fuel]. destruct (search r prev 0 s) as [[[i e] cap]|]; [|done].
  destruct (e =? i)%nat.
  - apply Forall_app. split; [by apply Forall_take|]. cbn [app].
    destruct (drop i s) as [|x t] eqn:Hd; [done|].
    assert (Forall P (x :: t)) as Hxt by (rewrite <- Hd; by apply Forall_drop).
    apply Forall_cons in Hxt as [Hx Ht]. constructor; [done|]. by apply IH.
  - apply Forall_app. split; [by apply Forall_take|]. cbn [app].
    apply IH. by apply Forall_drop.
Qed.

Lemma sub_Forall (P : N -> Prop) r (s : str) :
  Forall P s -> Forall P (sub r [] s).
Proof. apply sub_fuel_Forall. Qed.

Lemma extract_neither (text : str) :
  Forall (fun x => x ≠ ch_dquote) text ->
  Forall (fun x => isdecimal x = false) text ->
  _extract_sentences text = [].
Proof.
  intros Hq Hd. unfold _extract_sentences.
  rewrite findall_quoted_none by done.
  rewrite findall_chunk_none by (by apply sub_Forall). reflexivity.
Qed.

(** A greedy quantifier over a run of matching characters that ends at
    a character the class refuses: when the continuation accepts the end
    of the run, that is the match. *)
Definition last_or (prev : option N) (body : str) : option N :=
  match last body with
  | Some y => Some y
  | None => prev
  end.

Lemma last_or_cons prev x (body : str) :
  last_or (Some x) body = last_or prev (x :: body).
Proof.
  unfold last_or. destruct body as [|y body]; [reflexivity|].
  rewrite last_cons_cons.
  destruct (last (y :: body)) eqn:Hl; [reflexivity|].
  by apply last_None in Hl.
Qed.

Lemma rep_greedy_run c lo k prev pos cap (body : str) x (rest : str) r :
  Forall (fun y => cls_match c y = true) body ->
  cls_match c x = false ->
  (lo <= length body)%nat ->
  k (MState (last_or prev body) (pos + length body) (x :: rest) cap) = Some r ->
  rep_greedy c lo None k prev pos cap (body ++ x :: rest) = Some r.
Proof.
  revert lo prev pos. induction body as [|y body IH]; intros lo prev pos Hb Hx Hlo Hk.
  - cbn [app rep_greedy]. rewrite Hx. cbn [andb].
    destruct lo; [|cbn in Hlo; lia].
    cbn in Hk. by rewrite Nat.add_0_r in Hk.
  - apply Forall_cons in Hb as [Hy Hb]. cbn [app rep_greedy].
    rewrite Hy. cbn [andb may_take fmap option_fmap option_map].
    rewrite (IH (pred lo) (Some y) (S pos) Hb Hx); [reflexivity| cbn in Hlo; lia |].
    rewrite last_or_cons with (prev := prev).
    replace (S pos + length body)%nat with (pos + length (y :: body))%nat
      by (cbn; lia).
    exact Hk.
Qed.

Definition unquoted (s : str) : Prop := Forall (fun x => x ≠ ch_dquote) s.

Lemma unquoted_class (body : str) :
  unquoted body ->
  Forall (fun y => cls_match (CNotSet [ch_dquote]) y = true) body.
Proof.
  intros Hb. eapply Forall_impl; [exact Hb|]. intros y Hy. cbn.
  destruct (N.eqb_spec y ch_dquote); [done|reflexivity].
Qed.

(** The pattern of quoted sentences at an opening quote. *)
Lemma quoted_match_here prev pos (body rest : str) :
  unquoted body -> body ≠ [] ->
  m quoted_re Some (MState prev pos (ch_dquote :: body ++ ch_dquote :: rest) None)
    = Some (MState (Some ch_dquote) (S (S pos + length body)) rest
                   (Some (S pos, S pos + length body)%nat)).
Proof.
  intros Hb Hne. unfold quoted_re, plus.
  cbn [m m_prev m_pos m_cap m_rest cls_match]. rewrite N.eqb_refl.
  eapply rep_greedy_run.
  - by apply unquoted_class.
  - reflexivity.
  - destruct body; [done|cbn; lia].
  - cbn [m m_prev m_pos m_cap m_rest cls_match]. rewrite N.eqb_refl. reflexivity.
Qed.

Lemma search_quoted_skip prev pos (pre s : str) :
  unquoted pre ->
  search quoted_re prev pos (pre ++ s)
    = search quoted_re (last_or prev pre) (pos + length pre) s.
Proof.
  revert prev pos. induction pre as [|x pre IH]; intros prev pos Hp.
  - cbn. by rewrite Nat.add_0_r.
  - apply Forall_cons in Hp as [Hx Hp]. cbn [app search].
    rewrite quoted_no_match_here by (by intros ? ? [= <- <-]).
    rewrite IH by done. rewrite last_or_cons with (prev := prev).
    f_equal. cbn. lia.
Qed.

Lemma search_quoted_found prev pos (pre body rest : str) :
  unquoted pre -> unquoted body -> body ≠ [] ->
  search quoted_re prev pos (pre ++ ch_dquote :: body ++ ch_dquote :: rest)
    = Some ((pos + length pre)%nat,
            S (S (pos + length pre) + length body),
            Some (S (pos + length pre), S (pos + length pre) + length body)%nat).
Proof.
  intros Hp Hb Hne. rewrite search_quoted_skip by done.
  cbn [search]. rewrite quoted_match_here by done. reflexivity.
Qed.

(** A text of quoted sentences: before each, a stretch without double
    quote; after the last, a tail without double quote. *)
Fixpoint quoted_text (segs : list (str * str)) (tail : str) : str :=
  match segs with
  | [] => tail
  | (pre, body) :: segs' =>
      pre ++ ch_dquote :: body ++ ch_dquote :: quoted_text segs' tail
  end.

Definition well_quoted (seg : str * str) : Prop :=
  unquoted seg.1 /\ unquoted seg.2 /\ seg.2 ≠ [].

Lemma drop_past {A} (pre : list A) x n (s : list A) :
  drop (S (length pre + n)) (pre ++ x :: s) = drop n s.
Proof. induction pre as [|y pre IH]; [reflexivity|exact IH]. Qed.

Lemma segment_body (pre body rest : str) x :
  substr (pre ++ x :: body ++ rest) (S (length pre)) (S (length pre + length body))
    = body.
Proof.
  unfold substr.
  replace (S (length pre + length body) - S (length pre))%nat
    with (length body) by lia.
  replace (S (length pre)) with (S (length pre + 0)) by lia.
  rewrite drop_past. cbn [drop]. apply take_app_length.
Qed.

Lemma segment_rest (pre body rest : str) x y :
  drop (S (S (length pre + length body))) (pre ++ x :: body ++ y :: rest) = rest.
Proof.
  replace (S (S (length pre + length body)))
    with (S (length pre + S (length body + 0))) by lia.
  rewrite drop_past. by rewrite drop_past.
Qed.

Lemma findall_quoted_segments fuel prev (segs : list (str * str)) (tail : str) :
  Forall well_quoted segs -> unquoted tail ->
  (length (quoted_text segs tail) < fuel)%nat ->
  findall_fuel fuel quoted_re prev (quoted_text segs tail) = map snd segs.
Proof.
  revert fuel prev. induction segs as [|[pre body] segs IH];
    intros fuel prev Hsegs Htail Hfuel.
  - destruct fuel; [cbn in Hfuel; lia|]. cbn [quoted_text findall_fuel map].
    by rewrite search_quoted_none.
  - apply Forall_cons in Hsegs as [(Hp & Hb & Hne) Hsegs]. cbn in Hp, Hb, Hne.
    destruct fuel as [|f]; [lia|].
    cbn [quoted_text findall_fuel map snd].
    rewrite search_quoted_found by done. cbn [Nat.add].
    assert (Hlen : (length (quoted_text segs tail) < f)%nat).
    { cbn [quoted_text] in Hfuel.
      rewrite length_app in Hfuel. cbn [length] in Hfuel.
      rewrite length_app in Hfuel. cbn [length] in Hfuel. lia. }
    rewrite (proj2 (Nat.eqb_neq _ _)) by lia.
    rewrite segment_body, segment_rest. f_equal. by apply IH.
Qed.

Lemma findall_quoted_text (segs : list (str * str)) (tail : str) :
  Forall well_quoted segs -> unquoted tail ->
  findall quoted_re (quoted_text segs tail) = map snd segs.
Proof. intros Hsegs Htail. apply findall_quoted_segments; [done..|lia]. Qed.

Lemma extract_quoted (segs : list (str * str)) (tail : str) :
  Forall well_quoted segs -> unquoted tail -> segs ≠ [] ->
  _extract_sentences (quoted_text segs tail) = join [ch_space] (map snd segs).
Proof.
  intros Hsegs Htail Hne. unfold _extract_sentences.
  rewrite findall_quoted_text by done.
  destruct segs as [|seg segs]; [done|reflexivity].
Qed.

End ExtractFacts.



(** ** The normaliser [_clean] and the repeat primitive *)

Section CleanFacts.
Import Base.

(** *** Strings *)

Lemma startswith_spec (p s : str) :
  startswith p s = true <-> exists t, s = p ++ t.
Proof.
  revert s. induction p as [|a p IH]; intros s; cbn.
  - split; [eauto|done].
  - destruct s as [|b s].
    + split; [done|]. intros [t [=]].
    + rewrite andb_true_iff, IH, N.eqb_eq. split.
      * intros [-> [t ->]]. eauto.
      * intros [t [= -> ->]]. eauto.
Qed.

Lemma contains_spec (sub s : str) :
  contains sub s = true <-> exists a b, s = a ++ sub ++ b.
Proof.
  induction s as [|x s IH]; cbn [contains]; rewrite orb_true_iff, startswith_spec.
  - split.
    + intros [[t Ht]|[=]]. exists [], t. done.
    + intros (a & b & Hab). left.
      destruct a; [by exists b|discriminate].
  - rewrite IH. split.
    + intros [[t Ht]|(a & b & ->)]; [by exists [], t|].
      by exists (x :: a), b.
    + intros ([|y a] & b & Hab); [left; by exists b|].
      injection Hab as -> ->. right. eauto.
Qed.

Lemma contains_false_app (sub a s b : str) :
  contains sub (a ++ s ++ b) = false -> contains sub s = false.
Proof.
  intros Hf. destruct (contains sub s) eqn:Hs; [|done].
  apply contains_spec in Hs as (a' & b' & ->).
  assert (contains sub (a ++ (a' ++ sub ++ b') ++ b) = true) as Ht.
  { apply contains_spec. exists (a ++ a'), (b' ++ b). by rewrite <- !app_assoc. }
  congruence.
Qed.

Lemma lstrip_by_suffix p (s : str) : exists pre, s = pre ++ lstrip_by p s.
Proof.
  induction s as [|x s [pre IH]]; cbn; [by exists []|].
  destruct (p x); [|by exists []].
  exists (x :: pre). cbn. by rewrite <- IH.
Qed.

Lemma rstrip_by_prefix p (s : str) : exists post, s = rstrip_by p s ++ post.
Proof.
  induction s as [|x s [post IH]]; cbn; [by exists []|].
  destruct (rstrip_by p s) as [|y r] eqn:Hr.
  - destruct (p x); [by exists (x :: s)|].
    exists s. done.
  - exists post. cbn. by rewrite IH at 1.
Qed.

Lemma strip_by_infix p (s : str) :
  exists pre post, s = pre ++ strip_by p s ++ post.
Proof.
  unfold strip_by. destruct (lstrip_by_suffix p s) as [pre Hpre].
  destruct (rstrip_by_prefix p (lstrip_by p s)) as [post Hpost].
  exists pre, post. by rewrite <- Hpost.
Qed.

Lemma lstrip_by_head p (s : str) x :
  head (lstrip_by p s) = Some x -> p x = false.
Proof.
  induction s as [|y s IH]; cbn; [done|].
  destruct (p y) eqn:Hy; [done|]. cbn. by intros [= <-].
Qed.

Lemma rstrip_by_last p (s : str) x :
  last (rstrip_by p s) = Some x -> p x = false.
Proof.
  induction s as [|y s IH]; cbn; [done|].
  destruct (rstrip_by p s) as [|z r] eqn:Hr.
  - destruct (p y) eqn:Hy; [done|]. cbn. by intros [= <-].
  - rewrite last_cons_cons. exact IH.
Qed.

Lemma rstrip_by_head p (s : str) :
  rstrip_by p s ≠ [] -> head (rstrip_by p s) = head s.
Proof.
  destruct s as [|y s]; cbn; [done|].
  destruct (rstrip_by p s); [|done].
  by destruct (p y).
Qed.

Lemma lstrip_by_id p (s : str) :
  (forall x, head s = Some x -> p x = false) -> lstrip_by p s = s.
Proof.
  destruct s as [|y s]; cbn; [done|]. intros H. by rewrite (H y eq_refl).
Qed.

Lemma rstrip_by_id p (s : str) :
  (forall x, last s = Some x -> p x = false) -> rstrip_by p s = s.
Proof.
  induction s as [|y s IH]; cbn; [done|]. intros H.
  destruct s as [|z s].
  - cbn. by rewrite (H y eq_refl).
  - rewrite IH by (intros x Hx; apply H; by rewrite last_cons_cons).
    reflexivity.
Qed.

Lemma strip_by_id p (s : str) :
  (forall x, head s = Some x -> p x = false) ->
  (forall x, last s = Some x -> p x = false) ->
  strip_by p s = s.
Proof.
  intros Hh Hl. unfold strip_by. rewrite lstrip_by_id by done.
  by apply rstrip_by_id.
Qed.

(** [replace] of one character by another is a map. *)
Lemma replace_fuel_char (c d : N) fuel (s : str) :
  (length s <= fuel)%nat ->
  replace_fuel fuel [c] [d] s = map (fun x => if (x =? c)%N then d else x) s.
Proof.
  revert s. induction fuel as [|f IH]; intros s Hlen.
  - destruct s; [done|cbn in Hlen; lia].
  - destruct s as [|x s]; [done|]. cbn in Hlen.
    cbn [replace_fuel startswith map]. rewrite andb_true_r, (N.eqb_sym c x).
    change (drop (length [c]) (x :: s)) with s.
    destruct (x =? c)%N; rewrite IH by lia; done.
Qed.

Lemma replace_char (c d : N) (s : str) :
  replace [c] [d] s = map (fun x => if (x =? c)%N then d else x) s.
Proof. by apply replace_fuel_char. Qed.

(** *** Tokens *)

Definition starts_space (s : str) : bool :=
  match s with
  | [] => true
  | x :: _ => isspace x
  end.

Lemma split_ws_space x (s : str) :
  isspace x = true -> split_ws (x :: s) = split_ws s.
Proof. intros Hx. cbn. by rewrite Hx. Qed.

Lemma split_ws_nonspace x (s : str) :
  isspace x = false ->
  split_ws (x :: s) =
    if starts_space s then [x] :: split_ws s
    else match split_ws s with
         | w :: ws => (x :: w) :: ws
         | [] => [[x]]
         end.
Proof.
  intros Hx. cbn [split_ws]. rewrite Hx.
  destruct s as [|y s]; [reflexivity|]. cbn [starts_space].
  destruct (isspace y); reflexivity.
Qed.

Lemma split_ws_cons_congr x (s t : str) :
  starts_space s = starts_space t -> split_ws s = split_ws t ->
  split_ws (x :: s) = split_ws (x :: t).
Proof.
  intros Hh Heq. destruct (isspace x) eqn:Hx.
  - by rewrite !split_ws_space.
  - by rewrite !split_ws_nonspace, Hh, Heq.
Qed.

Lemma split_ws_nonempty (s : str) :
  starts_space s = false -> split_ws s ≠ [].
Proof.
  destruct s as [|x s]; [done|]. cbn [starts_space]. intros Hx.
  rewrite split_ws_nonspace by done.
  destruct (starts_space s); [done|]. by destruct (split_ws s).
Qed.

Lemma split_ws_app_space (a b : str) x :
  isspace x = true -> split_ws (a ++ x :: b) = split_ws a ++ split_ws b.
Proof.
  intros Hx. induction a as [|y a IH]; cbn [app].
  - by rewrite split_ws_space.
  - destruct (isspace y) eqn:Hy.
    + by rewrite !split_ws_space.
    + rewrite !split_ws_nonspace by done. rewrite IH.
      assert (starts_space (a ++ x :: b) = starts_space a) as ->
        by (destruct a; [exact Hx|reflexivity]).
      destruct (starts_space a) eqn:Ha; [reflexivity|].
      pose proof (split_ws_nonempty a Ha).
      destruct (split_ws a); [done|reflexivity].
Qed.

Lemma split_ws_join (parts : list str) :
  split_ws (join [ch_space] parts) = concat (map split_ws parts).
Proof.
  induction parts as [|p ps IH]; [reflexivity|].
  destruct ps as [|q ps].
  - cbn. by rewrite app_nil_r.
  - change (join [ch_space] (p :: q :: ps))
      with (p ++ ch_space :: join [ch_space] (q :: ps)).
    rewrite split_ws_app_space by reflexivity. by rewrite IH.
Qed.

Lemma split_ws_map (f : N -> N) (s : str) :
  (forall x, isspace (f x) = isspace x) ->
  (forall x, isspace x = false -> f x = x) ->
  split_ws (map f s) = split_ws s /\ starts_space (map f s) = starts_space s.
Proof.
  intros Hsp Hid. induction s as [|x s [IH1 IH2]]; [done|]. split; [|apply Hsp].
  cbn [map]. destruct (isspace x) eqn:Hx.
  - rewrite !split_ws_space by (by rewrite ?Hsp). done.
  - rewrite (Hid x Hx). by apply split_ws_cons_congr.
Qed.

Lemma split_ws_lstrip (s : str) : split_ws (lstrip_by isspace s) = split_ws s.
Proof.
  induction s as [|x s IH]; [done|]. cbn [lstrip_by].
  destruct (isspace x) eqn:Hx; [|done]. by rewrite split_ws_space.
Qed.

Lemma split_ws_all_space (s : str) :
  Forall (fun x => isspace x = true) s -> split_ws s = [].
Proof.
  induction 1 as [|x s Hx Hs IH]; [done|]. by rewrite split_ws_space.
Qed.

Lemma rstrip_by_nil p (s : str) :
  rstrip_by p s = [] -> Forall (fun x => p x = true) s.
Proof.
  induction s as [|x s IH]; cbn; [done|].
  destruct (rstrip_by p s); [|done].
  destruct (p x) eqn:Hx; [|done]. intros _. constructor; [done|by apply IH].
Qed.

Lemma split_ws_rstrip (s : str) : split_ws (rstrip_by isspace s) = split_ws s.
Proof.
  induction s as [|x s IH]; [done|]. cbn [rstrip_by].
  destruct (rstrip_by isspace s) as [|y r] eqn:Hr.
  - pose proof (rstrip_by_nil _ _ Hr) as Hall.
    destruct (isspace x) eqn:Hx.
    + rewrite split_ws_space by done. by rewrite (split_ws_all_space s).
    + rewrite !split_ws_nonspace by done. rewrite (split_ws_all_space s) by done.
      cbn. by destruct (starts_space s).
  - apply split_ws_cons_congr; [|done].
    assert (head (rstrip_by isspace s) = head s) as Hh
      by (apply rstrip_by_head; by rewrite Hr).
    rewrite Hr in Hh. destruct s as [|z s]; [done|].
    cbn in Hh. by injection Hh as ->.
Qed.

Lemma split_ws_strip (s : str) : split_ws (strip s) = split_ws s.
Proof.
  unfold strip, strip_by. by rewrite split_ws_rstrip, split_ws_lstrip.
Qed.

(** *** The squeezing loop *)

Lemma replace_spaces_tokens fuel (s : str) :
  split_ws (replace_fuel fuel two_spaces [ch_space] s) = split_ws s
  /\ starts_space (replace_fuel fuel two_spaces [ch_space] s) = starts_space s.
Proof.
  revert s. induction fuel as [|f IH]; intros s; [done|].
  destruct s as [|x s]; [done|]. cbn [replace_fuel].
  destruct (startswith two_spaces (x :: s)) eqn:Hsw.
  - apply startswith_spec in Hsw as [t Ht]. cbn in Ht. injection Ht as -> ->.
    change (drop (length two_spaces) (ch_space :: ch_space :: t)) with t.
    destruct (IH t) as [IH1 IH2]. split; [|reflexivity].
    cbn [app]. rewrite !split_ws_space by reflexivity. exact IH1.
  - destruct (IH s) as [IH1 IH2]. split; [|reflexivity].
    by apply split_ws_cons_congr.
Qed.

Lemma replace_spaces_Forall (P : N -> Prop) fuel (s : str) :
  Forall P s -> Forall P (replace_fuel fuel two_spaces [ch_space] s).
Proof.
  revert s. induction fuel as [|f IH]; intros s Hs; [done|].
  destruct s as [|x s]; [done|]. cbn [replace_fuel].
  destruct (startswith two_spaces (x :: s)) eqn:Hsw.
  - apply startswith_spec in Hsw as [t Ht]. cbn in Ht. injection Ht as -> ->.
    change (drop (length two_spaces) (ch_space :: ch_space :: t)) with t.
    apply Forall_cons in Hs as [Hx Hs]. apply Forall_cons in Hs as [_ Hs].
    cbn [app]. constructor; [done|]. by apply IH.
  - apply Forall_cons in Hs as [Hx Hs]. constructor; [done|]. by apply IH.
Qed.

Lemma replace_spaces_length fuel (s : str) :
  (length (replace_fuel fuel two_spaces [ch_space] s) <= length s)%nat.
Proof.
  revert s. induction fuel as [|f IH]; intros s; [done|].
  destruct s as [|x s]; [done|]. cbn [replace_fuel].
  destruct (startswith two_spaces (x :: s)) eqn:Hsw.
  - apply startswith_spec in Hsw as [t Ht]. cbn in Ht. injection Ht as -> ->.
    change (drop (length two_spaces) (ch_space :: ch_space :: t)) with t.
    cbn [app length]. specialize (IH t). lia.
  - cbn [length]. specialize (IH s). lia.
Qed.

(** A round of the loop that finds two spaces shortens the text. *)
Lemma replace_spaces_shorter fuel (s : str) :
  (length s <= fuel)%nat -> contains two_spaces s = true ->
  (length (replace_fuel fuel two_spaces [ch_space] s) < length s)%nat.
Proof.
  revert s. induction fuel as [|f IH]; intros s Hlen Hc.
  - destruct s; [done|cbn in Hlen; lia].
  - destruct s as [|x s]; [done|]. cbn [replace_fuel]. cbn [contains] in Hc.
    destruct (startswith two_spaces (x :: s)) eqn:Hsw.
    + apply startswith_spec in Hsw as [t Ht]. cbn in Ht. injection Ht as -> ->.
      change (drop (length two_spaces) (ch_space :: ch_space :: t)) with t.
      cbn [app length]. pose proof (replace_spaces_length f t). lia.
    + cbn [orb] in Hc. cbn [length] in *.
      specialize (IH s ltac:(lia) Hc). lia.
Qed.

Lemma squeeze_loop_tokens fuel (s : str) :
  split_ws (squeeze_loop fuel s) = split_ws s.
Proof.
  revert s. induction fuel as [|f IH]; intros s; [done|]. cbn [squeeze_loop].
  destruct (contains two_spaces s); [|done].
  rewrite IH. apply replace_spaces_tokens.
Qed.

Lemma squeeze_loop_Forall (P : N -> Prop) fuel (s : str) :
  Forall P s -> Forall P (squeeze_loop fuel s).
Proof.
  revert s. induction fuel as [|f IH]; intros s Hs; [done|]. cbn [squeeze_loop].
  destruct (contains two_spaces s); [|done].
  apply IH. by apply replace_spaces_Forall.
Qed.

(** The loop has exited when the fuel runs out: no two spaces are left. *)
Lemma squeeze_loop_done fuel (s : str) :
  (length s <= fuel)%nat -> contains two_spaces (squeeze_loop fuel s) = false.
Proof.
  revert s. induction fuel as [|f IH]; intros s Hlen.
  - destruct s; [done|cbn in Hlen; lia].
  - cbn [squeeze_loop]. destruct (contains two_spaces s) eqn:Hc; [|done].
    apply IH. unfold replace.
    pose proof (replace_spaces_shorter (length s) s (le_n _) Hc). lia.
Qed.

Lemma squeeze_no_double_space (s : str) : contains two_spaces (squeeze s) = false.
Proof. by apply squeeze_loop_done. Qed.

(** *** The three replacements of control characters *)

Definition blank (x : N) : N :=
  if ((x =? ch_tab) || (x =? ch_lf) || (x =? ch_cr))%N then ch_space else x.

Lemma blank_controls_map (s : str) : blank_controls s = map blank s.
Proof.
  unfold blank_controls. rewrite !replace_char, !map_map.
  apply map_ext. intros x. unfold blank.
  destruct (N.eqb_spec x ch_lf) as [->|Hlf]; [reflexivity|].
  destruct (N.eqb_spec x ch_cr) as [->|Hcr]; [reflexivity|].
  rewrite orb_false_r. by destruct (N.eqb_spec x ch_tab).
Qed.

Lemma blank_isspace x : isspace (blank x) = isspace x.
Proof.
  unfold blank.
  destruct (N.eqb_spec x ch_tab) as [->|_]; [reflexivity|].
  destruct (N.eqb_spec x ch_lf) as [->|_]; [reflexivity|].
  destruct (N.eqb_spec x ch_cr) as [->|_]; reflexivity.
Qed.

Lemma blank_nonspace x : isspace x = false -> blank x = x.
Proof.
  unfold blank.
  destruct (N.eqb_spec x ch_tab) as [->|_]; [done|].
  destruct (N.eqb_spec x ch_lf) as [->|_]; [done|].
  destruct (N.eqb_spec x ch_cr) as [->|_]; done.
Qed.

Definition printable (x : N) : Prop := x ≠ ch_tab /\ x ≠ ch_lf /\ x ≠ ch_cr.

Lemma blank_printable x : printable (blank x).
Proof.
  unfold blank, printable.
  destruct (N.eqb_spec x ch_tab) as [->|?]; [done|].
  destruct (N.eqb_spec x ch_lf) as [->|?]; [done|].
  destruct (N.eqb_spec x ch_cr) as [->|?]; done.
Qed.

Lemma strip_by_Forall (P : N -> Prop) p (s : str) :
  Forall P s -> Forall P (strip_by p s).
Proof.
  intros Hs. destruct (strip_by_infix p s) as (pre & post & Heq).
  rewrite Heq in Hs. apply Forall_app in Hs as [_ Hs].
  by apply Forall_app in Hs as [Hs _].
Qed.

Lemma strip_by_no_double_space p (s : str) :
  contains two_spaces s = false -> contains two_spaces (strip_by p s) = false.
Proof.
  intros Hs. destruct (strip_by_infix p s) as (pre & post & Heq).
  rewrite Heq in Hs. by eapply contains_false_app.
Qed.

(** *** What [_clean] guarantees *)

(** The text after the white-space steps of [_clean], before the quotes
    are stripped. *)
Definition spaced_text (text : str) : str :=
  strip (squeeze (blank_controls text)).

Lemma clean_unfold (text : str) :
  _clean text = strip_chars [ch_squote] (strip_chars [ch_dquote] (spaced_text text)).
Proof. reflexivity. Qed.

Lemma spaced_text_tokens (text : str) :
  split_ws (spaced_text text) = split_ws text.
Proof.
  unfold spaced_text, squeeze.
  rewrite split_ws_strip, squeeze_loop_tokens, blank_controls_map.
  apply split_ws_map; [apply blank_isspace | apply blank_nonspace].
Qed.

Lemma clean_printable (text : str) : Forall printable (_clean text).
Proof.
  unfold _clean, strip_chars, strip.
  do 3 apply strip_by_Forall. apply squeeze_loop_Forall.
  rewrite blank_controls_map. apply Forall_forall.
  intros x Hx. apply list_elem_of_fmap in Hx as (y & -> & _).
  apply blank_printable.
Qed.

(** [_clean] leaves no tab, line feed or carriage return: its result is
    one line. *)
Theorem clean_single_line (text : str) : Forall printable (_clean text).
Proof.
  unfold _clean, strip_chars, strip.
  do 3 apply strip_by_Forall. apply squeeze_loop_Forall.
  rewrite blank_controls_map. apply Forall_forall.
  intros x Hx. apply list_elem_of_fmap in Hx as (y & -> & _).
  apply blank_printable.
Qed.

Lemma clean_no_double_space (text : str) :
  contains two_spaces (_clean text) = false.
Proof.
  unfold _clean, strip_chars, strip.
  do 3 apply strip_by_no_double_space. apply squeeze_no_double_space.
Qed.

(** [_clean] leaves no two spaces in a row. *)
Theorem clean_single_spaced (text : str) :
  contains two_spaces (_clean text) = false.
Proof.
  unfold _clean, strip_chars, strip.
  do 3 apply strip_by_no_double_space. apply squeeze_no_double_space.
Qed.

Definition is_quote (x : N) : bool := ((x =? ch_dquote) || (x =? ch_squote))%N.

(** A token list whose first token does not begin with a quote character
    and whose last token does not end with one. *)
Definition edges_unquoted (toks : list str) : Prop :=
  (forall x, head (concat toks) = Some x -> is_quote x = false)
  /\ (forall x, last (concat toks) = Some x -> is_quote x = false).

Lemma head_concat_split_ws (s : str) x :
  head s = Some x -> isspace x = false -> head (concat (split_ws s)) = Some x.
Proof.
  destruct s as [|y s]; [done|]. cbn [head]. intros [= ->] Hx.
  rewrite split_ws_nonspace by done.
  destruct (starts_space s); [reflexivity|].
  by destruct (split_ws s).
Qed.

Lemma last_concat_split_ws (s : str) x :
  last s = Some x -> isspace x = false -> last (concat (split_ws s)) = Some x.
Proof.
  induction s as [|y s IH]; [done|]. intros Hl Hx.
  destruct s as [|z s].
  - cbn in Hl. injection Hl as ->. cbn. by rewrite Hx.
  - rewrite last_cons_cons in Hl. specialize (IH Hl Hx).
    destruct (isspace y) eqn:Hy; [by rewrite split_ws_space|].
    rewrite split_ws_nonspace by done.
    destruct (starts_space (z :: s)).
    + cbn [concat]. rewrite last_app, IH. reflexivity.
    + destruct (split_ws (z :: s)) as [|w ws] eqn:Hw; [done|].
      change (concat ((y :: w) :: ws)) with (y :: concat (w :: ws)).
      destruct (concat (w :: ws)) as [|a l] eqn:Hc; [done|].
      by rewrite last_cons_cons.
Qed.

Lemma strip_head_nonspace (s : str) x :
  head (strip s) = Some x -> isspace x = false.
Proof.
  unfold strip, strip_by. intros Hh.
  destruct (rstrip_by isspace (lstrip_by isspace s)) eqn:Hr; [done|].
  rewrite <- Hr in Hh. rewrite rstrip_by_head in Hh by (by rewrite Hr).
  by eapply lstrip_by_head.
Qed.

Lemma strip_last_nonspace (s : str) x :
  last (strip s) = Some x -> isspace x = false.
Proof. apply rstrip_by_last. Qed.

Lemma clean_tokens (text : str) :
  edges_unquoted (split_ws text) -> split_ws (_clean text) = split_ws text.
Proof.
  intros [Hhead Hlast]. rewrite clean_unfold.
  rewrite <- (spaced_text_tokens text) in Hhead, Hlast |- *.
  set (u := spaced_text text) in *.
  assert (forall x, head u = Some x -> is_quote x = false) as Hh.
  { intros x Hx. apply Hhead. apply head_concat_split_ws; [done|].
    by eapply strip_head_nonspace. }
  assert (forall x, last u = Some x -> is_quote x = false) as Hl.
  { intros x Hx. apply Hlast. apply last_concat_split_ws; [done|].
    by eapply strip_last_nonspace. }
  assert (strip_chars [ch_dquote] u = u) as ->.
  { apply strip_by_id; intros x Hx; [apply Hh in Hx|apply Hl in Hx];
      unfold is_quote in Hx; apply orb_false_elim in Hx as [Hx _];
      cbn; by rewrite Hx. }
  assert (strip_chars [ch_squote] u = u) as ->; [|done].
  apply strip_by_id; intros x Hx; [apply Hh in Hx|apply Hl in Hx];
    unfold is_quote in Hx; apply orb_false_elim in Hx as [_ Hx];
    cbn; by rewrite Hx.
Qed.

(** When the text, read as a list of tokens, neither begins nor ends with
    a quote character, [_clean] changes white space only: the tokens of the
    result are the tokens of the text. *)
Theorem clean_keeps_tokens (text : str) :
  edges_unquoted (split_ws text) -> split_ws (_clean text) = split_ws text.
Proof.
  intros [Hhead Hlast]. rewrite clean_unfold.
  rewrite <- (spaced_text_tokens text) in Hhead, Hlast |- *.
  set (u := spaced_text text) in *.
  assert (forall x, head u = Some x -> is_quote x = false) as Hh.
  { intros x Hx. apply Hhead. apply head_concat_split_ws; [done|].
    by eapply strip_head_nonspace. }
  assert (forall x, last u = Some x -> is_quote x = false) as Hl.
  { intros x Hx. apply Hlast. apply last_concat_split_ws; [done|].
    by eapply strip_last_nonspace. }
  assert (strip_chars [ch_dquote] u = u) as ->.
  { apply strip_by_id; intros x Hx; [apply Hh in Hx|apply Hl in Hx];
      unfold is_quote in Hx; apply orb_false_elim in Hx as [Hx _];
      cbn; by rewrite Hx. }
  assert (strip_chars [ch_squote] u = u) as ->; [|done].
  apply strip_by_id; intros x Hx; [apply Hh in Hx|apply Hl in Hx];
    unfold is_quote in Hx; apply orb_false_elim in Hx as [_ Hx];
    cbn; by rewrite Hx.
Qed.

(** *** The composition primitives, token by token *)

(** The tokens [concat_repeat] is meant to return: those of the query,
    [repeats] times over, then those of the generated text. *)
Definition repeat_tokens (query generated : str) (repeats : Z) : list str :=
  concat (replicate (Z.to_nat repeats) (split_ws query)) ++ split_ws generated.

Lemma join_repeat_tokens (query generated : str) (repeats : Z) :
  split_ws (join [ch_space] (seq_mul [query] repeats ++ [generated]))
    = repeat_tokens query generated repeats.
Proof.
  rewrite split_ws_join, map_app, concat_app, seq_mul_singleton, fmap_replicate.
  cbn. by rewrite app_nil_r.
Qed.

(** [concat_repeat] returns one line without double spaces; and when
    the expected tokens neither begin nor end with a quote character, its
    tokens are exactly [max(0, repeats)] copies of the query's tokens
    followed by the tokens of the generated text. *)
Theorem concat_repeat_tokens (query generated : str) (repeats : Z) :
  Forall printable (concat_repeat query generated repeats)
  /\ contains two_spaces (concat_repeat query generated repeats) = false
  /\ (edges_unquoted (repeat_tokens query generated repeats) ->
      split_ws (concat_repeat query generated repeats)
        = repeat_tokens query generated repeats).
Proof.
  unfold concat_repeat. split; [apply clean_printable|].
  split; [apply clean_no_double_space|].
  intros Hedges. rewrite <- join_repeat_tokens in Hedges |- *.
  by apply clean_tokens.
Qed.

(** The tokens [concat_interleave] is meant to return. *)
Definition interleave_tokens (query : str) (passages : list str) : list str :=
  concat (map (fun p => split_ws query ++ split_ws p) passages).

Lemma join_interleave_tokens (query : str) (passages : list str) :
  split_ws (join [ch_space] (flat_map (fun p => [query; p]) passages))
    = interleave_tokens query passages.
Proof.
  rewrite split_ws_join. unfold interleave_tokens.
  induction passages as [|p ps IH]; [reflexivity|].
  cbn [flat_map app map concat]. rewrite IH. by rewrite <- app_assoc.
Qed.

(** [concat_interleave] of no passage is the empty string; in general,
    when the expected tokens neither begin nor end with a quote character,
    its tokens are those of the query before those of each passage, in the
    order of the passages. *)
Theorem concat_interleave_tokens (query : str) (passages : list str) :
  concat_interleave query [] = []
  /\ Forall printable (concat_interleave query passages)
  /\ (edges_unquoted (interleave_tokens query passages) ->
      split_ws (concat_interleave query passages)
        = interleave_tokens query passages).
Proof.
  split; [reflexivity|]. unfold concat_interleave.
  split; [apply clean_printable|].
  intros Hedges. rewrite <- join_interleave_tokens in Hedges |- *.
  by apply clean_tokens.
Qed.

Lemma adaptive_text_tokens (query generated : str) n :
  split_ws (concat (replicate n (query ++ [ch_space])) ++ generated)
    = concat (replicate n (split_ws query)) ++ split_ws generated.
Proof.
  induction n as [|n IH]; [reflexivity|].
  cbn [replicate concat]. rewrite <- !app_assoc. cbn [app].
  rewrite split_ws_app_space by reflexivity. by rewrite IH.
Qed.

(** For a positive ratio, and when the expected tokens neither begin nor
    end with a quote character, the tokens of [concat_adaptive] are [reps]
    copies of the query's tokens followed by those of the generated text,
    with [reps = max(1, (len(generated) // max(1, len(query))) // ratio)]. *)
Theorem concat_adaptive_tokens (query generated : str) (ratio : Z) :
  0 < ratio ->
  let reps := Z.max 1 ((len generated / Z.max 1 (len query)) / ratio) in
  edges_unquoted (repeat_tokens query generated reps) ->
  exists out,
    concat_adaptive query generated ratio = Ok out
    /\ Forall printable out
    /\ split_ws out = repeat_tokens query generated reps.
Proof.
  intros Hratio reps Hedges. unfold concat_adaptive.
  rewrite floordiv_ok by lia. cbn [mbind res_bind].
  rewrite floordiv_ok by lia. cbn [mbind res_bind].
  eexists. split; [reflexivity|]. split; [apply clean_printable|].
  fold reps. unfold repeat_tokens in *. unfold seq_mul.
  rewrite <- adaptive_text_tokens in Hedges |- *.
  by apply clean_tokens.
Qed.

End CleanFacts.

(** Decide [edges_unquoted] on a given list of tokens. *)
Ltac edges_by_computation :=
  split; intros x Hx; vm_compute in Hx; injection Hx as <-; reflexivity.

Lemma clean_keeps_tokens_witness :
  split_ws (Base._clean (lit "  solar" ++ [ch_tab] ++ dq "'panels'  on " ++ [ch_lf] ++ lit "roofs "))
    = [lit "solar"; dq "'panels'"; lit "on"; lit "roofs"].
Proof.
  rewrite clean_keeps_tokens; [vm_compute; reflexivity|].
  edges_by_computation.
Defined.

Lemma concat_repeat_tokens_witness :
  split_ws (Base.concat_repeat (lit "climate  change") (lit "warming, emissions") 2)
    = [lit "climate"; lit "change"; lit "climate"; lit "change";
       lit "warming,"; lit "emissions"].
Proof.
  rewrite (proj2 (proj2 (concat_repeat_tokens _ _ _))); [vm_compute; reflexivity|].
  edges_by_computation.
Defined.

Lemma concat_interleave_tokens_witness :
  split_ws (Base.concat_interleave (lit "q") [lit "first passage"; lit "second"])
    = [lit "q"; lit "first"; lit "passage"; lit "q"; lit "second"].
Proof.
  rewrite (proj2 (proj2 (concat_interleave_tokens _ _))); [vm_compute; reflexivity|].
  edges_by_computation.
Defined.

Lemma concat_adaptive_tokens_witness :
  0 < 5 /\
  exists out,
    Base.concat_adaptive (lit "ab") (lit "0123456789 0123456789 0123456789") 5 = Ok out
    /\ split_ws out
        = [lit "ab"; lit "ab"; lit "ab"; lit "0123456789"; lit "0123456789"; lit "0123456789"].
Proof.
  split; [lia|].
  destruct (concat_adaptive_tokens (lit "ab") (lit "0123456789 0123456789 0123456789") 5
              ltac:(lia) ltac:(edges_by_computation)) as (out & Hout & _ & Htok).
  exists out. split; [exact Hout|]. rewrite Htok. vm_compute. reflexivity.
Defined.

(** ** The completion client, the prompt bank and the batch driver *)

Lemma strip_idempotent (s : str) : strip (strip s) = strip s.
Proof.
  apply strip_by_id.
  - apply strip_head_nonspace.
  - apply strip_last_nonspace.
Qed.

Lemma mapM_res_inv {A B} (g : A -> res B) (l : list A) (r : list B) :
  mapM g l = Ok r -> Forall2 (fun x y => g x = Ok y) l r.
Proof.
  revert r. induction l as [|x l IH]; intros r; cbn.
  - intros [= <-]. constructor.
  - destruct (g x) as [y|e] eqn:Hg; cbn; [|discriminate].
    destruct (mapM g l) as [r'|e]; cbn; [|discriminate].
    intros [= <-]. constructor; [done|]. by apply IH.
Qed.

Section ClientFacts.
Context {W : Type}.
Variable chat_create : str -> list (str * str) -> Z -> W -> res (list str) * W.
Variable str_format : str -> list (str * json) -> res str.
Variable json_dumps : json -> str.
Variable str_lower : str -> str.
Variable int_other : json -> res Z.
Variable str_other : json -> str.

#[local] Existing Instance Methods.M_ret.
#[local] Existing Instance Methods.M_bind.

Local Abbreviation generate := (Methods.generate chat_create).
Local Abbreviation generate_one := (Methods.generate_one chat_create).
Local Abbreviation reformulate_query :=
  (Methods.reformulate_query chat_create str_format json_dumps str_lower
     int_other str_other).
Local Abbreviation reformulate_batch :=
  (Methods.reformulate_batch chat_create str_format json_dumps str_lower
     int_other str_other).

Ltac inv_run H :=
  repeat match type of H with
         | mbind _ _ _ = (Ok _, _) =>
             let a := fresh "a" in
             let w := fresh "w" in
             let Hc := fresh "Hc" in
             apply M_bind_ok_inv in H as (a & w & Hc & H)
         | (let x := _ in _) _ = (Ok _, _) => cbv zeta in H
         end;
  try (apply M_ret_ok_inv in H as [<- <-]).

(** *** [LLMClient.generate] *)

Lemma generate_attempts_result client messages n attempts (w w' : W) l :
  Methods.generate_attempts chat_create client messages n attempts w
    = (Ok (Some l), w') ->
  exists w0 contents,
    chat_create (model_id client) messages n w0 = (Ok contents, w')
    /\ l = map strip contents.
Proof.
  revert w. induction attempts as [|a attempts IH]; intros w; cbn.
  - intros [=].
  - destruct (chat_create (model_id client) messages n w) as [[contents|e] w1] eqn:Hcall.
    + intros [= <- <-]. eauto.
    + destruct (a =? max_retries client); [intros [=]|]. apply IH.
Qed.

(** What [generate] returns was produced by one request that succeeded,
    and every completion comes back without white space around it. *)
Theorem generate_returns_stripped client messages n (w w' : W) l :
  generate client messages n w = (Ok (Some l), w') ->
  (exists w0 contents,
     chat_create (model_id client) messages n w0 = (Ok contents, w')
     /\ l = map strip contents)
  /\ Forall (fun s => strip s = s) l.
Proof.
  intros Hgen. apply generate_attempts_result in Hgen as (w0 & contents & Hcall & ->).
  split; [eauto|]. apply Forall_forall. intros s Hs.
  apply list_elem_of_fmap in Hs as (c & -> & _). apply strip_idempotent.
Qed.

Lemma generate_attempts_not_none client messages n attempts (w w' : W) r :
  last attempts = Some (max_retries client) ->
  Methods.generate_attempts chat_create client messages n attempts w = (Ok r, w') ->
  r ≠ None.
Proof.
  revert w. induction attempts as [|a attempts IH]; intros w Hlast; [done|].
  cbn [Methods.generate_attempts].
  destruct (chat_create (model_id client) messages n w) as [[contents|e] w1].
  - by intros [= <- <-].
  - destruct attempts as [|b attempts].
    + cbn in Hlast. injection Hlast as ->. rewrite Z.eqb_refl. intros [=].
    + destruct (a =? max_retries client); [intros [=]|].
      apply IH. by rewrite last_cons_cons in Hlast.
Qed.

Lemma attempts_last (k : Z) :
  1 <= k -> last (map (Z.add 1) (py_range k)) = Some k.
Proof.
  intros Hk. unfold py_range.
  destruct (Z.to_nat k) as [|m] eqn:Hm; [lia|].
  rewrite seq_S, !map_app, last_app. cbn. f_equal. lia.
Qed.

(** With at least one attempt allowed, [generate] returns a list or
    raises: the loop never ends without a result. With none allowed
    ([max_retries <= 0]) it sends no request and returns [None], on which
    [generate_one] raises a [TypeError]. *)
Theorem generate_retries client messages n (w : W) :
  (1 <= max_retries client ->
   forall r w', generate client messages n w = (Ok r, w') -> r ≠ None)
  /\ (max_retries client <= 0 ->
      generate client messages n w = (Ok None, w)
      /\ generate_one client messages w = (Raise TypeError, w)).
Proof.
  split.
  - intros Hk r w'. apply generate_attempts_not_none. by apply attempts_last.
  - intros Hk. unfold Methods.generate_one, mbind, Methods.M_bind, Methods.generate.
    rewrite py_range_nonpos by done. done.
Qed.

(** The first request that succeeds is the answer: no further request is
    sent. *)
Theorem generate_first_success client messages n (w w' : W) contents :
  1 <= max_retries client ->
  chat_create (model_id client) messages n w = (Ok contents, w') ->
  generate client messages n w = (Ok (Some (map strip contents)), w').
Proof.
  intros Hk Hcall. unfold Methods.generate, py_range.
  destruct (Z.to_nat (max_retries client)) as [|m] eqn:Hm; [lia|].
  cbn. by rewrite Hcall.
Qed.

(** *** [PromptBank.render] *)

(** A prompt that is not in the bank is a [KeyError]; a rendered prompt has
    the messages of its template, in order and with their roles. *)
Theorem render_keeps_roles (bank : gmap (list N) (list (str * str)))
    (prompt_id : str) (variables : list (str * json)) :
  (bank !! prompt_id = None ->
   Methods.render str_format bank prompt_id variables = Raise KeyError)
  /\ (forall rendered,
        Methods.render str_format bank prompt_id variables = Ok rendered ->
        exists template,
          bank !! prompt_id = Some template
          /\ map fst rendered = map fst template
          /\ Forall2 (fun t r => str_format t.2 variables = Ok r.2) template rendered).
Proof.
  unfold Methods.render. split; [by intros ->|].
  intros rendered. destruct (bank !! prompt_id) as [template|]; [|done].
  intros Hm. exists template. split; [done|].
  apply mapM_res_inv in Hm.
  induction Hm as [|[role content] [role' content'] t r Hx Hm IH]; [done|].
  cbn in Hx. destruct (str_format content variables) as [c|e] eqn:Hf; [|done].
  injection Hx as <- <-. destruct IH as [IH1 IH2]. split.
  - cbn. by rewrite IH1.
  - constructor; [done|exact IH2].
Qed.

(** *** [BaseMethod.reformulate_batch] *)

Lemma reformulate_query_identity c self query contexts (w w' : W) rq :
  reformulate_query c self query contexts w = (Ok rq, w') ->
  ReformulatedQuery.qid rq = Query.qid query
  /\ ReformulatedQuery.original rq = Query.text query.
Proof.
  intros Hrun.
  destruct c; cbn [Methods.reformulate_query] in Hrun;
    unfold Methods.genqr, Methods.genqr_ensemble, Methods.q2k, Methods.q2d,
      Methods.qa_expand, Methods.mugi, Methods.csqe, Methods.lamer in Hrun;
    inv_run Hrun; split; reflexivity.
Qed.

(** A batch that returns has one record per query, in the order of the
    queries, each with the [qid] and the text of its query. *)
Theorem reformulate_batch_in_order c self queries ctx_map (w w' : W) results :
  reformulate_batch c self queries ctx_map w = (Ok results, w') ->
  Forall2 (fun q rq => ReformulatedQuery.qid rq = Query.qid q
                       /\ ReformulatedQuery.original rq = Query.text q)
          queries results.
Proof.
  unfold Methods.reformulate_batch.
  revert w results. induction queries as [|q queries IH]; intros w results Hrun.
  - cbn in Hrun. injection Hrun as <- _. constructor.
  - cbn [Methods.forM] in Hrun. inv_run Hrun.
    constructor; [by eapply reformulate_query_identity | by eapply IH].
Qed.

(** A query whose reformulation raises aborts the batch: the error comes
    out, the queries after it are not attempted, and the records made
    before it are lost. *)
Theorem reformulate_batch_aborts c self before q after ctx_map
    (w w1 w2 : W) made e :
  reformulate_batch c self before ctx_map w = (Ok made, w1) ->
  reformulate_query c self q (default ∅ ctx_map !! Query.qid q) w1 = (Raise e, w2) ->
  reformulate_batch c self (before ++ q :: after) ctx_map w = (Raise e, w2).
Proof.
  unfold Methods.reformulate_batch.
  revert w made. induction before as [|b before IH]; intros w made Hbefore Hq.
  - cbn in Hbefore. injection Hbefore as _ <-.
    cbn [app Methods.forM]. unfold mbind, Methods.M_bind. by rewrite Hq.
  - cbn [app Methods.forM] in Hbefore |- *. inv_run Hbefore.
    unfold mbind at 1, Methods.M_bind at 1. rewrite Hc.
    unfold mbind at 1, Methods.M_bind at 1. by erewrite IH.
Qed.

(** *** The strategies *)

(** Every strategy returns a reformulated query of one line: no tab, line
    feed or carriage return, whatever the completions hold. (The
    dual-source strategy lower-cases its output; lower-casing is assumed
    not to create such characters.) *)
Theorem reformulated_single_line c self query contexts (w w' : W) rq :
  (forall s, Forall printable s -> Forall printable (str_lower s)) ->
  reformulate_query c self query contexts w = (Ok rq, w') ->
  Forall printable (ReformulatedQuery.reformulated rq).
Proof.
  intros Hlower Hrun.
  destruct c; cbn [Methods.reformulate_query] in Hrun;
    unfold Methods.genqr, Methods.genqr_ensemble, Methods.q2k, Methods.q2d,
      Methods.qa_expand, Methods.mugi, Methods.csqe, Methods.lamer in Hrun;
    inv_run Hrun; cbn [ReformulatedQuery.reformulated];
    try apply clean_printable;
    try (apply Hlower; apply clean_printable).
  (* MUGI: the adaptive composition returned *)
  apply M_lift_ok_inv in Hc2 as [Hadaptive _].
  unfold Base.concat_adaptive in Hadaptive.
  destruct (floordiv _ _) as [d|]; cbn in Hadaptive; [|done].
  destruct (floordiv d a0) as [q|]; cbn in Hadaptive; [|done].
  injection Hadaptive as <-. apply clean_printable.
Qed.

(** With [adaptive_ratio] set to 0 the multi-document strategy never
    returns a result: when all its requests succeed, the composition
    divides by zero. *)
Theorem mugi_zero_ratio self query contexts (w w' : W) rq :
  params self !! lit "adaptive_ratio" = Some (JInt 0) ->
  Methods.mugi chat_create str_format int_other self query contexts w ≠ (Ok rq, w').
Proof.
  intros Hratio Hrun. unfold Methods.mugi in Hrun. inv_run Hrun.
  unfold Methods.param_int in Hc0. rewrite Hratio in Hc0.
  apply M_lift_ok_inv in Hc0 as [[= <-] _].
  apply M_lift_ok_inv in Hc2 as [Hadaptive _].
  by rewrite concat_adaptive_zero_ratio in Hadaptive.
Qed.

Definition is_jstr (v : json) : bool :=
  match v with
  | JStr _ => true
  | _ => false
  end.

(** The answers that survive the cleaning step: the strings that are not
    blank, each normalised. *)
Fixpoint cleaned_answers (selected : list json) : list str :=
  match selected with
  | [] => []
  | JStr s :: t =>
      if bool_decide (strip s ≠ []) then Base._clean s :: cleaned_answers t
      else cleaned_answers t
  | _ :: t => cleaned_answers t
  end.

(** The cleaning step of the sub-question pipeline raises an
    [AttributeError] as soon as one selected answer is not a string (a
    number, a list, [null]...); on strings only, it drops the blank ones
    and normalises the others, in order. *)
Theorem clean_selected_strings_only (selected : list json) :
  Methods.clean_selected selected =
    if forallb is_jstr selected then Ok (cleaned_answers selected)
    else Raise AttributeError.
Proof.
  induction selected as [|a t IH]; [reflexivity|].
  cbn [Methods.clean_selected forallb cleaned_answers].
  destruct a; cbn; try reflexivity.
  rewrite IH. destruct (forallb is_jstr t); cbn; [|reflexivity].
  by destruct (bool_decide (strip s ≠ [])).
Qed.

(** When the sub-question strategy returns, its metadata holds the
    sub-questions, the answers and the kept indices; for a non-negative
    [num_subquestions] there are exactly that many sub-questions and
    answers, and every kept index is below it. *)
Theorem qa_expand_metadata self query contexts (w w' : W) rq :
  Methods.qa_expand chat_create str_format json_dumps int_other self query
    contexts w = (Ok rq, w') ->
  exists (n : Z) subquestions answers kept,
    Methods.py_int int_other
      (default (JInt 3) (params self !! lit "num_subquestions")) = Ok n
    /\ ReformulatedQuery.metadata rq
       = [(lit "subquestions", JList subquestions);
          (lit "answers", JList answers);
          (lit "kept_indices", JList (JInt <$> kept))]
    /\ Forall (fun i => 0 <= i < n) kept
    /\ (0 <= n -> len subquestions = n /\ len answers = n).
Proof.
  intros Hrun. unfold Methods.qa_expand in Hrun. inv_run Hrun.
  unfold Methods.param_int in Hc. apply M_lift_ok_inv in Hc as [Hn _].
  apply M_lift_ok_inv in Hc3 as [Hsq _].
  apply M_lift_ok_inv in Hc6 as [Hans _].
  apply M_lift_ok_inv in Hc9 as [Hkept _].
  exists a, a3, a6, a9. split; [exact Hn|]. split; [reflexivity|]. split.
  - rewrite extract_kept_eq in Hkept. injection Hkept as <-.
    apply Forall_forall. intros i Hi. apply py_range_elem.
    eapply elem_of_sublist; [exact Hi|apply kept_result_sublist].
  - intros Hpos. rewrite parse_list_eq in Hsq, Hans by done.
    injection Hsq as <-. injection Hans as <-.
    split; by apply parse_list_result_length.
Qed.

End ClientFacts.

(** A completion service that fails once and then answers. *)
Definition chat_flaky (model : str) (messages : list (str * str)) (n : Z)
    (w : nat) : res (list str) * nat :=
  match w with
  | O => (Raise RuntimeError, S w)
  | _ => (Ok (replicate (Z.to_nat n) (lit "  late answer ")), S w)
  end.

Lemma generate_returns_stripped_witness :
  Methods.generate chat_flaky Example.client [] 2 0%nat
    = (Ok (Some [lit "late answer"; lit "late answer"]), 2%nat)
  /\ Forall (fun s => strip s = s) [lit "late answer"; lit "late answer"].
Proof.
  split; [vm_compute; reflexivity|].
  exact (proj2 (generate_returns_stripped chat_flaky Example.client [] 2 0%nat 2%nat
                  [lit "late answer"; lit "late answer"] eq_refl)).
Defined.

Lemma generate_retries_witness :
  Methods.generate Example.chat_create
    {| model_id := lit "gpt-4.1"; max_retries := 0 |} [] 1 0%nat = (Ok None, 0%nat)
  /\ forall r w',
       Methods.generate Example.chat_down Example.client [] 1 0%nat = (Ok r, w') ->
       r ≠ None.
Proof.
  split.
  - exact (proj1 (proj2 (generate_retries Example.chat_create
             {| model_id := lit "gpt-4.1"; max_retries := 0 |} [] 1 0%nat)
             ltac:(cbn; lia))).
  - exact (proj1 (generate_retries Example.chat_down Example.client [] 1 0%nat)
             ltac:(cbn; lia)).
Defined.

Lemma generate_first_success_witness :
  1 <= max_retries Example.client
  /\ Methods.generate Example.chat_create Example.client [] 1 0%nat
     = (Ok (Some [lit "photovoltaic, energy"]), 1%nat).
Proof.
  split; [cbn; lia|].
  exact (generate_first_success Example.chat_create Example.client [] 1 0%nat 1%nat
           [lit "photovoltaic, energy"] ltac:(cbn; lia) eq_refl).
Defined.

Lemma render_keeps_roles_witness :
  Methods.render Example.str_format Example.bank (lit "no such prompt") []
    = Raise KeyError
  /\ exists rendered,
       Methods.render Example.str_format Example.bank (lit "q2k")
         [(lit "query", JStr (lit "solar panels"))] = Ok rendered
       /\ map fst rendered = [lit "user"].
Proof.
  split.
  - apply (proj1 (render_keeps_roles Example.str_format Example.bank
                    (lit "no such prompt") [])).
    vm_compute. reflexivity.
  - destruct (Methods.render Example.str_format Example.bank (lit "q2k")
                [(lit "query", JStr (lit "solar panels"))]) as [rendered|e] eqn:Hr;
      [|vm_compute in Hr; discriminate].
    exists rendered. split; [reflexivity|].
    destruct (proj2 (render_keeps_roles Example.str_format Example.bank (lit "q2k")
                       [(lit "query", JStr (lit "solar panels"))]) rendered Hr)
      as (template & Ht & Hroles & _).
    rewrite Hroles. vm_compute in Ht. injection Ht as <-. reflexivity.
Defined.

Definition batch (chat : str -> list (str * str) -> Z -> nat -> res (list str) * nat)
    (c : method) (queries : list Query.t) (w : nat)
    : res (list ReformulatedQuery.t) * nat :=
  Methods.reformulate_batch chat Example.str_format Example.json_dumps
    Example.str_lower Example.int_other Example.str_other c Example.self
    queries None w.

Lemma reformulate_batch_in_order_witness :
  exists results w',
    batch Example.chat_create Query2Keyword [Example.q1; Example.q2] 0%nat
      = (Ok results, w')
    /\ map ReformulatedQuery.qid results = [lit "q1"; lit "q2"].
Proof.
  destruct (batch Example.chat_create Query2Keyword [Example.q1; Example.q2] 0%nat)
    as [[results|e] w'] eqn:Hrun; [|vm_compute in Hrun; discriminate].
  exists results, w'. split; [reflexivity|].
  pose proof (reformulate_batch_in_order _ _ _ _ _ _ _ _ _ _ _ _ _ Hrun) as Hall.
  apply Forall2_cons_inv_l in Hall as (r1 & rs & [H1 _] & Hall & ->).
  apply Forall2_cons_inv_l in Hall as (r2 & rs' & [H2 _] & Hall & ->).
  apply Forall2_nil_inv_l in Hall as ->. cbn. by rewrite H1, H2.
Defined.

(** A service that answers the first query and fails on the second. *)
Definition chat_once (model : str) (messages : list (str * str)) (n : Z)
    (w : nat) : res (list str) * nat :=
  match w with
  | O => (Ok (replicate (Z.to_nat n) (lit "warming, emissions")), S w)
  | _ => (Raise RuntimeError, S w)
  end.

Lemma reformulate_batch_aborts_witness :
  batch chat_once Query2Keyword [Example.q1; Example.q2; Example.q1] 0%nat
    = (Raise RuntimeError, 4%nat).
Proof.
  destruct (batch chat_once Query2Keyword [Example.q1] 0%nat)
    as [[made|e] w1] eqn:Hmade; [|vm_compute in Hmade; discriminate].
  assert (w1 = 1%nat) as -> by (vm_compute in Hmade; by injection Hmade as _ <-).
  exact (reformulate_batch_aborts chat_once Example.str_format Example.json_dumps
           Example.str_lower Example.int_other Example.str_other Query2Keyword
           Example.self [Example.q1] Example.q2 [Example.q1] None 0%nat 1%nat 4%nat
           made RuntimeError Hmade eq_refl).
Defined.

Lemma reformulated_single_line_witness :
  exists rq w',
    Example.reformulate CSQEM Example.q1 0%nat = (Ok rq, w')
    /\ Forall printable (ReformulatedQuery.reformulated rq).
Proof.
  destruct (Example.reformulate CSQEM Example.q1 0%nat) as [[rq|e] w'] eqn:Hrun;
    [|vm_compute in Hrun; discriminate].
  exists rq, w'. split; [reflexivity|].
  exact (reformulated_single_line Example.chat_create Example.str_format
           Example.json_dumps Example.str_lower Example.int_other
           Example.str_other CSQEM Example.self Example.q1 None 0%nat w' rq
           (fun s H => H) Hrun).
Defined.

Lemma mugi_zero_ratio_witness :
  Methods.mugi Example.chat_create Example.str_format Example.int_other
    {| llm := Example.client; prompts := Example.bank;
       params := {[ lit "adaptive_ratio" := JInt 0 ]} |}
    Example.q1 None 0%nat
  = (Raise ZeroDivisionError, 5%nat).
Proof.
  destruct (Methods.mugi Example.chat_create Example.str_format Example.int_other
              {| llm := Example.client; prompts := Example.bank;
                 params := {[ lit "adaptive_ratio" := JInt 0 ]} |}
              Example.q1 None 0%nat) as [[rq|e] w'] eqn:Hrun.
  - exfalso. eapply (mugi_zero_ratio Example.chat_create Example.str_format
                       Example.int_other); [|exact Hrun].
    vm_compute. reflexivity.
  - vm_compute in Hrun. by injection Hrun as <- <-.
Defined.

Lemma qa_expand_metadata_witness :
  exists rq w',
    Example.reformulate QAExpandM Example.q1 0%nat = (Ok rq, w')
    /\ exists subquestions answers kept,
         ReformulatedQuery.metadata rq
           = [(lit "subquestions", JList subquestions);
              (lit "answers", JList answers);
              (lit "kept_indices", JList (JInt <$> kept))]
         /\ len answers = 3.
Proof.
  destruct (Example.reformulate QAExpandM Example.q1 0%nat) as [[rq|e] w'] eqn:Hrun;
    [|vm_compute in Hrun; discriminate].
  exists rq, w'. split; [reflexivity|].
  destruct (qa_expand_metadata Example.chat_create Example.str_format
              Example.json_dumps Example.int_other Example.self Example.q1 None
              0%nat w' rq Hrun) as (n & sq & ans & kept & Hn & Hmeta & _ & Hlen).
  vm_compute in Hn. injection Hn as <-.
  exists sq, ans, kept. split; [exact Hmeta|]. apply Hlen. lia.
Defined.

(** ** More on evaluation and on the steps of the pipeline *)

Section PipelineExtras.
Context {W F : Type}.
Variable subprocess_run : list str -> W -> res completed * W.
Variable mkdir : str -> W -> res unit * W.
Variable path_exists : str -> W -> bool.
Variable nan : F.
Variable py_float : str -> option F.

#[local] Existing Instance Pipeline.M_ret.
#[local] Existing Instance Pipeline.M_bind.

Local Abbreviation evaluate := (Pipeline.evaluate subprocess_run nan py_float).
Local Abbreviation evaluate_metric :=
  (Pipeline.evaluate_metric subprocess_run nan py_float).
Local Abbreviation run_retrieval := (Pipeline.run_retrieval subprocess_run mkdir).
Local Abbreviation retrieve_one :=
  (Pipeline.retrieve_one subprocess_run mkdir path_exists).
Local Abbreviation evaluate_one :=
  (Pipeline.evaluate_one subprocess_run path_exists nan py_float).
Local Abbreviation retrieve_and_evaluate :=
  (Pipeline.retrieve_and_evaluate subprocess_run mkdir path_exists nan py_float).

Lemma P_bind_ok_inv {A B} (c : Pipeline.M (W:=W) A) (k : A -> Pipeline.M B) s b s' :
  mbind k c s = (Ok b, s') ->
  exists a s1, c s = (Ok a, s1) /\ k a s1 = (Ok b, s').
Proof.
  unfold mbind, Pipeline.M_bind. destruct (c s) as [[a|e] s1]; [eauto|].
  intros [=].
Qed.

(** *** [evaluate] *)

Lemma scan_output_other (metric out : str) (results : gmap (list N) F) (key : str) :
  key ≠ metric ->
  Pipeline.scan_output py_float metric out results !! key = results !! key.
Proof.
  intros Hne. unfold Pipeline.scan_output.
  generalize (splitlines (strip out)). intros lines. revert results.
  induction lines as [|line lines IH]; intros results; [reflexivity|].
  cbn [foldl]. rewrite IH.
  destruct (split_ws line) as [|p0 [|p1 [|p2 rest]]]; try reflexivity.
  destruct (bool_decide (p1 = lit "all")); [|reflexivity].
  destruct (py_float p2); [|reflexivity]. by rewrite lookup_insert_ne.
Qed.

Lemma evaluate_metric_other targs qrels run_file results metric
    (s s' : W * list event) results' key :
  evaluate_metric targs qrels run_file results metric s = (Ok results', s') ->
  key ≠ metric -> results' !! key = results !! key.
Proof.
  intros Hrun Hne. unfold Pipeline.evaluate_metric in Hrun.
  apply P_bind_ok_inv in Hrun as (cmd & s1 & _ & Hrun).
  apply P_bind_ok_inv in Hrun as (proc & s2 & _ & Hrun).
  destruct (negb (returncode proc =? 0)).
  - apply P_bind_ok_inv in Hrun as (u & s3 & _ & Hrun).
    injection Hrun as <- _. by rewrite lookup_insert_ne.
  - injection Hrun as <- _. by apply scan_output_other.
Qed.

Lemma foldM_metrics_keys targs qrels run_file metrics results
    (s s' : W * list event) results' key :
  Pipeline.foldM (evaluate_metric targs qrels run_file) results metrics s
    = (Ok results', s') ->
  key ∉ metrics -> results' !! key = results !! key.
Proof.
  revert results s. induction metrics as [|m metrics IH]; intros results s Hrun Hkey.
  - cbn in Hrun. by injection Hrun as <- _.
  - cbn [Pipeline.foldM] in Hrun.
    apply P_bind_ok_inv in Hrun as (r1 & s1 & Hm & Hrun).
    apply not_elem_of_cons in Hkey as [Hne Hkey].
    rewrite (IH _ _ Hrun Hkey). by eapply evaluate_metric_other.
Qed.

(** [evaluate] reports requested metrics only: every key of the mapping
    it returns is one of the metrics asked for (those of the dataset when
    none is given). *)
Theorem evaluate_reports_requested run_file dataset qrels_path metrics
    (s s' : W * list event) results key value :
  evaluate run_file dataset qrels_path metrics s = (Ok results, s') ->
  results !! key = Some value ->
  exists cfg,
    DATASETS !! dataset = Some cfg
    /\ key ∈ default (eval_metrics cfg) metrics.
Proof.
  intros Hrun Hkey. unfold Pipeline.evaluate in Hrun.
  apply P_bind_ok_inv in Hrun as (cfg & s1 & Hcfg & Hrun).
  unfold Pipeline.lift in Hcfg.
  destruct (DATASETS !! dataset) as [cfg'|] eqn:Hds; [|done].
  injection Hcfg as -> <-. exists cfg. split; [reflexivity|].
  destruct (decide (key ∈ default (eval_metrics cfg) metrics)) as [|Hnot]; [done|].
  rewrite (foldM_metrics_keys _ _ _ _ _ _ _ _ _ Hrun Hnot), lookup_empty in Hkey.
  done.
Qed.

(** An unknown dataset name fails at once with a [KeyError], in [evaluate]
    and in [run_retrieval], and so does an unknown retriever name: no
    directory is made, no process is run, nothing is printed. *)
Theorem unknown_names_fail_fast (s : W * list event) :
  (forall run_file dataset qrels_path metrics,
     DATASETS !! dataset = None ->
     evaluate run_file dataset qrels_path metrics s = (Raise KeyError, s))
  /\ (forall q dataset retriever out h t b rq qp,
        DATASETS !! dataset = None \/ RETRIEVER_CONFIGS !! retriever = None ->
        run_retrieval q dataset retriever out h t b rq qp s = (Raise KeyError, s)).
Proof.
  split.
  - intros run_file dataset qrels_path metrics Hds.
    unfold Pipeline.evaluate, mbind, Pipeline.M_bind, Pipeline.lift.
    by rewrite Hds.
  - intros q dataset retriever out h t b rq qp Hcase.
    unfold Pipeline.run_retrieval, mbind, Pipeline.M_bind, Pipeline.lift.
    destruct (DATASETS !! dataset); [|done].
    destruct Hcase as [|Hret]; [done|]. by rewrite Hret.
Qed.

Lemma argv_none (pre : list str) (rest : list (option str)) :
  Pipeline.argv ((Some <$> pre) ++ None :: rest) = Raise TypeError.
Proof.
  unfold Pipeline.argv. induction pre as [|p pre IH]; [reflexivity|].
  cbn. cbn in IH. by rewrite IH.
Qed.

(** A dataset without judgment file ([dlhard], whose [qrels] entry is
    [None]) cannot be evaluated unless a path is given: the command holds
    [None], and [subprocess.run] raises a [TypeError] before any process
    starts. *)
Theorem evaluate_without_qrels run_file dataset cfg metric metrics
    (s : W * list event) :
  DATASETS !! dataset = Some cfg ->
  qrels cfg = None ->
  evaluate run_file dataset None (Some (metric :: metrics)) s = (Raise TypeError, s).
Proof.
  intros Hds Hq.
  assert (forall targs results,
            evaluate_metric targs None run_file results metric s
              = (Raise TypeError, s)) as Hmetric.
  { intros targs results.
    unfold Pipeline.evaluate_metric, mbind, Pipeline.M_bind, Pipeline.lift.
    by rewrite argv_none. }
  unfold Pipeline.evaluate, mbind, Pipeline.M_bind, Pipeline.lift.
  rewrite Hds, Hq.
  change (default (eval_metrics cfg) (Some (metric :: metrics)))
    with (metric :: metrics).
  cbn [Pipeline.foldM]. unfold mbind, Pipeline.M_bind. by rewrite Hmetric.
Qed.

(** The name handed to the evaluator has the first underscore of the
    metric replaced by a dot, and only the first. *)
Definition trec_name (metric : str) : str :=
  if contains (lit "_") metric then replace_first (lit "_") (lit ".") metric
  else metric.

Lemma replace_first_found (a b : str) :
  Forall (fun x => x ≠ 95%N) a ->
  replace_first (lit "_") (lit ".") (a ++ lit "_" ++ b) = a ++ lit "." ++ b.
Proof.
  induction a as [|x a IH]; intros Ha; [reflexivity|].
  apply Forall_cons in Ha as [Hx Ha]. cbn [app replace_first startswith].
  change (lit "_") with [95%N] in *. cbn [startswith].
  destruct (N.eqb_spec 95 x) as [<-|_]; [done|]. cbn [andb].
  f_equal. by apply IH.
Qed.

Theorem trec_name_first_underscore (a b : str) :
  Forall (fun x => x ≠ 95%N) a ->
  trec_name (a ++ lit "_" ++ b) = a ++ lit "." ++ b
  /\ (forall targs qrels run_file (results : gmap (list N) F) cmd proc
             (s s' : W * list event),
        Pipeline.argv
          ((Some <$> [lit "python"; lit "-m"; lit "pyserini.eval.trec_eval"]
              ++ targs ++ [lit "-m"; a ++ lit "." ++ b])
           ++ [qrels; Some run_file]) = Ok cmd ->
        Pipeline.run subprocess_run cmd s = (Ok proc, s') ->
        returncode proc ≠ 0 ->
        evaluate_metric targs qrels run_file results (a ++ lit "_" ++ b) s
          = (Ok (<[a ++ lit "_" ++ b := nan]> results),
             (s'.1, s'.2 ++ [EvEvalWarn (a ++ lit "." ++ b)]))).
Proof.
  intros Ha.
  assert (trec_name (a ++ lit "_" ++ b) = a ++ lit "." ++ b) as Hname.
  { unfold trec_name.
    assert (contains (lit "_") (a ++ lit "_" ++ b) = true) as ->
      by (apply contains_spec; eauto).
    by apply replace_first_found. }
  split; [exact Hname|].
  intros targs qrels run_file results cmd proc s s' Hcmd Hrun Hrc.
  unfold Pipeline.evaluate_metric. fold (trec_name (a ++ lit "_" ++ b)).
  rewrite Hname. unfold mbind, Pipeline.M_bind, Pipeline.lift.
  rewrite Hcmd, Hrun.
  destruct (Z.eqb_spec (returncode proc) 0) as [?|_]; [done|]. reflexivity.
Qed.

(** *** The steps of [main] *)

Lemma evaluate_one_effect qr c all ret (s : W * list event) all' s' :
  evaluate_one qr c all ret s = (Ok all', s') ->
  all' = all \/ exists m, all' = <[Pipeline.result_key c ret := m]> all.
Proof.
  destruct (path_exists (Pipeline.run_file_of c ret) s.1) eqn:Hex.
  - destruct (Pipeline.evaluation_call subprocess_run nan py_float qr c ret s)
      as [[m|e] s1] eqn:Hcall.
    + erewrite evaluate_one_return by done. intros [= <- _]. eauto.
    + erewrite evaluate_one_raise by done. intros [= <- _]. eauto.
  - rewrite evaluate_one_absent by done. intros [= <- _]. eauto.
Qed.

Lemma foldM_evaluate_frame qr c rets all (s : W * list event) all' s' :
  Pipeline.foldM (evaluate_one qr c) all rets s = (Ok all', s') ->
  (forall key, (forall r, r ∈ rets -> key ≠ Pipeline.result_key c r) ->
     all' !! key = all !! key)
  /\ (forall key, is_Some (all !! key) -> is_Some (all' !! key)).
Proof.
  revert all s. induction rets as [|r rets IH]; intros all s Hrun.
  - cbn in Hrun. injection Hrun as <- _. done.
  - cbn [Pipeline.foldM] in Hrun.
    apply P_bind_ok_inv in Hrun as (all1 & s1 & Hone & Hrun).
    destruct (IH _ _ Hrun) as [IH1 IH2].
    apply evaluate_one_effect in Hone as [->|[m ->]].
    + split.
      * intros key Hkey. apply IH1. intros r' Hr'. apply Hkey. by right.
      * exact IH2.
    + split.
      * intros key Hkey. rewrite IH1 by (intros r' Hr'; apply Hkey; by right).
        apply lookup_insert_ne. intros Heq. by eapply (Hkey r); [left|].
      * intros key Hkey. apply IH2.
        destruct (decide (Pipeline.result_key c r = key)) as [->|Hne].
        -- rewrite lookup_insert_eq. eauto.
        -- by rewrite lookup_insert_ne.
Qed.


(** A second pass over run files that all exist runs no retrieval: the
    world is left as it is, and one [CACHED] line is printed per
    retriever. *)
Theorem cached_retrieval_is_skipped ret_cfg c rets (s : W * list event) :
  (forall r, r ∈ rets -> path_exists (Pipeline.run_file_of c r) s.1 = true) ->
  Pipeline.forM_ rets (retrieve_one ret_cfg c) s
    = (Ok (), (s.1, s.2 ++ map (fun r => EvCached (Pipeline.run_file_of c r)) rets)).
Proof.
  revert s. induction rets as [|r rets IH]; intros s Hall.
  - cbn. rewrite app_nil_r. by destruct s.
  - cbn [Pipeline.forM_ map]. unfold mbind, Pipeline.M_bind.
    rewrite retrieve_one_cached by (apply Hall; by left).
    rewrite IH by (intros r' Hr'; apply Hall; by right).
    cbn [fst snd]. by rewrite <- app_assoc.
Qed.

End PipelineExtras.

Lemma evaluate_reports_requested_witness :
  exists results s',
    ExampleRun.evaluate_with ExampleRun.good_report [lit "ndcg_cut_10"]
      = (Ok results, s')
    /\ forall key value, results !! key = Some value -> key = lit "ndcg_cut_10".
Proof.
  destruct (ExampleRun.evaluate_with ExampleRun.good_report [lit "ndcg_cut_10"])
    as [[results|e] s'] eqn:Hrun; [|vm_compute in Hrun; discriminate].
  exists results, s'. split; [reflexivity|]. intros key value Hkey.
  unfold ExampleRun.evaluate_with in Hrun.
  destruct (evaluate_reports_requested _ _ _ _ _ _ _ _ _ _ _ _ Hrun Hkey)
    as (cfg & _ & Hin).
  cbn in Hin. by apply list_elem_of_singleton in Hin.
Defined.

Lemma unknown_names_fail_fast_witness :
  Pipeline.evaluate (ExampleRun.subprocess_run false ExampleRun.good_report)
    ExampleRun.Nan ExampleRun.py_float (lit "run") (lit "msmarco") None None ([], [])
    = (Raise KeyError, ([], []))
  /\ Pipeline.run_retrieval (ExampleRun.subprocess_run false ExampleRun.good_report)
       ExampleRun.mkdir (lit "q.tsv") (lit "dl19") (lit "colbert") (lit "runs/x.run")
       1000 16 512 false [] ([], [])
     = (Raise KeyError, ([], [])).
Proof.
  split.
  - apply (proj1 (unknown_names_fail_fast
                    (ExampleRun.subprocess_run false ExampleRun.good_report)
                    ExampleRun.mkdir ExampleRun.Nan ExampleRun.py_float ([], []))).
    vm_compute. reflexivity.
  - apply (proj2 (unknown_names_fail_fast
                    (ExampleRun.subprocess_run false ExampleRun.good_report)
                    ExampleRun.mkdir ExampleRun.Nan ExampleRun.py_float ([], []))).
    right. vm_compute. reflexivity.
Defined.

Lemma evaluate_without_qrels_witness :
  Pipeline.evaluate (ExampleRun.subprocess_run false ExampleRun.good_report)
    ExampleRun.Nan ExampleRun.py_float (lit "runs/dlhard.bm25.run") (lit "dlhard")
    None (Some [lit "ndcg_cut_10"]) ([], [])
  = (Raise TypeError, ([], [])).
Proof.
  eapply evaluate_without_qrels; vm_compute; reflexivity.
Defined.

Lemma trec_name_first_underscore_witness :
  trec_name (lit "ndcg_cut_10") = lit "ndcg.cut_10"
  /\ trec_name (lit "recall_100") = lit "recall.100".
Proof.
  split.
  - refine (proj1 (trec_name_first_underscore
              (ExampleRun.subprocess_run false ExampleRun.good_report)
              ExampleRun.Nan ExampleRun.py_float (lit "ndcg") (lit "cut_10") _)).
    apply (bool_decide_unpack _). vm_compute. exact I.
  - refine (proj1 (trec_name_first_underscore
              (ExampleRun.subprocess_run false ExampleRun.good_report)
              ExampleRun.Nan ExampleRun.py_float (lit "recall") (lit "100") _)).
    apply (bool_decide_unpack _). vm_compute. exact I.
Defined.


Lemma cached_retrieval_is_skipped_witness :
  Pipeline.forM_ [ExampleRun.A; ExampleRun.B]
    (Pipeline.retrieve_one (ExampleRun.subprocess_run false ExampleRun.good_report)
       ExampleRun.mkdir ExampleRun.path_exists ExampleRun.ret_cfg ExampleRun.cell)
    ([Pipeline.run_file_of ExampleRun.cell ExampleRun.A;
      Pipeline.run_file_of ExampleRun.cell ExampleRun.B], [])
  = (Ok (),
     ([Pipeline.run_file_of ExampleRun.cell ExampleRun.A;
       Pipeline.run_file_of ExampleRun.cell ExampleRun.B],
      [EvCached (Pipeline.run_file_of ExampleRun.cell ExampleRun.A);
       EvCached (Pipeline.run_file_of ExampleRun.cell ExampleRun.B)])).
Proof.
  apply (cached_retrieval_is_skipped
           (ExampleRun.subprocess_run false ExampleRun.good_report)
           ExampleRun.mkdir ExampleRun.path_exists ExampleRun.ret_cfg
           ExampleRun.cell [ExampleRun.A; ExampleRun.B]).
  intros r Hr. apply list_elem_of_In in Hr. cbn in Hr.
  destruct Hr as [<-|[<-|[]]]; vm_compute; reflexivity.
Defined.

(** ** Query files: [load_queries_tsv], [_read_tsv], [save_queries_tsv] *)

Section QueryFiles.

Implicit Types s a b line content : str.

#[local] Arguments strip : simpl never.

(** A text without a line end. *)
Definition one_line (s : str) : Prop :=
  Forall (fun c => c ≠ ch_lf /\ c ≠ ch_cr) s.

(** A text without a tab. *)
Definition tab_free (s : str) : Prop := Forall (fun c => c ≠ ch_tab) s.

Lemma cut_Some sep s a b :
  cut sep s = Some (a, b) -> s = a ++ sep :: b /\ Forall (fun c => c ≠ sep) a.
Proof.
  revert a. induction s as [|c t IH]; intros a; cbn; [done|].
  destruct (N.eqb_spec c sep) as [->|Hne].
  - intros [= <- <-]. by split.
  - destruct (cut sep t) as [[a' b']|]; [|done].
    intros [= <- <-]. destruct (IH a' eq_refl) as [-> Ha].
    split; [done|]. by constructor.
Qed.

Lemma cut_app sep a b :
  Forall (fun c => c ≠ sep) a -> cut sep (a ++ sep :: b) = Some (a, b).
Proof.
  induction 1 as [|c a Hc _ IH]; cbn.
  - by rewrite N.eqb_refl.
  - destruct (N.eqb_spec c sep); [done|]. by rewrite IH.
Qed.

Lemma lstrip_by_app p s t :
  lstrip_by p (s ++ t) = if forallb p s then lstrip_by p t else lstrip_by p s ++ t.
Proof.
  induction s as [|c s IH]; cbn; [done|].
  destruct (p c); cbn; [exact IH|done].
Qed.

Lemma lstrip_by_all p s : forallb p s = true -> lstrip_by p s = [].
Proof.
  induction s as [|c s IH]; cbn; [done|].
  destruct (p c); cbn; [exact IH|done].
Qed.

Lemma rstrip_by_snoc p s c : p c = true -> rstrip_by p (s ++ [c]) = rstrip_by p s.
Proof.
  intros Hc. induction s as [|x s IH]; cbn.
  - by rewrite Hc.
  - by rewrite IH.
Qed.

Lemma strip_by_snoc p s c : p c = true -> strip_by p (s ++ [c]) = strip_by p s.
Proof.
  intros Hc. unfold strip_by. rewrite lstrip_by_app.
  destruct (forallb p s) eqn:Hall.
  - rewrite (lstrip_by_all p s Hall). cbn. by rewrite Hc.
  - by apply rstrip_by_snoc.
Qed.

Lemma strip_nonempty_head s :
  s ≠ [] -> strip s = s -> exists x t, s = x :: t /\ isspace x = false.
Proof.
  intros Hne Hs. destruct s as [|x t]; [done|]. exists x, t. split; [done|].
  apply (strip_head_nonspace (x :: t)). by rewrite Hs.
Qed.

Lemma strip_nonempty_last s :
  s ≠ [] -> strip s = s -> exists x, last s = Some x /\ isspace x = false.
Proof.
  intros Hne Hs. destruct (last s) as [x|] eqn:Hl.
  - exists x. split; [done|]. apply (strip_last_nonspace s). by rewrite Hs.
  - by apply last_None in Hl.
Qed.

(** *** Lines of a file *)

Lemma file_lines_aux_row cur body rest :
  one_line body ->
  file_lines_aux cur (body ++ ch_cr :: ch_lf :: rest)
  = (rev cur ++ body ++ [ch_lf]) :: file_lines_aux [] rest.
Proof.
  intros Hbody. revert cur. induction Hbody as [|c body [Hlf Hcr] _ IH]; intros cur.
  - done.
  - cbn [app file_lines_aux].
    destruct (N.eqb_spec c ch_lf) as [?|_]; [done|].
    destruct (N.eqb_spec c ch_cr) as [?|_]; [done|].
    rewrite IH. cbn [rev]. by rewrite <- app_assoc.
Qed.

Definition line_shape (l : str) : Prop :=
  exists body, one_line body /\ (l = body \/ l = body ++ [ch_lf]).

Lemma file_lines_aux_shape n cur s :
  (length s <= n)%nat -> one_line cur ->
  Forall line_shape (file_lines_aux cur s).
Proof.
  revert cur s. induction n as [|n IH]; intros cur s Hn Hcur.
  - destruct s; [|cbn in Hn; lia]. cbn. destruct cur; constructor; [|constructor].
    exists (rev (n :: cur)). split; [|by left]. by apply Forall_rev.
  - destruct s as [|c t]; cbn [file_lines_aux].
    + destruct cur; constructor; [|constructor].
      exists (rev (n0 :: cur)). split; [|by left]. by apply Forall_rev.
    + cbn in Hn.
      assert (line_shape (rev (ch_lf :: cur))) as Hline.
      { exists (rev cur). split; [by apply Forall_rev|]. by right. }
      destruct (N.eqb_spec c ch_lf) as [->|Hlf].
      { constructor; [done|]. apply IH; [lia|constructor]. }
      destruct (N.eqb_spec c ch_cr) as [->|Hcr].
      { constructor; [done|]. destruct t as [|d t'].
        - apply IH; [cbn; lia|constructor].
        - destruct (d =? ch_lf)%N; (apply IH; [cbn in *; lia|constructor]). }
      apply IH; [lia|]. by constructor.
Qed.

Lemma file_lines_shape content : Forall line_shape (file_lines content).
Proof. by apply (file_lines_aux_shape (length content)); [|constructor]. Qed.

Lemma strip_line_shape line : line_shape line -> one_line (strip line).
Proof.
  intros (body & Hbody & [->| ->]).
  - by apply strip_by_Forall.
  - unfold strip. rewrite strip_by_snoc by done. by apply strip_by_Forall.
Qed.

(** *** The two readers *)

(** What a line contributes: nothing, or the two fields around its first
    tab. *)
Definition fields_of (line : str) : option (str * str) := cut ch_tab (strip line).

Lemma read_line_eq pairs line :
  Retrieval.read_line pairs line
  = pairs ++ match fields_of line with Some ab => [ab] | None => [] end.
Proof.
  unfold Retrieval.read_line, fields_of, split_once.
  destruct (cut ch_tab (strip line)) as [[a b]|]; [done|].
  by rewrite app_nil_r.
Qed.

Definition query_of (ab : str * str) : option Query.t :=
  if bool_decide (strip ab.2 ≠ []) then Some (Query.mk (strip ab.1) (strip ab.2))
  else None.

Lemma load_line_eq queries line :
  Data.load_line queries line
  = queries ++ match fields_of line ≫= query_of with Some q => [q] | None => [] end.
Proof.
  unfold Data.load_line, fields_of, split_once, query_of.
  case_bool_decide as Hline.
  - rewrite Hline. cbn. by rewrite app_nil_r.
  - destruct (cut ch_tab (strip line)) as [[a b]|]; cbn; [|by rewrite app_nil_r].
    case_bool_decide; [done|by rewrite app_nil_r].
Qed.

Lemma read_tsv_omap lines pairs :
  foldl Retrieval.read_line pairs lines = pairs ++ omap fields_of lines.
Proof.
  revert pairs. induction lines as [|l lines IH]; intros pairs; cbn [foldl omap].
  - by rewrite app_nil_r.
  - rewrite IH, read_line_eq, <- app_assoc. f_equal.
    cbn. by destruct (fields_of l).
Qed.

Lemma load_tsv_omap lines queries :
  foldl Data.load_line queries lines
  = queries ++ omap (fun l => fields_of l ≫= query_of) lines.
Proof.
  revert queries. induction lines as [|l lines IH]; intros queries; cbn [foldl omap].
  - by rewrite app_nil_r.
  - rewrite IH, load_line_eq, <- app_assoc. f_equal.
    cbn. by destruct (fields_of l ≫= query_of).
Qed.

Lemma omap_omap {A B C} (f : A -> option B) (g : B -> option C) (l : list A) :
  omap g (omap f l) = omap (fun x => f x ≫= g) l.
Proof.
  induction l as [|x l IH]; cbn; [done|].
  destruct (f x) as [y|]; cbn; [|done].
  destruct (g y); cbn; by rewrite IH.
Qed.

(** The queries that [load_queries_tsv] reads are the pairs that
    [_read_tsv] reads from the same file, each field stripped of the white
    space around it, without the pairs whose text is blank. The identifier
    under which the contexts of a query are stored is thus the one the
    query carries only up to white space next to the tab. *)
Theorem load_queries_of_read_tsv (content : str) :
  Data.load_queries_tsv content
  = omap (fun ab : str * str =>
            if bool_decide (strip ab.2 ≠ [])
            then Some (Query.mk (strip ab.1) (strip ab.2))
            else None)
         (Retrieval._read_tsv content).
Proof.
  unfold Data.load_queries_tsv, Retrieval._read_tsv.
  rewrite load_tsv_omap, read_tsv_omap. cbn [app].
  by rewrite omap_omap.
Qed.

(** Every query that [load_queries_tsv] reads has a non-empty identifier
    without a tab and a non-empty text, both on one line and with no white
    space around them. *)
Theorem load_queries_well_formed (content : str) (q : Query.t) :
  q ∈ Data.load_queries_tsv content ->
  Query.qid q ≠ [] /\ tab_free (Query.qid q) /\ Query.text q ≠ []
  /\ strip (Query.qid q) = Query.qid q /\ strip (Query.text q) = Query.text q
  /\ one_line (Query.qid q) /\ one_line (Query.text q).
Proof.
  unfold Data.load_queries_tsv. rewrite load_tsv_omap. cbn [app].
  intros Hq. apply list_elem_of_omap in Hq as (line & Hline & Hq).
  assert (one_line (strip line)) as Hone.
  { apply strip_line_shape.
    exact (proj1 (Forall_forall _ _) (file_lines_shape content) _ Hline). }
  unfold fields_of in Hq.
  destruct (cut ch_tab (strip line)) as [[a b]|] eqn:Hcut; [|done].
  cbn in Hq. unfold query_of in Hq. cbn in Hq.
  case_bool_decide as Hb; [|done]. injection Hq as <-. cbn.
  apply cut_Some in Hcut as [Heq Ha].
  rewrite Heq in Hone. apply Forall_app in Hone as [Hone_a Hone_b].
  apply Forall_cons in Hone_b as [_ Hone_b].
  assert (exists x a', a = x :: a' /\ isspace x = false) as (x & a' & -> & Hx).
  { destruct a as [|x a'].
    - exfalso. pose proof (strip_head_nonspace line ch_tab) as Hh.
      rewrite Heq in Hh. by specialize (Hh eq_refl).
    - exists x, a'. split; [done|].
      apply (strip_head_nonspace line). by rewrite Heq. }
  assert (strip (x :: a') ≠ []) as Hne.
  { unfold strip, strip_by. cbn [lstrip_by]. rewrite Hx. cbn [rstrip_by].
    destruct (rstrip_by isspace a'); [by rewrite Hx|done]. }
  repeat split; try done.
  - by apply strip_by_Forall.
  - apply strip_idempotent.
  - apply strip_idempotent.
  - by apply strip_by_Forall.
  - by apply strip_by_Forall.
Qed.

(** *** Saving, then loading *)

Lemma save_queries_foldl queries f :
  foldl (fun f q =>
           match q with
           | Data.RowQuery q =>
               f ++ Csv.writerow ch_tab
                      [ReformulatedQuery.qid q; ReformulatedQuery.reformulated q]
           | Data.RowTuple fields => f ++ Csv.writerow ch_tab fields
           end) f queries
  = f ++ Data.save_queries_tsv queries.
Proof.
  unfold Data.save_queries_tsv. revert f.
  induction queries as [|q queries IH]; intros f; cbn [foldl].
  - by rewrite app_nil_r.
  - destruct q as [q|fields].
    + rewrite (IH (f ++ _)), (IH ([] ++ _)). cbn [app]. by rewrite app_assoc.
    + rewrite (IH (f ++ _)), (IH ([] ++ _)). cbn [app]. by rewrite app_assoc.
Qed.

Lemma save_queries_cons q queries :
  Data.save_queries_tsv (Data.RowQuery q :: queries)
  = Csv.writerow ch_tab [ReformulatedQuery.qid q; ReformulatedQuery.reformulated q]
      ++ Data.save_queries_tsv queries.
Proof.
  unfold Data.save_queries_tsv at 1. cbn [foldl].
  by rewrite save_queries_foldl.
Qed.

(** A field the writer leaves as it is. *)
Definition plain (s : str) : Prop :=
  Forall (fun c => Csv.special ch_tab c = false) s.

Lemma plain_format s : plain s -> Csv.format_field ch_tab s = s.
Proof.
  intros Hs. unfold Csv.format_field.
  replace (existsb (Csv.special ch_tab) s) with false; [done|].
  symmetry. induction Hs as [|c s Hc _ IH]; cbn; [done|]. by rewrite Hc.
Qed.

Lemma special_false c :
  Csv.special ch_tab c = false ->
  c ≠ ch_tab /\ c ≠ ch_dquote /\ c ≠ ch_cr /\ c ≠ ch_lf.
Proof.
  unfold Csv.special. rewrite !orb_false_iff, !N.eqb_neq. tauto.
Qed.

Lemma plain_one_line s : plain s -> one_line s.
Proof.
  intros Hs. eapply Forall_impl; [exact Hs|].
  intros c Hc. apply special_false in Hc. cbn beta. tauto.
Qed.

Lemma plain_tab_free s : plain s -> tab_free s.
Proof.
  intros Hs. eapply Forall_impl; [exact Hs|].
  intros c Hc. apply special_false in Hc. cbn beta. tauto.
Qed.

Lemma quoted_one_line s : one_line s -> one_line (Csv.quoted s).
Proof.
  intros Hs. unfold Csv.quoted, one_line.
  apply Forall_app. split; [by repeat constructor|].
  apply Forall_app. split; [|by repeat constructor].
  apply Forall_flat_map. eapply Forall_impl; [exact Hs|].
  intros c Hc. cbn beta.
  destruct (c =? ch_dquote)%N; repeat (apply Forall_cons_2; [done|]); constructor.
Qed.

Lemma quoted_stripped s : strip (Csv.quoted s) = Csv.quoted s.
Proof.
  apply strip_by_id.
  - unfold Csv.quoted. cbn. by intros x [= <-].
  - unfold Csv.quoted. rewrite app_assoc, last_snoc. by intros x [= <-].
Qed.

Lemma format_one_line s : one_line s -> one_line (Csv.format_field ch_tab s).
Proof.
  intros Hs. unfold Csv.format_field.
  destruct (existsb _ s); [by apply quoted_one_line|done].
Qed.

Lemma format_stripped s :
  strip s = s -> strip (Csv.format_field ch_tab s) = Csv.format_field ch_tab s.
Proof.
  intros Hs. unfold Csv.format_field.
  destruct (existsb _ s); [apply quoted_stripped|done].
Qed.

Lemma format_nonempty s : s ≠ [] -> Csv.format_field ch_tab s ≠ [].
Proof.
  intros Hs. unfold Csv.format_field. by destruct (existsb _ s).
Qed.

(** A line [a TAB b LF] whose fields carry no white space around them
    reads back as the fields. *)
Lemma fields_of_row a b :
  a ≠ [] -> b ≠ [] -> tab_free a -> strip a = a -> strip b = b ->
  fields_of (a ++ [ch_tab] ++ b ++ [ch_lf]) = Some (a, b).
Proof.
  intros Ha Hb Htab Hsa Hsb. unfold fields_of.
  replace (a ++ [ch_tab] ++ b ++ [ch_lf]) with ((a ++ ch_tab :: b) ++ [ch_lf])
    by (by rewrite <- !app_assoc).
  unfold strip. rewrite strip_by_snoc by done.
  rewrite strip_by_id.
  - by apply cut_app.
  - destruct (strip_nonempty_head a Ha Hsa) as (x & t & -> & Hx).
    cbn. by intros ? [= <-].
  - destruct (strip_nonempty_last b Hb Hsb) as (x & Hl & Hx).
    destruct b as [|y b]; [done|].
    rewrite last_app_cons, last_cons_cons, Hl. by intros z [= <-].
Qed.

(** A query that can be written as a line of the file: an identifier the
    writer leaves as it is, a text on one line, neither of them empty nor
    with white space around it. *)
Definition storable (q : ReformulatedQuery.t) : Prop :=
  ReformulatedQuery.qid q ≠ [] /\ plain (ReformulatedQuery.qid q)
  /\ strip (ReformulatedQuery.qid q) = ReformulatedQuery.qid q
  /\ ReformulatedQuery.reformulated q ≠ []
  /\ one_line (ReformulatedQuery.reformulated q)
  /\ strip (ReformulatedQuery.reformulated q) = ReformulatedQuery.reformulated q.

Lemma writerow_pair a b :
  Csv.writerow ch_tab [a; b]
  = (Csv.format_field ch_tab a ++ ch_tab :: Csv.format_field ch_tab b)
      ++ [ch_cr; ch_lf].
Proof. unfold Csv.writerow. cbn [map join]. by destruct a. Qed.

Lemma file_lines_row body rest :
  one_line body ->
  file_lines (body ++ [ch_cr; ch_lf] ++ rest) = (body ++ [ch_lf]) :: file_lines rest.
Proof.
  intros Hbody. unfold file_lines.
  change ([ch_cr; ch_lf] ++ rest) with (ch_cr :: ch_lf :: rest).
  by rewrite file_lines_aux_row.
Qed.

Lemma load_saved (queries : list ReformulatedQuery.t) :
  Forall storable queries ->
  Data.load_queries_tsv (Data.save_queries_tsv (Data.RowQuery <$> queries))
  = (fun q => Query.mk (ReformulatedQuery.qid q)
                (Csv.format_field ch_tab (ReformulatedQuery.reformulated q)))
      <$> queries.
Proof.
  unfold Data.load_queries_tsv. intros Hall. rewrite load_tsv_omap. cbn [app].
  induction Hall as [|q queries (Hq & Hplain & Hsq & Hr & Hone & Hsr) _ IH];
    [done|].
  rewrite !fmap_cons, save_queries_cons, writerow_pair, <- app_assoc.
  set (a := ReformulatedQuery.qid q) in *.
  set (b := ReformulatedQuery.reformulated q) in *.
  rewrite (plain_format a Hplain).
  set (b' := Csv.format_field ch_tab b).
  rewrite file_lines_row.
  2:{ apply Forall_app. split; [by apply plain_one_line|].
      constructor; [done|]. by apply format_one_line. }
  cbn [omap list_omap].
  replace ((a ++ ch_tab :: b') ++ [ch_lf]) with (a ++ [ch_tab] ++ b' ++ [ch_lf])
    by (by rewrite <- !app_assoc).
  rewrite fields_of_row;
    [|done|by apply format_nonempty|by apply plain_tab_free|done
     |by apply format_stripped].
  cbn [mbind option_bind]. unfold query_of. cbn [fst snd].
  assert (strip b' = b') as Hsb' by apply (format_stripped b Hsr).
  rewrite Hsb'.
  rewrite bool_decide_true by (by apply format_nonempty).
  rewrite Hsq. f_equal. exact IH.
Qed.

(** Saved queries load back as they were, when every identifier and every
    text is non-empty, has no white space around it and holds no tab, line
    end or double quote. *)
Theorem save_then_load (queries : list ReformulatedQuery.t) :
  Forall (fun q => storable q /\ plain (ReformulatedQuery.reformulated q)) queries ->
  Data.load_queries_tsv (Data.save_queries_tsv (Data.RowQuery <$> queries))
  = (fun q => Query.mk (ReformulatedQuery.qid q) (ReformulatedQuery.reformulated q))
      <$> queries.
Proof.
  intros Hall. rewrite load_saved.
  - induction Hall as [|q queries [_ Hp] _ IH]; [done|].
    rewrite !fmap_cons, IH. by rewrite (plain_format _ Hp).
  - eapply Forall_impl; [exact Hall|]. by intros ? [? _].
Qed.

Lemma quoted_longer s : (length s + 2 <= length (Csv.quoted s))%nat.
Proof.
  unfold Csv.quoted. rewrite !length_app. cbn [length].
  assert (length s <= length
            (flat_map (fun c => if (c =? ch_dquote)%N then [ch_dquote; ch_dquote] else [c]) s))%nat.
  { induction s as [|c s IH]; cbn [flat_map]; [done|].
    rewrite length_app. destruct (c =? ch_dquote)%N; cbn [length]; lia. }
  lia.
Qed.

(** A text with a double quote does not load back as it was saved: the
    writer quotes it and doubles its quotes, and the loader, which only
    cuts the line at the first tab, returns the quoted form. *)
Theorem saved_quotes_are_not_undone (q : ReformulatedQuery.t) :
  storable q ->
  ch_dquote ∈ ReformulatedQuery.reformulated q ->
  Data.load_queries_tsv (Data.save_queries_tsv [Data.RowQuery q])
  = [Query.mk (ReformulatedQuery.qid q)
       (Csv.quoted (ReformulatedQuery.reformulated q))]
  /\ Csv.quoted (ReformulatedQuery.reformulated q) ≠ ReformulatedQuery.reformulated q.
Proof.
  intros Hq Hin. split.
  - change [Data.RowQuery q] with (Data.RowQuery <$> [q]).
    rewrite load_saved by (by constructor). cbn [fmap list_fmap].
    unfold Csv.format_field.
    replace (existsb (Csv.special ch_tab) (ReformulatedQuery.reformulated q))
      with true; [done|].
    symmetry. apply existsb_exists. exists ch_dquote. split; [|done].
    by apply list_elem_of_In.
  - intros Heq. pose proof (quoted_longer (ReformulatedQuery.reformulated q)) as Hl.
    rewrite Heq in Hl. lia.
Qed.

End QueryFiles.

(** A file with a row ended by CR LF, a blank line, a line without a tab
    and a last row without a line end, whose text holds a tab. *)
Definition sample_file : str :=
  lit "q1" ++ [ch_tab] ++ lit " what is rocq " ++ [ch_cr; ch_lf]
    ++ lit "  " ++ [ch_lf] ++ lit "orphan" ++ [ch_lf]
    ++ lit "q2 " ++ [ch_tab] ++ lit "csv" ++ [ch_tab] ++ lit "files".

Definition sample_query : Query.t :=
  Query.mk (lit "q2") (lit "csv" ++ [ch_tab] ++ lit "files").

Lemma load_queries_well_formed_witness :
  sample_query ∈ Data.load_queries_tsv sample_file
  /\ Query.qid sample_query ≠ [] /\ tab_free (Query.qid sample_query)
  /\ Query.text sample_query ≠ []
  /\ strip (Query.qid sample_query) = Query.qid sample_query
  /\ strip (Query.text sample_query) = Query.text sample_query
  /\ one_line (Query.qid sample_query) /\ one_line (Query.text sample_query).
Proof.
  assert (sample_query ∈ Data.load_queries_tsv sample_file) as Hin.
  { replace (Data.load_queries_tsv sample_file)
      with [Query.mk (lit "q1") (lit "what is rocq"); sample_query]
      by (vm_compute; reflexivity).
    apply list_elem_of_further, list_elem_of_here. }
  split; [exact Hin|]. exact (load_queries_well_formed _ _ Hin).
Defined.

Definition sample_results : list ReformulatedQuery.t :=
  [ ReformulatedQuery.mk (lit "q1") (lit "climate change")
      (lit "climate change climate change warming, emissions") [];
    ReformulatedQuery.mk (lit "q2") (lit "what is rocq")
      (lit "what is rocq a proof assistant") [] ].

Ltac by_decision := apply (bool_decide_unpack _); vm_compute; exact I.

Lemma save_then_load_witness :
  Data.load_queries_tsv (Data.save_queries_tsv (Data.RowQuery <$> sample_results))
  = [ Query.mk (lit "q1") (lit "climate change climate change warming, emissions");
      Query.mk (lit "q2") (lit "what is rocq a proof assistant") ].
Proof.
  apply (save_then_load sample_results).
  unfold sample_results.
  repeat (apply Forall_cons_2 || apply Forall_nil_2);
    (split; [unfold storable; cbn [ReformulatedQuery.qid ReformulatedQuery.reformulated];
             repeat split; try done; try (vm_compute; reflexivity);
             unfold plain, one_line; by_decision
            |unfold plain; cbn [ReformulatedQuery.reformulated]; by_decision]).
Defined.

Definition quoting_result : ReformulatedQuery.t :=
  ReformulatedQuery.mk (lit "q1") (lit "rocq") (dq "the 'rocq' prover") [].

Lemma saved_quotes_are_not_undone_witness :
  Data.load_queries_tsv (Data.save_queries_tsv [Data.RowQuery quoting_result])
  = [Query.mk (lit "q1") (dq "'the ''rocq'' prover'")].
Proof.
  refine (proj1 (saved_quotes_are_not_undone quoting_result _ _)).
  - unfold storable, quoting_result.
    cbn [ReformulatedQuery.qid ReformulatedQuery.reformulated].
    repeat split; try done; try (vm_compute; reflexivity);
      unfold plain, one_line; by_decision.
  - unfold quoting_result. cbn [ReformulatedQuery.reformulated]. by_decision.
Defined.

(** ** Passage texts: [_extract_passage_text] *)

Section PassageText.

#[local] Arguments strip : simpl never.
#[local] Arguments Json.loads : simpl never.

(** The errors of the decoder. *)
Definition decoder_error (e : exn) : Prop :=
  e = JSONDecodeError \/ e = RecursionError.

Lemma scan_raises (fuel : nat) :
  (forall s e, Json.scan_once fuel s = Raise e -> decoder_error e)
  /\ (forall acc s e, Json.scan_members fuel acc s = Raise e -> decoder_error e)
  /\ (forall acc s e, Json.scan_elements fuel acc s = Raise e -> decoder_error e).
Proof.
  induction fuel as [|f (IH1 & IH2 & IH3)].
  - repeat split; intros; cbn in *; simplify_eq; by right.
  - repeat split.
    + intros s e. cbn [Json.scan_once].
      repeat (case_match; try (intros [= <-]; by left)); try done.
      * apply IH2.
      * apply IH3.
    + intros acc s e. cbn [Json.scan_members].
      repeat (case_match; try (intros [= <-]; by left)); try done.
      unfold mbind, res_bind.
      destruct (Json.scan_once f _) as [[v r2]|e'] eqn:Hv.
      * repeat (case_match; try (intros [= <-]; by left)); try done. apply IH2.
      * intros [= <-]. by eapply IH1.
    + intros acc s e. cbn [Json.scan_elements].
      unfold mbind, res_bind.
      destruct (Json.scan_once f _) as [[v r2]|e'] eqn:Hv.
      * repeat (case_match; try (intros [= <-]; by left)); try done. apply IH3.
      * intros [= <-]. by eapply IH1.
Qed.

Lemma loads_raises (text : str) (e : exn) :
  Json.loads text = Raise e -> decoder_error e.
Proof.
  unfold Json.loads. case_match; [intros [= <-]; by left|].
  unfold mbind, res_bind.
  destruct (Json.scan_once _ _) as [[v r]|e'] eqn:Hv.
  - case_match; [done|]. intros [= <-]. by left.
  - intros [= <-]. by eapply (proj1 (scan_raises _)).
Qed.

(** The first of the keys that the object has, with its value. *)
Fixpoint first_value (d : list (str * json)) (keys : list str) : option json :=
  match keys with
  | [] => None
  | key :: keys =>
      match dict_lookup d key with
      | Some v => Some v
      | None => first_value d keys
      end
  end.

Definition text_keys : list str :=
  [lit "contents"; lit "body"; lit "text"; lit "passage"].

Lemma scan_keys_object d keys raw :
  Retrieval.scan_keys keys (JDict d) raw
  = match first_value d keys with
    | Some v => QAExpand.json_strip v
    | None => Ok (strip raw)
    end.
Proof.
  induction keys as [|key keys IH]; cbn [Retrieval.scan_keys first_value]; [done|].
  cbn [Retrieval.json_in Retrieval.json_item]. unfold mbind, res_bind.
  destruct (dict_lookup d key) as [v|] eqn:Hk.
  - by rewrite bool_decide_true by eauto.
  - rewrite bool_decide_false by (by intros [? ?]). exact IH.
Qed.

(** On anything but an object, the search for a key ends in the
    stripped raw text or in a [TypeError]. *)
Lemma scan_keys_other keys parsed raw :
  (forall d, parsed ≠ JDict d) ->
  Retrieval.scan_keys keys parsed raw = Ok (strip raw)
  \/ Retrieval.scan_keys keys parsed raw = Raise TypeError.
Proof.
  intros Hobj. induction keys as [|key keys IH]; cbn [Retrieval.scan_keys]; [by left|].
  unfold mbind, res_bind.
  destruct parsed as [| | | |s|l|d]; cbn [Retrieval.json_in Retrieval.json_item];
    try (by right).
  - destruct (contains key s); [by right|exact IH].
  - destruct (existsb _ l); [by right|exact IH].
  - by destruct (Hobj d).
Qed.

Lemma object_or_not (parsed : json) :
  (exists d, parsed = JDict d) \/ (forall d, parsed ≠ JDict d).
Proof. destruct parsed; eauto; by right. Qed.

Lemma extract_unfold doc raw :
  doc (lit "raw") = Some raw -> raw ≠ [] ->
  Retrieval._extract_passage_text doc
  = try_except
      (parsed ← Json.loads raw; Retrieval.scan_keys text_keys parsed raw)
      (fun e => match e with
                | JSONDecodeError | TypeError => Ok (strip raw)
                | _ => Raise e
                end).
Proof.
  intros Hraw Hne. unfold Retrieval._extract_passage_text. rewrite Hraw.
  destruct raw as [|c raw]; [done|]. reflexivity.
Qed.

(** When the [raw] field of the document decodes to an object, the text
    is the value of the first of [contents], [body], [text], [passage]
    that the object has, stripped; a value that is not a string is an
    [AttributeError], which is not caught; with none of the keys the text
    is the raw field, stripped. *)
Theorem extract_passage_text_object (doc : str -> option str) (raw : str)
    (d : list (str * json)) :
  doc (lit "raw") = Some raw -> raw ≠ [] ->
  Json.loads raw = Ok (JDict d) ->
  Retrieval._extract_passage_text doc
  = match first_value d text_keys with
    | Some (JStr s) => Ok (strip s)
    | Some _ => Raise AttributeError
    | None => Ok (strip raw)
    end.
Proof.
  intros Hraw Hne Hloads. rewrite (extract_unfold doc raw Hraw Hne), Hloads.
  unfold mbind, res_bind. rewrite scan_keys_object.
  destruct (first_value d text_keys) as [v|]; [|done].
  by destruct v.
Qed.



(** Every text that [_extract_passage_text] returns has no white space
    around it. *)
Theorem extract_passage_text_stripped (doc : str -> option str) (s : str) :
  Retrieval._extract_passage_text doc = Ok s -> strip s = s.
Proof.
  destruct (doc (lit "raw")) as [[|c raw]|] eqn:Hraw.
  - unfold Retrieval._extract_passage_text. rewrite Hraw.
    destruct (doc (lit "contents")) as [[|? ?]|]; intros [= <-];
      [done|apply strip_idempotent|done].
  - rewrite (extract_unfold doc (c :: raw) Hraw) by done.
    destruct (Json.loads (c :: raw)) as [parsed|e'] eqn:Hloads.
    + unfold mbind, res_bind.
      destruct (object_or_not parsed) as [[d ->]|Hno].
      * rewrite scan_keys_object.
        destruct (first_value d text_keys) as [v|].
        -- destruct v; cbn; intros [= <-]. apply strip_idempotent.
        -- cbn. intros [= <-]. apply strip_idempotent.
      * destruct (scan_keys_other text_keys parsed (c :: raw)) as [-> | ->].
        -- exact Hno.
        -- cbn. intros [= <-]. apply strip_idempotent.
        -- cbn. intros [= <-]. apply strip_idempotent.
    + cbn. destruct e'; intros [= <-]; apply strip_idempotent.
  - unfold Retrieval._extract_passage_text. rewrite Hraw.
    destruct (doc (lit "contents")) as [[|? ?]|]; intros [= <-];
      [done|apply strip_idempotent|done].
Qed.

End PassageText.

(** A stored document, as the fields it has. *)
Definition doc_of (fields : list (str * str)) : str -> option str :=
  dict_lookup fields.

(** A passage of an MS MARCO index, a document of a flat BEIR index, and
    three documents whose [raw] field is JSON of another shape. *)
Definition marco_raw : str :=
  dq "{'id': '7', 'contents': ' Rocq is a proof assistant. '}".
Definition marco_doc : str -> option str := doc_of [(lit "raw", marco_raw)].

Definition beir_doc : str -> option str :=
  doc_of [(lit "contents", lit "  A flat index stores the text.  ")].

Definition array_raw : str := dq " ['contents', 'body'] ".
Definition array_doc : str -> option str := doc_of [(lit "raw", array_raw)].

Definition null_doc : str -> option str :=
  doc_of [(lit "raw", dq "{'text': 'kept', 'body': null}")].

Lemma extract_passage_text_object_witness :
  Retrieval._extract_passage_text marco_doc = Ok (lit "Rocq is a proof assistant.").
Proof.
  rewrite (extract_passage_text_object marco_doc marco_raw
             [(lit "id", JStr (lit "7"));
              (lit "contents", JStr (lit " Rocq is a proof assistant. "))]).
  - vm_compute. reflexivity.
  - vm_compute. reflexivity.
  - vm_compute. discriminate.
  - vm_compute. reflexivity.
Defined.



Lemma extract_passage_text_stripped_witness :
  Retrieval._extract_passage_text beir_doc = Ok (lit "A flat index stores the text.")
  /\ strip (lit "A flat index stores the text.") = lit "A flat index stores the text.".
Proof.
  assert (Retrieval._extract_passage_text beir_doc
          = Ok (lit "A flat index stores the text.")) as Hrun
    by (vm_compute; reflexivity).
  split; [exact Hrun|]. exact (extract_passage_text_stripped _ _ Hrun).
Defined.

(** ** [evaluate_all] *)

Lemma dict_lookup_set {V} (d : list (str * V)) (k k' : str) (v : V) :
  dict_lookup (dict_set d k v) k'
  = if decide (k = k') then Some v else dict_lookup d k'.
Proof.
  induction d as [|[k0 v0] d IH]; cbn [dict_set dict_lookup].
  - by destruct (decide (k = k')).
  - destruct (decide (k0 = k)) as [->|Hne]; cbn [dict_lookup].
    + by destruct (decide (k = k')).
    + rewrite IH. destruct (decide (k0 = k')) as [->|Hne']; [|done].
      by rewrite decide_False by done.
Qed.

Lemma DATASETS_keys_spec (k : str) :
  k ∈ Data.DATASETS_keys <-> is_Some (DATASETS !! k).
Proof.
  split.
  - unfold Data.DATASETS_keys. intros Hk.
    repeat (apply elem_of_cons in Hk as [->|Hk];
            [apply (bool_decide_unpack _); by vm_compute|]).
    by apply elem_of_nil in Hk.
  - intros [c Hc]. unfold DATASETS in Hc.
    apply elem_of_list_to_map_2 in Hc.
    repeat (apply elem_of_cons in Hc as [[= -> _]|Hc];
            [apply (bool_decide_unpack _); by vm_compute|]).
    by apply elem_of_nil in Hc.
Qed.

Section BatchEvaluation.
Context {W F : Type}.
Variable subprocess_run : list str -> W -> res completed * W.
Variable path_exists : str -> W -> bool.
Variable nan : F.
Variable py_float : str -> option F.

#[local] Existing Instance Pipeline.M_ret.
#[local] Existing Instance Pipeline.M_bind.

Local Abbreviation evaluate := (Pipeline.evaluate subprocess_run nan py_float).
Local Abbreviation evaluate_all_cell :=
  (Evaluation.evaluate_all_cell subprocess_run path_exists nan py_float).
Local Abbreviation evaluate_all :=
  (Evaluation.evaluate_all subprocess_run path_exists nan py_float).
Local Abbreviation table := (Evaluation.table (F:=F)).

(** [run_dir / f"{ds}.{ret}.run"] *)
Definition run_path (run_dir ds ret : str) : str :=
  path_join run_dir (ds ++ lit "." ++ ret ++ lit ".run").

(** The rows of the table for the datasets of a list, all empty. *)
Definition empty_rows (dss : list str) : table :=
  foldl (fun t ds => dict_set t ds []) [] dss.

(** The inner loop for one dataset, and the outer loop. *)
Definition row_loop (run_dir : str) (overrides : list (str * str))
    (rets : list str) (t : table) (ds : str) : Pipeline.M (W:=W) table :=
  Pipeline.foldM (evaluate_all_cell run_dir overrides ds) (dict_set t ds []) rets.

Lemma evaluate_all_unfold run_dir datasets retrievers overrides :
  evaluate_all run_dir datasets retrievers overrides
  = Pipeline.foldM
      (row_loop run_dir (Evaluation.or_list overrides [])
         (Evaluation.or_list retrievers [lit "bm25"; lit "splade"; lit "bge"]))
      [] (Evaluation.or_list datasets Data.DATASETS_keys).
Proof. reflexivity. Qed.

Lemma cell_effect run_dir overrides ds (t : table) ret (s : W * list event) t' s' :
  evaluate_all_cell run_dir overrides ds t ret s = (Ok t', s') ->
  (t' = t /\ s' = s /\ path_exists (run_path run_dir ds ret) s.1 = false)
  \/ exists m,
       evaluate (run_path run_dir ds ret) ds (dict_lookup overrides ds) None s
         = (Ok m, s')
       /\ t' = dict_set t ds (dict_set (dict_get t ds []) ret m).
Proof.
  unfold Evaluation.evaluate_all_cell, mbind, Pipeline.M_bind, Pipeline.exists_.
  fold (run_path run_dir ds ret).
  destruct (path_exists (run_path run_dir ds ret) s.1) eqn:Hex; cbn [negb].
  - destruct (evaluate _ ds _ None s) as [[m|e] s1] eqn:Hev; [|done].
    intros [= <- <-]. right. by exists m.
  - intros [= <- <-]. by left.
Qed.

Lemma evaluate_ok_keys run_file ds q (s s' : W * list event) m :
  evaluate run_file ds q None s = (Ok m, s') ->
  exists cfg, DATASETS !! ds = Some cfg
              /\ forall key, is_Some (m !! key) -> key ∈ eval_metrics cfg.
Proof.
  intros Hrun. unfold Pipeline.evaluate in Hrun.
  apply P_bind_ok_inv in Hrun as (cfg & s1 & Hcfg & Hrun).
  unfold Pipeline.lift in Hcfg.
  destruct (DATASETS !! ds) as [cfg'|] eqn:Hds; [|done].
  injection Hcfg as -> <-. exists cfg. split; [reflexivity|].
  intros key [v Hv]. cbn [default] in Hrun.
  destruct (decide (key ∈ eval_metrics cfg)) as [|Hnot]; [done|].
  rewrite (foldM_metrics_keys _ _ _ _ _ _ _ _ _ _ _ _ Hrun Hnot), lookup_empty in Hv.
  done.
Qed.

(** What an entry of the table says of the run it reports. *)
Definition entry_ok (dss rets : list str) (t : table) : Prop :=
  forall ds row ret m,
    dict_lookup t ds = Some row -> dict_lookup row ret = Some m ->
    ds ∈ dss /\ ret ∈ rets
    /\ exists cfg, DATASETS !! ds = Some cfg
                   /\ forall key, is_Some (m !! key) -> key ∈ eval_metrics cfg.

Lemma cells_ok dss rets_all run_dir overrides ds rets (t : table)
    (s : W * list event) t' s' :
  ds ∈ dss -> (forall r, r ∈ rets -> r ∈ rets_all) ->
  is_Some (dict_lookup t ds) -> entry_ok dss rets_all t ->
  Pipeline.foldM (evaluate_all_cell run_dir overrides ds) t rets s = (Ok t', s') ->
  entry_ok dss rets_all t'
  /\ forall k, is_Some (dict_lookup t' k) <-> is_Some (dict_lookup t k).
Proof.
  intros Hds. revert t s. induction rets as [|r rets IH]; intros t s Hsub Hrow Hok Hrun.
  - cbn in Hrun. injection Hrun as <- _. done.
  - cbn [Pipeline.foldM] in Hrun.
    apply P_bind_ok_inv in Hrun as (t1 & s1 & Hcell & Hrun).
    apply cell_effect in Hcell as [(-> & -> & _)|(m & Hev & ->)].
    + apply (IH t s); [|done..]. intros r' Hr'. apply Hsub. by right.
    + apply evaluate_ok_keys in Hev as Hkeys.
      set (t1 := dict_set t ds _) in *.
      assert (forall k, is_Some (dict_lookup t1 k) <-> is_Some (dict_lookup t k))
        as Hsame.
      { intros k. unfold t1. rewrite dict_lookup_set.
        destruct (decide (ds = k)) as [<-|]; [|done]. split; [done|eauto]. }
      destruct (IH t1 s1) as [Hok' Hkeys'].
      * intros r' Hr'. apply Hsub. by right.
      * by apply Hsame.
      * intros ds' row ret' m' Hrow' Hm'. unfold t1 in Hrow'.
        rewrite dict_lookup_set in Hrow'.
        destruct (decide (ds = ds')) as [<-|Hne]; [|by eapply Hok].
        injection Hrow' as <-. rewrite dict_lookup_set in Hm'.
        destruct (decide (r = ret')) as [<-|Hne'].
        -- injection Hm' as <-. split; [done|]. split; [|done].
           apply Hsub. by left.
        -- destruct Hrow as [row Hrow]. unfold dict_get in Hm'.
           rewrite Hrow in Hm'. by eapply Hok.
      * exact Hrun.
      * split; [done|]. intros k. by rewrite Hkeys', Hsame.
Qed.

Lemma rows_ok dss rets run_dir overrides (l : list str) (t : table)
    (s : W * list event) t' s' :
  (forall d, d ∈ l -> d ∈ dss) -> entry_ok dss rets t ->
  Pipeline.foldM (row_loop run_dir overrides rets) t l s = (Ok t', s') ->
  entry_ok dss rets t'
  /\ forall k, is_Some (dict_lookup t' k) <-> is_Some (dict_lookup t k) \/ k ∈ l.
Proof.
  revert t s. induction l as [|d l IH]; intros t s Hsub Hok Hrun.
  - cbn in Hrun. injection Hrun as <- _. split; [done|].
    intros k. split; [by left|]. intros [|Hk]; [done|]. by apply elem_of_nil in Hk.
  - cbn [Pipeline.foldM] in Hrun.
    apply P_bind_ok_inv in Hrun as (t1 & s1 & Hrow & Hrun).
    unfold row_loop in Hrow.
    apply (cells_ok dss rets) in Hrow as [Hok1 Hkeys1].
    + destruct (IH t1 s1) as [Hok' Hkeys']; [|done..|].
      { intros d' Hd'. apply Hsub. by right. }
      split; [done|]. intros k. rewrite Hkeys', Hkeys1, dict_lookup_set.
      rewrite elem_of_cons. destruct (decide (d = k)) as [<-|Hne].
      * split; [intros _; right; by left|eauto].
      * split; [intros [|]; eauto|]. intros [|[|]]; eauto. congruence.
    + apply Hsub. by left.
    + done.
    + rewrite dict_lookup_set, decide_True by done. eauto.
    + intros ds' row ret' m' Hrow' Hm'. rewrite dict_lookup_set in Hrow'.
      destruct (decide (d = ds')) as [<-|Hne]; [|by eapply Hok].
      injection Hrow' as <-. done.
Qed.

(** The table that [evaluate_all] returns has a row for every dataset it
    was asked for and for no other, whether or not a run file was found
    for it. *)
Theorem evaluate_all_rows run_dir datasets retrievers overrides
    (s s' : W * list event) (t : table) (ds : str) :
  evaluate_all run_dir datasets retrievers overrides s = (Ok t, s') ->
  is_Some (dict_lookup t ds) <-> ds ∈ Evaluation.or_list datasets Data.DATASETS_keys.
Proof.
  rewrite evaluate_all_unfold. intros Hrun.
  eapply (rows_ok (Evaluation.or_list datasets Data.DATASETS_keys)) in Hrun
    as [_ Hkeys]; [|done|by intros ? ? ? ? ?].
  rewrite Hkeys. cbn. split; [|by right]. by intros [[? [=]]|].
Qed.

(** Every entry of the table that [evaluate_all] returns is for a dataset
    and a retriever it was asked for, the dataset is one of the table of
    datasets, and the metrics reported are among those of the dataset. *)
Theorem evaluate_all_entries run_dir datasets retrievers overrides
    (s s' : W * list event) (t : table) ds row ret m :
  evaluate_all run_dir datasets retrievers overrides s = (Ok t, s') ->
  dict_lookup t ds = Some row -> dict_lookup row ret = Some m ->
  ds ∈ Evaluation.or_list datasets Data.DATASETS_keys
  /\ ret ∈ Evaluation.or_list retrievers [lit "bm25"; lit "splade"; lit "bge"]
  /\ exists cfg, DATASETS !! ds = Some cfg
                 /\ forall key, is_Some (m !! key) -> key ∈ eval_metrics cfg.
Proof.
  rewrite evaluate_all_unfold. intros Hrun Hrow Hm.
  eapply (rows_ok (Evaluation.or_list datasets Data.DATASETS_keys)) in Hrun
    as [Hok _]; [|done|by intros ? ? ? ? ?].
  by eapply Hok.
Qed.

Lemma cells_absent run_dir overrides ds rets (t : table) (s : W * list event) :
  (forall r, r ∈ rets -> path_exists (run_path run_dir ds r) s.1 = false) ->
  Pipeline.foldM (evaluate_all_cell run_dir overrides ds) t rets s = (Ok t, s).
Proof.
  induction rets as [|r rets IH]; intros Habs; [done|].
  cbn [Pipeline.foldM]. unfold mbind, Pipeline.M_bind.
  unfold Evaluation.evaluate_all_cell at 1. unfold mbind, Pipeline.M_bind, Pipeline.exists_.
  fold (run_path run_dir ds r). rewrite (Habs r) by (by left). cbn [negb].
  unfold mret, Pipeline.M_ret. apply IH. intros r' Hr'. apply Habs. by right.
Qed.

Lemma rows_absent run_dir overrides rets (l : list str) (t : table)
    (s : W * list event) :
  (forall d r, d ∈ l -> r ∈ rets -> path_exists (run_path run_dir d r) s.1 = false) ->
  Pipeline.foldM (row_loop run_dir overrides rets) t l s
  = (Ok (foldl (fun t ds => dict_set t ds []) t l), s).
Proof.
  revert t. induction l as [|d l IH]; intros t Habs; [done|].
  cbn [Pipeline.foldM foldl]. unfold mbind, Pipeline.M_bind.
  unfold row_loop at 1. rewrite cells_absent by (intros r Hr; apply Habs; [by left|done]).
  apply IH. intros d' r Hd' Hr. apply Habs; [by right|done].
Qed.

(** When none of the run files it looks for exists, [evaluate_all] returns
    an empty row for every dataset it was asked for and runs nothing: a
    name that is in no table is not refused. *)
Theorem evaluate_all_without_runs run_dir datasets retrievers overrides
    (s : W * list event) :
  (forall d r,
     d ∈ Evaluation.or_list datasets Data.DATASETS_keys ->
     r ∈ Evaluation.or_list retrievers [lit "bm25"; lit "splade"; lit "bge"] ->
     path_exists (run_path run_dir d r) s.1 = false) ->
  evaluate_all run_dir datasets retrievers overrides s
  = (Ok (empty_rows (Evaluation.or_list datasets Data.DATASETS_keys)), s).
Proof.
  intros Habs. rewrite evaluate_all_unfold. by apply rows_absent.
Qed.

(** [evaluate_all] catches nothing: with a run file for the first
    retriever of a first dataset that is in no table, the [KeyError] of
    [evaluate] ends the whole evaluation, before any process is run. *)
Theorem evaluate_all_unknown_dataset run_dir ds dss ret rets overrides
    (s : W * list event) :
  DATASETS !! ds = None ->
  path_exists (run_path run_dir ds ret) s.1 = true ->
  evaluate_all run_dir (Some (ds :: dss)) (Some (ret :: rets)) overrides s
  = (Raise KeyError, s).
Proof.
  intros Hds Hex. rewrite evaluate_all_unfold. cbn [Evaluation.or_list Pipeline.foldM].
  unfold mbind, Pipeline.M_bind. unfold row_loop at 1. cbn [Pipeline.foldM].
  unfold mbind, Pipeline.M_bind.
  unfold Evaluation.evaluate_all_cell at 1.
  unfold mbind, Pipeline.M_bind, Pipeline.exists_.
  fold (run_path run_dir ds ret). rewrite Hex. cbn [negb].
  unfold Pipeline.evaluate, mbind, Pipeline.M_bind, Pipeline.lift.
  by rewrite Hds.
Qed.

End BatchEvaluation.

(** A run directory with two run files, evaluated by a process that
    reports one value. *)
Definition run_files : list str :=
  [lit "runs/dl19.bm25.run"; lit "runs/scifact.splade.run"].

Definition batch_run (datasets retrievers : option (list str)) (files : list str)
    : res (Evaluation.table (F:=ExampleRun.fl)) * (list str * list event) :=
  Evaluation.evaluate_all (ExampleRun.subprocess_run false ExampleRun.good_report)
    ExampleRun.path_exists ExampleRun.Nan ExampleRun.py_float
    (lit "runs") datasets retrievers None (files, []).

Definition sample_datasets : option (list str) := Some [lit "dl19"; lit "fiqa"].

Definition sample_table : Evaluation.table (F:=ExampleRun.fl) :=
  match (batch_run sample_datasets None run_files).1 with
  | Ok t => t
  | Raise _ => []
  end.

Definition sample_row : list (str * gmap (list N) ExampleRun.fl) :=
  dict_get sample_table (lit "dl19") [].

Definition sample_metrics : gmap (list N) ExampleRun.fl :=
  dict_get sample_row (lit "bm25") ∅.

Lemma sample_batch_run :
  batch_run sample_datasets None run_files = (Ok sample_table, (run_files, [])).
Proof. vm_compute. reflexivity. Qed.

Lemma evaluate_all_rows_witness :
  is_Some (dict_lookup sample_table (lit "fiqa"))
  /\ ~ is_Some (dict_lookup sample_table (lit "scifact")).
Proof.
  pose proof (fun ds => evaluate_all_rows _ _ _ _ _ _ _ _ _ _ _ ds sample_batch_run)
    as Hrows.
  split.
  - apply Hrows. apply (bool_decide_unpack _). vm_compute. exact I.
  - intros Hin. apply Hrows in Hin. revert Hin.
    apply (bool_decide_unpack _). vm_compute. exact I.
Defined.

Lemma evaluate_all_entries_witness :
  dict_lookup sample_table (lit "dl19") = Some sample_row
  /\ dict_lookup sample_row (lit "bm25") = Some sample_metrics
  /\ lit "dl19" ∈ Evaluation.or_list sample_datasets Data.DATASETS_keys
  /\ lit "bm25" ∈ Evaluation.or_list None [lit "bm25"; lit "splade"; lit "bge"]
  /\ exists cfg, DATASETS !! lit "dl19" = Some cfg
                 /\ forall key, is_Some (sample_metrics !! key)
                                -> key ∈ eval_metrics cfg.
Proof.
  assert (dict_lookup sample_table (lit "dl19") = Some sample_row) as Hrow
    by (vm_compute; reflexivity).
  assert (dict_lookup sample_row (lit "bm25") = Some sample_metrics) as Hm
    by (vm_compute; reflexivity).
  split; [exact Hrow|]. split; [exact Hm|].
  exact (evaluate_all_entries _ _ _ _ _ _ _ _ _ _ _ _ _ _ _
           sample_batch_run Hrow Hm).
Defined.

Lemma evaluate_all_without_runs_witness :
  batch_run (Some [lit "dl19"; lit "no such dataset"]) (Some [lit "bge"]) run_files
  = (Ok [(lit "dl19", []); (lit "no such dataset", [])], (run_files, [])).
Proof.
  apply (evaluate_all_without_runs
           (ExampleRun.subprocess_run false ExampleRun.good_report)
           ExampleRun.path_exists ExampleRun.Nan ExampleRun.py_float).
  intros d r Hd Hr. cbn [Evaluation.or_list] in Hd, Hr.
  apply list_elem_of_singleton in Hr as ->.
  apply elem_of_cons in Hd as [->|Hd]; [vm_compute; reflexivity|].
  apply list_elem_of_singleton in Hd as ->. vm_compute. reflexivity.
Defined.
